(** * MONv2: transaction submission and nonce coordination

    A shallow embedding of [transaction.js] (class [TransactionManager]) and
    of the mint chain and batch handler of the three [index.js] revisions
    kept in the repository, followed by the properties proved about them.

    Conventions of the embedding:
    - JavaScript numbers that hold counts (nonces, retry counters) are [nat],
      millisecond quantities, block numbers and gas are [N], the [limit] of a
      history query is [Z] because [Array.prototype.slice] gives a meaning to
      negative ends;
    - objects that are shared by reference (the [txRecord] pushed into
      [txHistory] and later mutated through the local variable) live in a
      heap [objects]; [txHistory] is a list of references;
    - an [async] function is cut at its [await]s: the code between two
      [await]s runs without interruption on the single JavaScript thread, so
      it is one atomic step of the model. *)

From Stdlib Require Import ZArith NArith List String Ascii Lia Bool Permutation Sorted.
From stdpp Require Import gmap strings list fin_maps.

Open Scope string_scope.

(* ===================================================================== *)
(** ** JavaScript values and string primitives                            *)
(* ===================================================================== *)

Module JS.

(** The primitive values that flow through the optional arguments of the
    modelled functions. *)
Inductive value :=
| undefined
| null
| Num (n : Z)
| Str (s : string).

(** ToBoolean. *)
Definition truthy (v : value) : bool :=
  match v with
  | undefined | null => false
  | Num n => negb (n =? 0)%Z
  | Str s => negb (s =? EmptyString)%string
  end.

(** [a || b]. *)
Definition or (a b : value) : value := if truthy a then a else b.

(** Property read [v.prop] on a primitive: numbers have no own
    properties and [Number.prototype] defines neither [nonce] nor
    [release]; a string answers [length]. *)
Definition get (v : value) (prop : string) : value :=
  match v with
  | Str s => if (prop =? "length")%string then Num (Z.of_nat (String.length s)) else undefined
  | _ => undefined
  end.

(** [String.prototype.toLowerCase] on the ASCII range. *)
Definition lower (c : ascii) : ascii :=
  let n := nat_of_ascii c in
  if ((65 <=? n) && (n <=? 90))%nat then ascii_of_nat (n + 32) else c.

Fixpoint toLowerCase (s : string) : string :=
  match s with
  | EmptyString => EmptyString
  | String c r => String (lower c) (toLowerCase r)
  end.

(** [s.includes(sub)]: [sub] occurs in [s] at some offset. *)
Fixpoint includes (s sub : string) : bool :=
  String.prefix sub s ||
  match s with
  | EmptyString => false
  | String _ r => includes r sub
  end.

(** [arr.slice(0, end)]. *)
Definition slice0 {A} (l : list A) (e : Z) : list A :=
  if (e <? 0)%Z
  then take (Z.to_nat (Z.max (Z.of_nat (length l) + e) 0)) l
  else take (Z.to_nat e) l.

(** [Promise.race]/[Promise.all] results: fulfilled or rejected. *)
Definition outcome (A E : Type) : Type := (A + E)%type.

End JS.

(* ===================================================================== *)
(** ** Data model of transaction.js                                       *)
(* ===================================================================== *)

Inductive Status := pending | confirmed | failed.

#[global] Instance Status_eq_dec : EqDecision Status.
Proof. solve_decision. Defined.

(** [new Error(message)]. *)
Record JsError := Error { message : string }.

Module Receipt.
Record t := { transactionHash : string; blockNumber : N; gasUsed : N }.
End Receipt.

Record SignedTx := { rawTransaction : string }.

(** The [options] argument of [sendTransaction]; an absent key reads as
    [JS.undefined]. *)
Module Options.
Record t := { to : JS.value; gasPrice : JS.value; gasLimit : JS.value;
              timeout : JS.value }.
Definition empty : t :=
  {| to := JS.undefined; gasPrice := JS.undefined; gasLimit := JS.undefined;
     timeout := JS.undefined |}.
End Options.

Module TxRecord.
Record t := {
  hash : string;
  from : string;
  to : JS.value;
  timestamp : N;
  status : Status;
  gasPrice : JS.value;
  gasLimit : JS.value;
  blockNumber : option N;
  gasUsed : option N;
  error : option string
}.

(** [txRecord.status = 'confirmed'; txRecord.blockNumber = ...;
    txRecord.gasUsed = ...]. *)
Definition confirm (r : Receipt.t) (x : t) : t :=
  {| hash := hash x; from := from x; to := to x; timestamp := timestamp x;
     status := confirmed;
     gasPrice := gasPrice x; gasLimit := gasLimit x;
     blockNumber := Some (Receipt.blockNumber r);
     gasUsed := Some (Receipt.gasUsed r);
     error := error x |}.

(** [txRecord.status = 'failed'; txRecord.error = error.message]. *)
Definition fail (e : JsError) (x : t) : t :=
  {| hash := hash x; from := from x; to := to x; timestamp := timestamp x;
     status := failed;
     gasPrice := gasPrice x; gasLimit := gasLimit x;
     blockNumber := blockNumber x; gasUsed := gasUsed x;
     error := Some (message e) |}.
End TxRecord.

(** [this.maxHistoryItems = 100], assigned once in the constructor. *)
Definition maxHistoryItems : nat := 100.

(** The closure of a [sendTransaction] activation suspended on its
    [await Promise.race(...)]. *)
Record Frame := {
  f_txHash : string;
  f_walletAddress : string;
  f_options : Options.t
}.

Inductive Call :=
| Racing (fr : Frame)
| Settled (r : JS.outcome Receipt.t JsError).

(** What the two promises handed to [Promise.race] can do. *)
Inductive Settlement :=
| BroadcastResolved (receipt : Receipt.t)
| BroadcastRejected (e : JsError)
| TimerFired.

(** Externally visible actions, in the order they happen. *)
Inductive Effect :=
| Sha3 (raw : string)
| WriteFile (content : list TxRecord.t)
| SetTimeout (ms : JS.value)
| SendSignedTransaction (raw : string)
| LogAction (action hash from : string) (detail : JS.value)
| Return (ref : nat) (receipt : Receipt.t)
| Throw (ref : nat) (e : JsError).

(** The [TransactionManager] instance together with what it points to:
    [pendingNonces] and [txHistory] are its fields, [objects] is the heap
    holding the record objects, [historyFile] is the content of
    [./tx_history.json], [inflight] holds the suspended [sendTransaction]
    activations (keyed by the reference of their [txRecord]) and [effects]
    is the log of actions performed so far. *)
Record Process := {
  pendingNonces : gmap string nat;
  txHistory : list nat;
  objects : gmap nat TxRecord.t;
  historyFile : option (list TxRecord.t);
  inflight : gmap nat Call;
  effects : list Effect
}.

Definition set_pendingNonces (f : gmap string nat -> gmap string nat) (p : Process) : Process :=
  {| pendingNonces := f (pendingNonces p); txHistory := txHistory p;
     objects := objects p; historyFile := historyFile p;
     inflight := inflight p; effects := effects p |}.

Definition set_txHistory (f : list nat -> list nat) (p : Process) : Process :=
  {| pendingNonces := pendingNonces p; txHistory := f (txHistory p);
     objects := objects p; historyFile := historyFile p;
     inflight := inflight p; effects := effects p |}.

Definition set_objects (f : gmap nat TxRecord.t -> gmap nat TxRecord.t) (p : Process) : Process :=
  {| pendingNonces := pendingNonces p; txHistory := txHistory p;
     objects := f (objects p); historyFile := historyFile p;
     inflight := inflight p; effects := effects p |}.

Definition set_historyFile (c : list TxRecord.t) (p : Process) : Process :=
  {| pendingNonces := pendingNonces p; txHistory := txHistory p;
     objects := objects p; historyFile := Some c;
     inflight := inflight p; effects := effects p |}.

Definition set_inflight (f : gmap nat Call -> gmap nat Call) (p : Process) : Process :=
  {| pendingNonces := pendingNonces p; txHistory := txHistory p;
     objects := objects p; historyFile := historyFile p;
     inflight := f (inflight p); effects := effects p |}.

Definition emit (e : Effect) (p : Process) : Process :=
  {| pendingNonces := pendingNonces p; txHistory := txHistory p;
     objects := objects p; historyFile := historyFile p;
     inflight := inflight p; effects := effects p ++ [e] |}.

(** A freshly constructed manager with no history file on disk. *)
Definition new_process : Process :=
  {| pendingNonces := ∅; txHistory := []; objects := ∅; historyFile := None;
     inflight := ∅; effects := [] |}.

(* ===================================================================== *)
(** ** TransactionManager                                                 *)
(* ===================================================================== *)

(** The records [txHistory] refers to, in order: what
    [JSON.stringify(this.txHistory)] serialises. *)
Definition history_records (p : Process) : list TxRecord.t :=
  omap (fun r => objects p !! r) (txHistory p).

(** [saveHistory]: rewrite the history file from [txHistory]. *)
Definition saveHistory (p : Process) : Process :=
  let content := history_records p in
  emit (WriteFile content) (set_historyFile content p).

(** [getNonce], from the point where [getTransactionCount] has answered
    [onChainNonce]: the rest of the body has no [await]. *)
Definition getNonce (address : string) (onChainNonce : nat)
    (pn : gmap string nat) : nat * gmap string nat :=
  let pendingNonce :=
    match pn !! address with
    | Some v => if (v =? 0)%nat then onChainNonce else v
    | None => onChainNonce
    end in
  let nonce := Nat.max onChainNonce pendingNonce in
  (nonce, <[address := nonce + 1]> pn).

(** [this.txHistory.unshift(x); if (length > maxHistoryItems) pop()]. *)
Definition unshift_capped {A} (x : A) (h : list A) : list A :=
  let h' := x :: h in
  if (maxHistoryItems <? length h')%nat then removelast h' else h'.

Section Manager.

(** [web3.utils.sha3]. *)
Variable sha3 : string -> string.

(** The [txRecord] literal of [sendTransaction]. *)
Definition pending_record (signedTx : SignedTx) (walletAddress : string)
    (options : Options.t) (startTime : N) : TxRecord.t :=
  {| TxRecord.hash := sha3 (rawTransaction signedTx);
     TxRecord.from := walletAddress;
     TxRecord.to := JS.or (Options.to options) (JS.Str "unknown");
     TxRecord.timestamp := startTime;
     TxRecord.status := pending;
     TxRecord.gasPrice := JS.or (Options.gasPrice options) (JS.Str "unknown");
     TxRecord.gasLimit := JS.or (Options.gasLimit options) (JS.Str "unknown");
     TxRecord.blockNumber := None;
     TxRecord.gasUsed := None;
     TxRecord.error := None |}.

(** What the continuation after the [await] still refers to. *)
Definition frame_of (signedTx : SignedTx) (walletAddress : string)
    (options : Options.t) : Frame :=
  {| f_txHash := sha3 (rawTransaction signedTx);
     f_walletAddress := walletAddress;
     f_options := options |}.

(** [sendTransaction] up to its [await]: hash, record, append, persist,
    start the timer and the broadcast. Returns the reference of the new
    record, which identifies the suspended activation. *)
Definition sendTransaction_begin (signedTx : SignedTx) (walletAddress : string)
    (options : Options.t) (now : N) (p : Process) : nat * Process :=
  let p := emit (Sha3 (rawTransaction signedTx)) p in
  let startTime := now in
  let txRecord := pending_record signedTx walletAddress options startTime in
  let ref := fresh (dom (objects p)) in
  let p := set_objects (insert ref txRecord) p in
  let p := set_txHistory (unshift_capped ref) p in
  let p := saveHistory p in
  let timeout := JS.or (Options.timeout options) (JS.Num 120000) in
  let p := emit (SetTimeout timeout) p in
  let p := emit (SendSignedTransaction (rawTransaction signedTx)) p in
  (ref, set_inflight (insert ref (Racing (frame_of signedTx walletAddress options))) p).

(** What the race settles with when [s] is the first promise to settle. *)
Definition settle_result (s : Settlement) : JS.outcome Receipt.t JsError :=
  match s with
  | BroadcastResolved receipt => inl receipt
  | BroadcastRejected e => inr e
  | TimerFired => inr (Error "Transaction timeout")
  end.

(** The [try] branch after the [await]. *)
Definition on_fulfilled (ref : nat) (fr : Frame) (receipt : Receipt.t)
    (p : Process) : Process :=
  let p := set_objects (alter (TxRecord.confirm receipt) ref) p in
  let p := saveHistory p in
  let p := emit (LogAction "transaction_confirmed" (f_txHash fr)
                   (f_walletAddress fr) (Options.to (f_options fr))) p in
  let p := set_inflight (insert ref (Settled (inl receipt))) p in
  emit (Return ref receipt) p.

(** [nonce] desynchronisation test of the [catch] branch. *)
Definition nonce_desync (e : JsError) : bool :=
  JS.includes (message e) "nonce" || JS.includes (message e) "underpriced".

(** The [catch] branch. *)
Definition on_rejected (ref : nat) (fr : Frame) (e : JsError)
    (p : Process) : Process :=
  let p := set_objects (alter (TxRecord.fail e) ref) p in
  let p := saveHistory p in
  let p := emit (LogAction "transaction_failed" (f_txHash fr)
                   (f_walletAddress fr) (JS.Str (message e))) p in
  let p := if nonce_desync e
           then set_pendingNonces (delete (f_walletAddress fr)) p
           else p in
  let p := set_inflight (insert ref (Settled (inr e))) p in
  emit (Throw ref e) p.

(** One of the raced promises settles. [Promise.race] adopts the first
    settlement only: once the activation has resumed, a later settlement
    finds no pending promise and does nothing. *)
Definition settle (ref : nat) (s : Settlement) (p : Process)
    : option (JS.outcome Receipt.t JsError) * Process :=
  match inflight p !! ref with
  | Some (Racing fr) =>
      match settle_result s with
      | inl receipt => (Some (inl receipt), on_fulfilled ref fr receipt p)
      | inr e => (Some (inr e), on_rejected ref fr e p)
      end
  | _ => (None, p)
  end.

(** [getTransactionHistory(address = null, limit = 10)]; [None] stands
    for a null or omitted address. Neither [filter] nor [slice] mutates
    its receiver. *)
Definition getTransactionHistory (address : option string) (limit : Z)
    (p : Process) : list TxRecord.t :=
  match address with
  | Some a =>
      if JS.truthy (JS.Str a)
      then JS.slice0
             (filter (fun tx => JS.toLowerCase (TxRecord.from tx) = JS.toLowerCase a)
                     (history_records p))
             limit
      else JS.slice0 (history_records p) limit
  | None => JS.slice0 (history_records p) limit
  end.

End Manager.

(* ===================================================================== *)
(** ** The event loop seen from the manager                               *)
(* ===================================================================== *)

(** The atomic pieces of manager code that the event loop can run. Any
    list of tasks is a possible interleaving of concurrent activations. *)
Inductive Task :=
| CallSendTransaction (signedTx : SignedTx) (walletAddress : string)
    (options : Options.t) (now : N)
| Deliver (ref : nat) (s : Settlement)
| ResumeGetNonce (address : string) (onChainNonce : nat)
| CallGetTransactionHistory (address : option string) (limit : Z).

Inductive Response :=
| Suspended (ref : nat)
| Completed (ref : nat) (r : JS.outcome Receipt.t JsError)
| Ignored
| Nonce (address : string) (nonce : nat)
| History (records : list TxRecord.t).

Section EventLoop.

Variable sha3 : string -> string.

Definition step (t : Task) (p : Process) : Response * Process :=
  match t with
  | CallSendTransaction signedTx walletAddress options now =>
      let '(ref, p') := sendTransaction_begin sha3 signedTx walletAddress options now p in
      (Suspended ref, p')
  | Deliver ref s =>
      match settle ref s p with
      | (Some r, p') => (Completed ref r, p')
      | (None, p') => (Ignored, p')
      end
  | ResumeGetNonce address onChainNonce =>
      let '(nonce, pn) := getNonce address onChainNonce (pendingNonces p) in
      (Nonce address nonce, set_pendingNonces (fun _ => pn) p)
  | CallGetTransactionHistory address limit =>
      (History (getTransactionHistory address limit p), p)
  end.

Fixpoint run (ts : list Task) (p : Process) : list Response * Process :=
  match ts with
  | [] => ([], p)
  | t :: ts' =>
      let '(r, p') := step t p in
      let '(rs, p'') := run ts' p' in
      (r :: rs, p'')
  end.


(** [await txManager.sendTransaction(...)] as the calling chain sees it
    when [s] is the settlement that decides the race: the synchronous
    prefix and the continuation taken together. What other chains do to
    the shared history between the two is not part of this view; the
    tasks of the event loop above are. *)
Definition sendTransaction_await (signedTx : SignedTx) (walletAddress : string)
    (options : Options.t) (now : N) (s : Settlement) (p : Process)
    : JS.outcome Receipt.t JsError * Process :=
  let '(ref, p') := sendTransaction_begin sha3 signedTx walletAddress options now p in
  let fr := frame_of sha3 signedTx walletAddress options in
  match settle_result s with
  | inl receipt => (inl receipt, on_fulfilled ref fr receipt p')
  | inr e => (inr e, on_rejected ref fr e p')
  end.

End EventLoop.

(** The nonces a list of responses hands out for [address], in order. *)
Definition nonces_for (address : string) (rs : list Response) : list nat :=
  omap (fun r => match r with
                 | Nonce a n => if decide (a = address) then Some n else None
                 | _ => None
                 end) rs.

(** [t] delivers a settlement to the activation [ref]. *)
Definition delivers_to (ref : nat) (t : Task) : bool :=
  match t with
  | Deliver r _ => bool_decide (r = ref)
  | _ => false
  end.

(** Number of [sendTransaction] calls among [ts]. *)
Definition begins (ts : list Task) : nat :=
  length (List.filter (fun t => match t with
                                | CallSendTransaction _ _ _ _ => true
                                | _ => false
                                end) ts).

(** The terminal status a settlement leads to. *)
Definition terminal_status (s : Settlement) : Status :=
  match settle_result s with
  | inl _ => confirmed
  | inr _ => failed
  end.

(** Running [t] in [p] makes a [sendTransaction] of [address] fail with a
    message that triggers [pendingNonces.delete]. *)
Definition invalidates (address : string) (p : Process) (t : Task) : bool :=
  match t with
  | Deliver ref s =>
      match inflight p !! ref, settle_result s with
      | Some (Racing fr), inr e =>
          nonce_desync e && bool_decide (f_walletAddress fr = address)
      | _, _ => false
      end
  | _ => false
  end.

(** The on-chain counts seen by the [getNonce] activations for [address]
    among [ts], in order. *)
Definition counts_for (address : string) (ts : list Task) : list nat :=
  omap (fun t => match t with
                 | ResumeGetNonce a c => if decide (a = address) then Some c else None
                 | _ => None
                 end) ts.

Section Runs.

Variable sha3 : string -> string.

(** No task of the run invalidates the cached nonce of [address]. *)
Fixpoint no_invalidation (address : string) (ts : list Task) (p : Process) : bool :=
  match ts with
  | [] => true
  | t :: ts' =>
      negb (invalidates address p t)
      && no_invalidation address ts' (snd (step sha3 t p))
  end.

(** The claim that a nonce at or below [n] is never handed out again
    for [address], whatever the manager is asked to do. *)
Definition never_reissued (address : string) (n : nat) (ts : list Task)
    (p : Process) : Prop :=
  Forall (fun v => n < v) (nonces_for address (fst (run sha3 ts p))).

End Runs.

(** The status recorded in the object [ref]. *)
Definition status_of (ref : nat) (p : Process) : option Status :=
  TxRecord.status <$> objects p !! ref.


(* ===================================================================== *)
(** ** Concurrent getNonce activations                                    *)
(* ===================================================================== *)

(** An activation of [getNonce] is either waiting for
    [getTransactionCount] or has returned. *)
Inductive NonceCall :=
| Awaiting (address : string)
| Returned (address : string) (nonce : nat).

Definition returned_for (address : string) (c : NonceCall) : option nat :=
  match c with
  | Returned a n => if decide (a = address) then Some n else None
  | Awaiting _ => None
  end.

Definition awaiting_for (address : string) (c : NonceCall) : bool :=
  match c with
  | Awaiting a => bool_decide (a = address)
  | Returned _ _ => false
  end.

Definition is_returned (c : NonceCall) : bool :=
  match c with Returned _ _ => true | Awaiting _ => false end.

(** The nonces a trace of returns gives to [address], in order. *)
Definition trace_for (address : string) (tr : list (string * nat)) : list nat :=
  omap (fun '(a, n) => if decide (a = address) then Some n else None) tr.

(** Number of activations of the pool still waiting for [address]. *)
Definition waiting (address : string) (pool : list NonceCall) : nat :=
  length (List.filter (awaiting_for address) pool).

Section NoncePool.

(** The transaction count the chain reports for each address while the
    activations are in flight. *)
Variable chain : string -> nat.

(** A run of the event loop over a pool of activations: it resumes any
    one waiting activation, whose continuation runs to completion before
    anything else does, and goes on. The label lists the addresses and
    nonces returned, in the order of the returns. *)
Inductive nonce_run : gmap string nat * list NonceCall ->
                      list (string * nat) ->
                      gmap string nat * list NonceCall -> Prop :=
| run_stop (s : gmap string nat * list NonceCall) : nonce_run s [] s
| run_resume (pn : gmap string nat) (pool : list NonceCall) (i : nat)
    (a : string) (tr : list (string * nat))
    (s' : gmap string nat * list NonceCall) :
    pool !! i = Some (Awaiting a) ->
    nonce_run (snd (getNonce a (chain a) pn),
               <[i := Returned a (fst (getNonce a (chain a) pn))]> pool) tr s' ->
    nonce_run (pn, pool) ((a, fst (getNonce a (chain a) pn)) :: tr) s'.

(** The nonce the next [getNonce address] will return. *)
Definition next_nonce (address : string) (pn : gmap string nat) : nat :=
  fst (getNonce address (chain address) pn).

End NoncePool.

(** [max(onChainCount, priorLastIssued + 1)]: the map stores
    [lastIssued + 1], and nothing stored means nothing issued. *)
Definition first_nonce (onChain : nat) (stored : option nat) : nat :=
  match stored with
  | Some v => Nat.max onChain v
  | None => onChain
  end.

(** Two address strings that differ only in the case of their letters. *)
Definition is_upper (c : ascii) : bool :=
  ((65 <=? nat_of_ascii c) && (nat_of_ascii c <=? 90))%nat.

(** [c] and [d] are the same character, or the same letter in the two
    cases (an upper-case letter and the code 32 above it). *)
Definition same_letter (c d : ascii) : bool :=
  Ascii.eqb c d
  || (is_upper c && (nat_of_ascii d =? nat_of_ascii c + 32)%nat)
  || (is_upper d && (nat_of_ascii c =? nat_of_ascii d + 32)%nat).

Fixpoint differ_only_in_case (a b : string) : bool :=
  match a, b with
  | EmptyString, EmptyString => true
  | String c a', String d b' => same_letter c d && differ_only_in_case a' b'
  | _, _ => false
  end.

(* ===================================================================== *)
(** ** The mint chain: sendMonadMintTx                                    *)
(* ===================================================================== *)

(** The repository keeps three revisions of index.js: two in part_000
    (lines 1-376 and 377-1045) and 2ndindex.js. Their [sendMonadMintTx]
    differ in the [try] block and in the [catch] block, and all three are
    embedded. What the collaborators answer (wallet and contract
    managers, RPC node, signer, clock, race of the broadcast) is an input
    of each activation. Sending a chat message, writing a log line and
    saving the wallet file are recorded as events and taken to succeed. *)

(** [CONFIG] of config.js, the fields the chain reads. *)
Record Config := {
  GAS_PRICE : string;
  GAS_LIMIT : Z;
  CHAIN_ID : Z;
  TX_TIMEOUT : Z;
  MAX_RETRY_COUNT : nat;
  ADMIN_ID : Z
}.

(** The values config.js falls back to when the environment sets none. *)
Definition default_config : Config :=
  {| GAS_PRICE := "1000000000"; GAS_LIMIT := 500000; CHAIN_ID := 10143;
     TX_TIMEOUT := 120000; MAX_RETRY_COUNT := 2; ADMIN_ID := 6668515216 |}.

(** What [walletManager.getWallet] returns. *)
Record Wallet := { address : string; active : bool; privateKey : string }.

(** The transaction object handed to [account.signTransaction]. *)
Record Tx := {
  tx_from : string;
  tx_to : JS.value;
  tx_data : string;
  tx_gas : Z;
  tx_gasPrice : string;
  tx_chainId : Z;
  tx_nonce : JS.value;
  tx_value : option string
}.

(** Messages sent to the chat, by kind rather than by text. *)
Inductive BotMessage :=
| Processing (account : string)
| TransactionSuccess (hash account : string)
| Retrying (attempt max : nat) (errorText : string)
| TransactionFailed (errorText walletAddress : string)
| MaximumSupplyReached
| ErrorText (text : string)
| NoActiveWallets
| NoActiveContract
| StartingBatch (wallets : nat) (contract : string)
| BatchComplete (successful total : nat)
| SomeMintsFailed.

(** What a chain does besides calling the manager, in order.
    [Invoked] marks an activation of [sendMonadMintTx]. *)
Inductive ChainEvent :=
| Invoked (walletAddress : string) (retryCount : nat)
| LogMintAttempt (walletAddress : string) (retryCount : nat)
| SignTransaction (tx : Tx)
| BotSend (m : BotMessage)
| Sleep (ms : N)
| UpdateLastUsed (account : string)
| LoggerError (event errorText : string).

(** The answers of the collaborators during one activation: wallet and
    contract managers, the RPC node, the signer, the clock and the race of
    the broadcast against the timer. *)
Record Attempt := {
  wallet : option Wallet;
  activeContract : option (list string);
  activeContractAddress : option string;
  mintMethod : string;
  mintPrice : string;
  currentGasPrice : JS.outcome string JsError;
  accountAddress : string;
  transactionCount : JS.outcome nat JsError;
  signedTransaction : JS.outcome SignedTx JsError;
  clock : N;
  race : Settlement
}.

Record World := { process : Process; journal : list ChainEvent }.

(** State and exceptions of an [async] function body. *)
Module Async.

Definition M (A : Type) : Type := World -> JS.outcome A JsError * World.

Definition ret {A} (a : A) : M A := fun w => (inl a, w).

Definition throw {A} (e : JsError) : M A := fun w => (inr e, w).

Definition bind {A B} (m : M A) (k : A -> M B) : M B :=
  fun w => match m w with
           | (inl a, w') => k a w'
           | (inr e, w') => (inr e, w')
           end.

(** [try { m } catch (error) { h error }]. *)
Definition try_catch {A} (m : M A) (h : JsError -> M A) : M A :=
  fun w => match m w with
           | (inl a, w') => (inl a, w')
           | (inr e, w') => h e w'
           end.

(** [await] of a promise that settles with [r]. *)
Definition await {A} (r : JS.outcome A JsError) : M A :=
  match r with inl a => ret a | inr e => throw e end.

Definition record (e : ChainEvent) : M unit :=
  fun w => (inl tt, {| process := process w; journal := journal w ++ [e] |}).

(** A call into the transaction manager. *)
Definition manager {A} (f : Process -> A * Process) : M A :=
  fun w => let '(a, p) := f (process w) in
           (inl a, {| process := p; journal := journal w |}).

End Async.

#[global] Instance async_ret : MRet Async.M := @Async.ret.
#[global] Instance async_bind : MBind Async.M := fun A B k m => Async.bind m k.

Section Chains.

Variable sha3 : string -> string.
Variable CONFIG : Config.

(** [Math.floor(parseInt(currentGasPrice) * 1.15).toString()], a
    floating-point computation that is left symbolic. *)
Variable raise_gas_price : string -> string.

(** The answers of the collaborators, per wallet address and activation. *)
Variable answers : string -> nat -> Attempt.

Definition getNonceM (address : string) (count : JS.outcome nat JsError)
    : Async.M nat :=
  onChainNonce ← Async.await count;
  Async.manager (fun p =>
    let '(nonce, pn) := getNonce address onChainNonce (pendingNonces p) in
    (nonce, set_pendingNonces (fun _ => pn) p)).

Definition sendTransactionM (signedTx : SignedTx) (walletAddress : string)
    (options : Options.t) (now : N) (s : Settlement) : Async.M Receipt.t :=
  r ← Async.manager (sendTransaction_await sha3 signedTx walletAddress options now s);
  Async.await r.

Definition checkWallet (a : Attempt) (walletAddress : string) : Async.M Wallet :=
  match wallet a with
  | Some w =>
      if active w then Async.ret w
      else Async.throw (Error (String.append "Wallet "
             (String.append walletAddress " not found or inactive")))
  | None =>
      Async.throw (Error (String.append "Wallet "
        (String.append walletAddress " not found or inactive")))
  end.

(** ** part_000, first index.js *)

(** The [try] block, part_000 lines 38-84. *)
Definition attempt_v1 (walletAddress : string) (retryCount : nat)
    : Async.M Receipt.t :=
  let a := answers walletAddress retryCount in
  wallet ← checkWallet a walletAddress;
  methods ← match activeContract a with
             | Some ms => Async.ret ms
             | None => Async.throw (Error "No active contract configured")
             end;
  let activeContractAddress :=
    match activeContractAddress a with Some x => JS.Str x | None => JS.null end in
  Async.record (LogMintAttempt walletAddress retryCount) ;;
  let account := accountAddress a in
  nonce ← getNonceM account (transactionCount a);
  data ← (if existsb (String.eqb "mint") methods
           then Async.ret "mint()"
           else Async.throw (Error "activeContract.methods.mint is not a function"));
  let tx := {| tx_from := account;
               tx_to := activeContractAddress;
               tx_data := data;
               tx_gas := GAS_LIMIT CONFIG;
               tx_gasPrice := GAS_PRICE CONFIG;
               tx_chainId := CHAIN_ID CONFIG;
               tx_nonce := JS.Num (Z.of_nat nonce);
               tx_value := None |} in
  Async.record (SignTransaction tx) ;;
  signedTx ← Async.await (signedTransaction a);
  Async.record (BotSend (Processing (String.substring 0 10 account))) ;;
  receipt ← sendTransactionM signedTx account
               {| Options.to := activeContractAddress;
                  Options.gasPrice := JS.Str (GAS_PRICE CONFIG);
                  Options.gasLimit := JS.Num (GAS_LIMIT CONFIG);
                  Options.timeout := JS.Num (TX_TIMEOUT CONFIG) |}
               (clock a) (race a);
  Async.record (UpdateLastUsed account) ;;
  Async.record (BotSend (TransactionSuccess (Receipt.transactionHash receipt) account)) ;;
  Async.ret receipt.

(** The [catch] block; [again] is the recursive call. *)
Definition catch_v1 (again : Async.M (option Receipt.t)) (walletAddress : string)
    (retryCount : nat) (error : JsError) : Async.M (option Receipt.t) :=
  if (retryCount <? MAX_RETRY_COUNT CONFIG)%nat then
    Async.record (BotSend (Retrying (retryCount + 1) (MAX_RETRY_COUNT CONFIG)
                             (String.substring 0 100 (message error)))) ;;
    Async.record (Sleep 3000) ;;
    again
  else
    Async.record (LoggerError "mint_failed" (message error)) ;;
    Async.record (BotSend (TransactionFailed (message error) walletAddress)) ;;
    Async.throw error.

(** [sendMonadMintTx]; the recursion of the source is on
    [retryCount], bounded by [MAX_RETRY_COUNT], here by [fuel]. *)
Fixpoint sendMonadMintTx_v1_fuel (fuel : nat) (walletAddress : string)
    (retryCount : nat) : Async.M (option Receipt.t) :=
  match fuel with
  | 0 => Async.ret None
  | S fuel' =>
      Async.record (Invoked walletAddress retryCount) ;;
      Async.try_catch
        (receipt ← attempt_v1 walletAddress retryCount; Async.ret (Some receipt))
        (catch_v1 (sendMonadMintTx_v1_fuel fuel' walletAddress (retryCount + 1))
                  walletAddress retryCount)
  end.

(** ** part_000, second index.js *)

(** The [try] block, part_000 lines 451-534. *)
Definition attempt_v2 (walletAddress : string) (retryCount : nat)
    : Async.M Receipt.t :=
  let a := answers walletAddress retryCount in
  wallet ← checkWallet a walletAddress;
  activeContractAddress ←
    match activeContractAddress a with
    | Some x => if JS.truthy (JS.Str x) then Async.ret x
                else Async.throw (Error "No active contract configured")
    | None => Async.throw (Error "No active contract configured")
    end;
  methods ← match activeContract a with
             | Some ms => Async.ret ms
             | None => Async.throw
                         (Error "Cannot read properties of null (reading 'methods')")
             end;
  let mint := mintMethod a in
  (if existsb (String.eqb mint) methods then Async.ret tt
   else Async.throw (Error (String.append "Mint method '"
          (String.append mint "' not found in contract. Verify configuration.")))) ;;
  let mintPrice := mintPrice a in
  let gasPrice := match currentGasPrice a with
                  | inl current => raise_gas_price current
                  | inr _ => GAS_PRICE CONFIG
                  end in
  let gasLimit := 800000%Z in
  Async.record (LogMintAttempt walletAddress retryCount) ;;
  let account := accountAddress a in
  nonce ← getNonceM account (transactionCount a);
  let mintData := String.append mint "()" in
  let tx := {| tx_from := account;
               tx_to := JS.Str activeContractAddress;
               tx_data := mintData;
               tx_gas := gasLimit;
               tx_gasPrice := gasPrice;
               tx_chainId := CHAIN_ID CONFIG;
               tx_nonce := JS.Num (Z.of_nat nonce);
               tx_value := Some mintPrice |} in
  Async.record (SignTransaction tx) ;;
  signedTx ← Async.await (signedTransaction a);
  Async.record (BotSend (Processing (String.substring 0 10 account))) ;;
  receipt ← sendTransactionM signedTx account
               {| Options.to := JS.Str activeContractAddress;
                  Options.gasPrice := JS.Str gasPrice;
                  Options.gasLimit := JS.Num gasLimit;
                  Options.timeout := JS.Num (TX_TIMEOUT CONFIG) |}
               (clock a) (race a);
  Async.record (UpdateLastUsed account) ;;
  Async.record (BotSend (TransactionSuccess (Receipt.transactionHash receipt) account)) ;;
  Async.ret receipt.

(** The two error classes of the second index.js that are never
    retried. *)
Definition fatal (error : JsError) : bool :=
  JS.includes (message error) "Maximum supply"
  || JS.includes (message error) "not found in contract".

(** The [catch] block; [again] is the recursive call. *)
Definition catch_v2 (again : Async.M (option Receipt.t)) (walletAddress : string)
    (retryCount : nat) (error : JsError) : Async.M (option Receipt.t) :=
  if JS.includes (message error) "Maximum supply" then
    Async.record (BotSend MaximumSupplyReached) ;;
    Async.throw error
  else if JS.includes (message error) "not found in contract" then
    Async.record (BotSend (ErrorText (message error))) ;;
    Async.throw error
  else if (retryCount <? MAX_RETRY_COUNT CONFIG)%nat then
    Async.record (BotSend (Retrying (retryCount + 1) (MAX_RETRY_COUNT CONFIG)
                             (String.substring 0 100 (message error)))) ;;
    let waitTime := (3000 * 2 ^ N.of_nat retryCount)%N in
    Async.record (Sleep waitTime) ;;
    again
  else
    Async.record (LoggerError "mint_failed" (message error)) ;;
    Async.record (BotSend (TransactionFailed (message error) walletAddress)) ;;
    Async.throw error.

Fixpoint sendMonadMintTx_v2_fuel (fuel : nat) (walletAddress : string)
    (retryCount : nat) : Async.M (option Receipt.t) :=
  match fuel with
  | 0 => Async.ret None
  | S fuel' =>
      Async.record (Invoked walletAddress retryCount) ;;
      Async.try_catch
        (receipt ← attempt_v2 walletAddress retryCount; Async.ret (Some receipt))
        (catch_v2 (sendMonadMintTx_v2_fuel fuel' walletAddress (retryCount + 1))
                  walletAddress retryCount)
  end.

(** ** 2ndindex.js *)

(** The [try] block, 2ndindex.js lines 75-135. [getNonce] returns a
    number, which is what [nonceData] holds: [nonceData.nonce] and
    [nonceData.release] are property reads on a number. *)
Definition attempt_2nd (walletAddress : string) (retryCount : nat)
    : Async.M Receipt.t :=
  let a := answers walletAddress retryCount in
  wallet ← checkWallet a walletAddress;
  methods ← match activeContract a with
             | Some ms => Async.ret ms
             | None => Async.throw (Error "No active contract configured")
             end;
  let activeContractAddress :=
    match activeContractAddress a with Some x => JS.Str x | None => JS.null end in
  Async.record (LogMintAttempt walletAddress retryCount) ;;
  let account := accountAddress a in
  nonce ← getNonceM account (transactionCount a);
  let nonceData := JS.Num (Z.of_nat nonce) in
  data ← (if existsb (String.eqb "mint") methods
           then Async.ret "mint()"
           else Async.throw (Error "activeContract.methods.mint is not a function"));
  let tx := {| tx_from := account;
               tx_to := activeContractAddress;
               tx_data := data;
               tx_gas := GAS_LIMIT CONFIG;
               tx_gasPrice := GAS_PRICE CONFIG;
               tx_chainId := CHAIN_ID CONFIG;
               tx_nonce := JS.get nonceData "nonce";
               tx_value := None |} in
  Async.record (SignTransaction tx) ;;
  signedTx ← Async.await (signedTransaction a);
  Async.record (BotSend (Processing (String.substring 0 10 account))) ;;
  receipt ← sendTransactionM signedTx account
               {| Options.to := activeContractAddress;
                  Options.gasPrice := JS.Str (GAS_PRICE CONFIG);
                  Options.gasLimit := JS.Num (GAS_LIMIT CONFIG);
                  Options.timeout := JS.Num (TX_TIMEOUT CONFIG) |}
               (clock a) (race a);
  Async.record (UpdateLastUsed account) ;;
  Async.record (BotSend (TransactionSuccess (Receipt.transactionHash receipt) account)) ;;
  (if JS.truthy (JS.get nonceData "release")
   then Async.throw (Error "nonceData.release is not a function")
   else Async.ret tt) ;;
  Async.ret receipt.

(** The [catch] block is that of the first index.js (with the
    messages awaited). *)
Fixpoint sendMonadMintTx_2nd_fuel (fuel : nat) (walletAddress : string)
    (retryCount : nat) : Async.M (option Receipt.t) :=
  match fuel with
  | 0 => Async.ret None
  | S fuel' =>
      Async.record (Invoked walletAddress retryCount) ;;
      Async.try_catch
        (receipt ← attempt_2nd walletAddress retryCount; Async.ret (Some receipt))
        (catch_v1 (sendMonadMintTx_2nd_fuel fuel' walletAddress (retryCount + 1))
                  walletAddress retryCount)
  end.

(** The recursion stops once [retryCount] reaches [MAX_RETRY_COUNT], so
    this much fuel is never used up. *)
Definition enough_fuel (retryCount : nat) : nat :=
  S (MAX_RETRY_COUNT CONFIG - retryCount).

End Chains.

(** The source revisions of [sendMonadMintTx]. *)
Inductive Revision := PartV1 | PartV2 | SecondIndex.

Definition sendMonadMintTx (rev : Revision) (sha3 : string -> string)
    (CONFIG : Config) (raise_gas_price : string -> string)
    (answers : string -> nat -> Attempt)
    (walletAddress : string) (retryCount : nat) : Async.M (option Receipt.t) :=
  match rev with
  | PartV1 =>
      sendMonadMintTx_v1_fuel sha3 CONFIG answers
        (enough_fuel CONFIG retryCount) walletAddress retryCount
  | PartV2 =>
      sendMonadMintTx_v2_fuel sha3 CONFIG raise_gas_price answers
        (enough_fuel CONFIG retryCount) walletAddress retryCount
  | SecondIndex =>
      sendMonadMintTx_2nd_fuel sha3 CONFIG answers
        (enough_fuel CONFIG retryCount) walletAddress retryCount
  end.

(** Journal projections. *)
Definition invocations (j : list ChainEvent) : list nat :=
  omap (fun e => match e with Invoked _ k => Some k | _ => None end) j.

Definition sleeps (j : list ChainEvent) : list N :=
  omap (fun e => match e with Sleep ms => Some ms | _ => None end) j.

(** A piece of journal that holds neither an activation nor a wait. *)
Definition silent (j : list ChainEvent) : Prop :=
  invocations j = [] /\ sleeps j = [].

(** A computation that only adds such pieces. *)
Definition extends_silently {A} (m : Async.M A) : Prop :=
  forall w, exists j, journal (snd (m w)) = (journal w ++ j)%list /\ silent j.

(** The delay of the second index.js after activation [k]:
    [3000 * Math.pow(2, retryCount)]. *)
Definition backoff (k : nat) : N := (3000 * 2 ^ N.of_nat k)%N.

(** The activation gets as far as the broadcast in the second index.js
    of part_000: wallet active, contract address and contract configured
    with the mint method, count fetched, transaction signed. *)
Definition reaches_broadcast (a : Attempt) : bool :=
  match wallet a, activeContractAddress a, activeContract a,
        transactionCount a, signedTransaction a with
  | Some w, Some c, Some ms, inl _, inl _ =>
      active w && JS.truthy (JS.Str c)
      && existsb (String.eqb (mintMethod a)) ms
  | _, _, _, _, _ => false
  end.

(** The same for the first index.js of part_000 and for 2ndindex.js,
    which do not look at the contract address and call [mint]. *)
Definition reaches_broadcast_plain (a : Attempt) : bool :=
  match wallet a, activeContract a, transactionCount a, signedTransaction a with
  | Some w, Some ms, inl _, inl _ =>
      active w && existsb (String.eqb "mint") ms
  | _, _, _, _ => false
  end.


(** The world at the start of the [try] block of an activation. *)
Definition entered (walletAddress : string) (retryCount : nat) (w : World) : World :=
  snd (Async.record (Invoked walletAddress retryCount) w).

(* ===================================================================== *)
(** ** The batch handler: bot.onText(/\/mint/)                            *)
(* ===================================================================== *)

(** [Promise.all] over [n] promises, fed their settlements (index and
    outcome) in the order they happen. *)
Module PromiseAll.

Inductive state (A : Type) :=
| Pending (got : gmap nat A)
| Fulfilled (values : list A)
| Rejected (e : JsError).
Arguments Pending {A} got.
Arguments Fulfilled {A} values.
Arguments Rejected {A} e.

Definition init {A} (n : nat) : state A :=
  if (n =? 0)%nat then Fulfilled [] else Pending ∅.

Definition settle {A} (n : nat) (st : state A) (i : nat)
    (r : JS.outcome A JsError) : state A :=
  match st with
  | Pending got =>
      match r with
      | inr e => Rejected e
      | inl v =>
          let got' := <[i := v]> got in
          if (size got' =? n)%nat
          then Fulfilled (omap (fun k => got' !! k) (seq 0 n))
          else Pending got'
      end
  | _ => st
  end.

Definition run {A} (n : nat) (settlements : list (nat * JS.outcome A JsError))
    : state A :=
  fold_left (fun st s => settle n st (fst s) (snd s)) settlements (init n).

End PromiseAll.

(** The [/mint] handler (part_000 lines 105-129 and 599-622, 2ndindex.js
    lines 195-218; the three agree). [settlements] are the settlements of the
    promises [sendMonadMintTx(wallet.address, msg)], by position in
    [activeWallets], in the order they happen; the handler is shown up to
    the point these settlements let it reach. A receipt is an object and
    so passes [filter(r => r)]. *)
Definition onMint (CONFIG : Config) (fromId : Z) (activeWallets : list Wallet)
    (activeContractAddress : option string)
    (settlements : list (nat * JS.outcome Receipt.t JsError)) : list ChainEvent :=
  if negb (fromId =? ADMIN_ID CONFIG)%Z then []
  else if (length activeWallets =? 0)%nat then [BotSend NoActiveWallets]
  else
    match activeContractAddress with
    | Some c =>
        if JS.truthy (JS.Str c) then
          BotSend (StartingBatch (length activeWallets) (String.substring 0 8 c))
          :: match PromiseAll.run (length activeWallets) settlements with
             | PromiseAll.Fulfilled receipts =>
                 let successful := length (List.filter (fun r : Receipt.t => true) receipts) in
                 [BotSend (BatchComplete successful (length activeWallets))]
             | PromiseAll.Rejected error =>
                 [LoggerError "batch_mint_error" (message error);
                  BotSend SomeMintsFailed]
             | PromiseAll.Pending _ => []
             end
        else [BotSend NoActiveContract]
    | None => [BotSend NoActiveContract]
    end.

(** A settlement that fulfils its promise. *)
Definition fulfilled {A} (s : nat * JS.outcome A JsError) : Prop :=
  match snd s with inl _ => True | inr _ => False end.

(** The settlement of the promise returned by a chain. *)
Definition chain_promise (r : JS.outcome (option Receipt.t) JsError)
    : option (JS.outcome Receipt.t JsError) :=
  match r with
  | inl (Some receipt) => Some (inl receipt)
  | inl None => None
  | inr e => Some (inr e)
  end.

(** What the handler reports about a batch, if it reports counts. *)
Definition reported_counts (j : list ChainEvent) : option (nat * nat) :=
  head (omap (fun e => match e with
                       | BotSend (BatchComplete k n) => Some (k, n)
                       | _ => None
                       end) j).

(* ===================================================================== *)
(** ** Concrete scenarios                                                 *)
(* ===================================================================== *)

(** A stand-in for the hash function, enough to run the model. *)
Definition ex_sha3 (raw : string) : string := String.append "sha3:" raw.

Definition ex_A : string := "0xA1".
Definition ex_B : string := "0xB2".

(** Three nonces (3, 4, 5) handed out for [ex_A] while the chain still
    counts 3 transactions, and one submission of [ex_A] in flight. *)
Definition ex_issued : Process :=
  snd (run ex_sha3
         [ResumeGetNonce ex_A 3; ResumeGetNonce ex_A 3; ResumeGetNonce ex_A 3;
          CallSendTransaction {| rawTransaction := "f86b03" |} ex_A Options.empty 1000]
         new_process).

(** The submission is rejected for its nonce, then [ex_A] asks again. *)
Definition ex_reissue : list Task :=
  [Deliver 0 (BroadcastRejected (Error "nonce too low")); ResumeGetNonce ex_A 3].

(** The same without the rejection: a plain revert, a submission by
    another wallet rejected for its nonce, then [ex_A] asks again. *)
Definition ex_no_reissue : list Task :=
  [CallSendTransaction {| rawTransaction := "f86b07" |} ex_B Options.empty 1001;
   Deliver 0 (BroadcastRejected (Error "execution reverted"));
   Deliver 1 (BroadcastRejected (Error "replacement transaction underpriced"));
   ResumeGetNonce ex_A 3;
   Deliver 0 TimerFired;
   ResumeGetNonce ex_A 9].

Definition ex_contract : string := "0x1aa689f843077dca043df7d0dc0b3f62dbc6180d".

Definition ex_wallet (a : string) : Wallet :=
  {| address := a; active := true; privateKey := "key" |}.

(** An activation that reaches the broadcast, whose race is decided by [s]. *)
Definition ex_attempt (account : string) (s : Settlement) : Attempt :=
  {| wallet := Some (ex_wallet account);
     activeContract := Some ["mint"; "totalSupply"; "MAX_SUPPLY"];
     activeContractAddress := Some ex_contract;
     mintMethod := "mint";
     mintPrice := "0";
     currentGasPrice := inl "1000000000";
     accountAddress := account;
     transactionCount := inl 3;
     signedTransaction := inl {| rawTransaction := "f86b" |};
     clock := 1000;
     race := s |}.

Definition ex_receipt : Receipt.t :=
  {| Receipt.transactionHash := "0xbeef"; Receipt.blockNumber := 77;
     Receipt.gasUsed := 21000 |}.

(** Every activation times out. *)
Definition ex_all_timeout (walletAddress : string) (retryCount : nat) : Attempt :=
  ex_attempt walletAddress TimerFired.

(** Every activation is reverted by the supply cap of the contract. *)
Definition ex_max_supply (walletAddress : string) (retryCount : nat) : Attempt :=
  ex_attempt walletAddress
    (BroadcastRejected (Error "execution reverted: Maximum supply reached")).

(** The contract does not have the configured mint method. *)
Definition ex_no_method (walletAddress : string) (retryCount : nat) : Attempt :=
  {| wallet := Some (ex_wallet walletAddress);
     activeContract := Some ["totalSupply"; "MAX_SUPPLY"];
     activeContractAddress := Some ex_contract;
     mintMethod := "publicMint";
     mintPrice := "0";
     currentGasPrice := inl "1000000000";
     accountAddress := walletAddress;
     transactionCount := inl 3;
     signedTransaction := inl {| rawTransaction := "f86b" |};
     clock := 1000;
     race := TimerFired |}.

(** A batch: the chains of [ex_A] and [ex_B] succeed at once, every
    activation of the third wallet is refused by the node. *)
Definition ex_C : string := "0xC3".

Definition ex_batch (walletAddress : string) (retryCount : nat) : Attempt :=
  if (walletAddress =? ex_C)%string
  then ex_attempt walletAddress (BroadcastRejected (Error "connection refused"))
  else ex_attempt walletAddress (BroadcastResolved ex_receipt).

Definition ex_world : World := {| process := new_process; journal := [] |}.

Definition ex_raise (current : string) : string := current.

Definition ex_chain (rev : Revision) (answers : string -> nat -> Attempt)
    (walletAddress : string) (w : World)
    : JS.outcome (option Receipt.t) JsError * World :=
  sendMonadMintTx rev ex_sha3 default_config ex_raise answers walletAddress 0 w.

(** The settlements the handler receives for the batch: the three chains
    run on the same manager, and settle in the order 0, 1, 2. *)
Definition ex_batch_settlements : list (nat * JS.outcome Receipt.t JsError) :=
  let r0 := ex_chain PartV2 ex_batch ex_A ex_world in
  let r1 := ex_chain PartV2 ex_batch ex_B (snd r0) in
  let r2 := ex_chain PartV2 ex_batch ex_C (snd r1) in
  omap (fun '(i, r) => pair i <$> chain_promise r)
       [(0, fst r0); (1, fst r1); (2, fst r2)].

Definition ex_wallets : list Wallet := [ex_wallet ex_A; ex_wallet ex_B; ex_wallet ex_C].

(** Three activations of [getNonce] in flight, two of them for [ex_A],
    whose last issued nonce is 5 while the chain counts 3. *)
Definition ex_counts (a : string) : nat := if (a =? ex_A)%string then 3 else 0.

Definition ex_pool : list NonceCall := [Awaiting ex_A; Awaiting ex_B; Awaiting ex_A].

Definition ex_reserved : gmap string nat := {[ ex_A := 6 ]}.

(** The event loop resumes the third, the second, then the first. *)
Definition ex_pool_done : list NonceCall :=
  [Returned ex_A 7; Returned ex_B 0; Returned ex_A 6].

Definition ex_reserved_done : gmap string nat :=
  snd (getNonce ex_A 3 (snd (getNonce ex_B 0 (snd (getNonce ex_A 3 ex_reserved))))).

(** A history filled to the cap by a hundred submissions. *)
Definition ex_full : Process :=
  snd (run ex_sha3
         (replicate 100
            (CallSendTransaction {| rawTransaction := "f86b" |} ex_A Options.empty 1000))
         new_process).

(** A submission next to other activity: an allocation, a second
    submission that times out, then the receipt, then the late timer and
    a query. *)
Definition ex_mid : list Task :=
  [ResumeGetNonce ex_A 3;
   CallSendTransaction {| rawTransaction := "f86b07" |} ex_B Options.empty 1001;
   Deliver 1 TimerFired].

Definition ex_post : list Task :=
  [Deliver 0 TimerFired; CallGetTransactionHistory None 10].

(* ===================================================================== *)
(** ** What the history store and the file show of a transaction          *)
(* ===================================================================== *)





(** [sendTransaction] called with [timeout: 0]. *)
Definition ex_zero_timeout : Options.t :=
  {| Options.to := JS.undefined; Options.gasPrice := JS.undefined;
     Options.gasLimit := JS.undefined; Options.timeout := JS.Num 0 |}.

(* ===================================================================== *)
(** ** The constructor of TransactionManager: loadHistory               *)
(* ===================================================================== *)

(** What [loadHistory] finds at [./tx_history.json]: no file, a file
    [JSON.parse] rejects, or the array of records a [saveHistory] wrote. *)
Inductive HistoryFile :=
| NoFile
| Unparsable
| Parsed (records : list TxRecord.t).

(** [new TransactionManager(web3)]: empty [pendingNonces], then
    [loadHistory]. [JSON.parse] allocates one object per record; a missing
    or unparsable file leaves [txHistory] empty (the error is logged).
    Nothing is in flight in a fresh process. *)
Definition construct (f : HistoryFile) : Process :=
  match f with
  | Parsed records =>
      {| pendingNonces := ∅;
         txHistory := seq 0 (length records);
         objects := map_seq 0 records;
         historyFile := Some records;
         inflight := ∅;
         effects := [] |}
  | _ => new_process
  end.

(** The process is stopped and started again on the same disk. *)
Definition restart (p : Process) : Process :=
  construct (match historyFile p with Some records => Parsed records | None => NoFile end).

(** The file holds what [txHistory] holds. *)
Definition in_sync (p : Process) : Prop :=
  historyFile p = Some (history_records p)
  \/ (historyFile p = None /\ history_records p = []).

(** The activation of [ref] is suspended on its race. *)
Definition racing (ref : nat) (p : Process) : bool :=
  match inflight p !! ref with
  | Some (Racing _) => true
  | _ => false
  end.

(** Strictly increasing. *)
Definition increasing (l : list nat) : Prop := StronglySorted lt l.

(** A manager whose history file held 102 records when it started. *)
Definition ex_overlong : Process :=
  construct (Parsed (replicate 102
    (pending_record ex_sha3 {| rawTransaction := "f86b" |} ex_A Options.empty 1000))).

(** A record passes the filter of [getTransactionHistory(address, _)]:
    no address, or the empty one, selects every record. *)
Definition selects (address : option string) (tx : TxRecord.t) : Prop :=
  match address with
  | Some a => a = EmptyString \/ JS.toLowerCase (TxRecord.from tx) = JS.toLowerCase a
  | None => True
  end.

(* ===================================================================== *)
(** ** Observations on the journal of a chain                             *)
(* ===================================================================== *)

(** The wait before the retry that follows activation [k]. *)
Definition retry_delay (rev : Revision) (k : nat) : N :=
  match rev with
  | PartV2 => backoff k
  | _ => 3000%N
  end.

(** The nonces of the transactions handed to the signer, in order. *)
Definition signed_nonces (j : list ChainEvent) : list JS.value :=
  omap (fun e => match e with SignTransaction tx => Some (tx_nonce tx) | _ => None end) j.

(** A computation that only adds events satisfying [P] to the journal. *)
Definition adds_only {A} (P : ChainEvent -> Prop) (m : Async.M A) : Prop :=
  forall w, exists j, journal (snd (m w)) = (journal w ++ j)%list /\ Forall P j.

(** The [nonce] field of the transaction that an activation of [rev]
    hands to the signer when [getNonce] reserved [n]: 2ndindex.js reads
    [nonceData.nonce] off the number. *)
Definition signer_nonce (rev : Revision) (n : nat) : JS.value :=
  match rev with
  | SecondIndex => JS.undefined
  | _ => JS.Num (Z.of_nat n)
  end.

(** What the signer of [rev] is given, event by event. *)
Definition signer_sees (rev : Revision) (e : ChainEvent) : Prop :=
  match e with
  | SignTransaction tx => exists n, tx_nonce tx = signer_nonce rev n
  | _ => True
  end.

(** The activation gets as far as the broadcast, by revision. *)
Definition reaches (rev : Revision) (a : Attempt) : bool :=
  match rev with
  | PartV2 => reaches_broadcast a
  | _ => reaches_broadcast_plain a
  end.




(** The first activation times out, the second gets its receipt. *)
Definition ex_second_try (walletAddress : string) (retryCount : nat) : Attempt :=
  ex_attempt walletAddress
    (if (retryCount =? 0)%nat then TimerFired else BroadcastResolved ex_receipt).

(** The [try] block and the [catch] block of each revision. *)
Definition attempt_of (rev : Revision) (sha3 : string -> string) (CONFIG : Config)
    (raise_gas_price : string -> string) (answers : string -> nat -> Attempt)
    : string -> nat -> Async.M Receipt.t :=
  match rev with
  | PartV1 => attempt_v1 sha3 CONFIG answers
  | PartV2 => attempt_v2 sha3 CONFIG raise_gas_price answers
  | SecondIndex => attempt_2nd sha3 CONFIG answers
  end.

Definition catch_of (rev : Revision) (CONFIG : Config)
    : Async.M (option Receipt.t) -> string -> nat -> JsError ->
      Async.M (option Receipt.t) :=
  match rev with
  | PartV2 => catch_v2 CONFIG
  | _ => catch_v1 CONFIG
  end.

(** The [catch] block of [rev] goes for another activation after the
    error [e] of activation [k]. *)
Definition retried (rev : Revision) (CONFIG : Config) (e : JsError) (k : nat) : bool :=
  match rev with
  | PartV2 => negb (fatal e) && (k <? MAX_RETRY_COUNT CONFIG)%nat
  | _ => (k <? MAX_RETRY_COUNT CONFIG)%nat
  end.

(** A manager that already holds the reservation 5 for [ex_A]. *)
Definition ex_reserved_world : World :=
  {| process := set_pendingNonces (fun _ => {[ ex_A := 5 ]}) new_process;
     journal := [] |}.

(* ===================================================================== *)
(** ** Well-formed settlements of a batch                                 *)
(* ===================================================================== *)

(** Every settlement belongs to one of the [n] promises handed to
    [Promise.all]. *)
Definition settles_within {A} (n : nat) (ss : list (nat * JS.outcome A JsError)) : Prop :=
  Forall (fun s => fst s < n) ss.

(** What [Promise.all] over [n] promises keeps true of its state: values
    are stored under positions below [n], and a result has [n] values. *)
Definition all_consistent {A} (n : nat) (st : PromiseAll.state A) : Prop :=
  match st with
  | PromiseAll.Pending got => forall k, is_Some (got !! k) -> k < n
  | PromiseAll.Fulfilled values => length values = n
  | PromiseAll.Rejected _ => True
  end.

(* ===================================================================== *)
(** ** contracts.js: ContractManager                                      *)
(* ===================================================================== *)

From Stdlib Require Import DecimalString.

(** [a.toLowerCase() === b.toLowerCase()]. *)
Definition same_address (a b : string) : bool :=
  (JS.toLowerCase a =? JS.toLowerCase b)%string.

(** The elements of an array are objects reached by reference: a write
    through the result of [find], or through [arr[findIndex(..)]], updates
    the first element that matches and no other. *)
Fixpoint update_first {A} (p : A -> bool) (f : A -> A) (l : list A) : list A :=
  match l with
  | [] => []
  | x :: l' => if p x then f x :: l' else x :: update_first p f l'
  end.

(** [`${n}`] for a number that is a natural. *)
Definition decimal (n : nat) : string := NilZero.string_of_uint (Nat.to_uint n).

Module ContractManager.

Record Methods := { mint : string; totalSupply : string; maxSupply : string }.

Definition default_methods : Methods :=
  {| mint := "mint"; totalSupply := "totalSupply"; maxSupply := "MAX_SUPPLY" |}.

(** An entry of [saved_contracts.json]; [methods] is absent from the
    entries written by the older contracts.js. *)
Record Contract := {
  address : string;
  label : string;
  active : bool;
  addedAt : N;
  methods : option Methods
}.

Definition set_active (b : bool) (c : Contract) : Contract :=
  {| address := address c; label := label c; active := b; addedAt := addedAt c;
     methods := methods c |}.

Definition set_methods (ms : option Methods) (c : Contract) : Contract :=
  {| address := address c; label := label c; active := active c;
     addedAt := addedAt c; methods := ms |}.

Inductive ContractFile := NoFile | Unparsable | Parsed (cs : list Contract).

Inductive Action :=
| contract_added (address label : string) (forced : bool) (methods : Methods)
| contract_activated (address : string)
| contract_removed (address : string)
| contract_methods_updated (address : string) (methods : option Methods).

(** [activeContract] is the web3 contract instance, which is known by
    the address it was built for. *)
Record t := {
  contracts : list Contract;
  activeContract : option string;
  contractFile : ContractFile;
  actions : list Action
}.

Definition set_contracts (f : list Contract -> list Contract) (m : t) : t :=
  {| contracts := f (contracts m); activeContract := activeContract m;
     contractFile := contractFile m; actions := actions m |}.

Definition set_activeContract (a : option string) (m : t) : t :=
  {| contracts := contracts m; activeContract := a;
     contractFile := contractFile m; actions := actions m |}.

Definition logAction (a : Action) (m : t) : t :=
  {| contracts := contracts m; activeContract := activeContract m;
     contractFile := contractFile m; actions := (actions m ++ [a])%list |}.

Definition loadContracts (f : ContractFile) : list Contract :=
  match f with
  | Parsed cs => cs
  | NoFile | Unparsable => []
  end.

Definition saveContracts (m : t) : t :=
  {| contracts := contracts m; activeContract := activeContract m;
     contractFile := Parsed (contracts m); actions := actions m |}.

Definition initializeActiveContract (m : t) : option string * t :=
  match find active (contracts m) with
  | Some activeContract =>
      (Some (address activeContract),
       set_activeContract (Some (address activeContract)) m)
  | None =>
      match contracts m with
      | first :: rest =>
          let m := set_contracts (fun _ => set_active true first :: rest) m in
          let m := saveContracts m in
          (Some (address first), set_activeContract (Some (address first)) m)
      | [] => (None, m)
      end
  end.

Definition construct (f : ContractFile) : t :=
  snd (initializeActiveContract
         {| contracts := loadContracts f; activeContract := None;
            contractFile := f; actions := [] |}).

Definition getActiveContract (m : t) : option string := activeContract m.

Definition getActiveContractAddress (m : t) : option string :=
  match find active (contracts m) with
  | Some activeContract => Some (address activeContract)
  | None => None
  end.

Definition getAllContracts (m : t) : list Contract := contracts m.

Definition getActiveContractMethods (m : t) : option Methods :=
  match find active (contracts m) with
  | None => None
  | Some activeContract =>
      Some (match methods activeContract with
            | Some ms => ms
            | None => default_methods
            end)
  end.

Section Validated.

(** [Validator.isValidContractAddress], that is [web3.utils.isAddress]. *)
Variable isValidContractAddress : string -> bool.

Definition addContract (address_ : string) (label_ : string)
    (methods_ : option Methods) (force : bool) (now : N) (m : t)
    : JS.outcome Contract JsError * t :=
  if negb (isValidContractAddress address_) then
    (inr (Error "Invalid contract address format"), m)
  else
    match find (fun c => same_address (address c) address_) (contracts m) with
    | Some existingContract => (inr (Error "Contract already exists"), m)
    | None =>
        let newContract :=
          {| address := address_;
             label := if JS.truthy (JS.Str label_) then label_
                      else String.append "Contract "
                             (decimal (length (contracts m) + 1));
             active := false;
             addedAt := now;
             methods := Some (match methods_ with
                              | Some ms => ms
                              | None => default_methods
                              end) |} in
        let m := set_contracts (fun cs => (cs ++ [newContract])%list) m in
        let m := saveContracts m in
        let m := logAction (contract_added address_ label_ force
                              (match methods_ with
                               | Some ms => ms
                               | None => default_methods
                               end)) m in
        (inl newContract, m)
    end.

Definition activateContract (address_ : string) (m : t)
    : JS.outcome Contract JsError * t :=
  if negb (isValidContractAddress address_) then
    (inr (Error "Invalid contract address format"), m)
  else
    match find (fun c => same_address (address c) address_) (contracts m) with
    | None => (inr (Error "Contract not found"), m)
    | Some contractToActivate =>
        let m := set_contracts (map (set_active false)) m in
        let m := set_contracts
                   (update_first (fun c => same_address (address c) address_)
                      (set_active true)) m in
        let m := saveContracts m in
        let m := set_activeContract (Some (address contractToActivate)) m in
        let m := logAction (contract_activated address_) m in
        (inl (set_active true contractToActivate), m)
    end.

Definition removeContract (address_ : string) (m : t)
    : JS.outcome bool JsError * t :=
  if negb (isValidContractAddress address_) then
    (inr (Error "Invalid contract address format"), m)
  else
    let initialLength := length (contracts m) in
    let wasActive :=
      find (fun c => same_address (address c) address_ && active c) (contracts m) in
    let m := set_contracts
               (List.filter (fun c => negb (same_address (address c) address_))) m in
    if (length (contracts m) <? initialLength)%nat then
      let m :=
        match wasActive, contracts m with
        | Some _, first :: rest =>
            let m := set_contracts (fun _ => set_active true first :: rest) m in
            set_activeContract (Some (address first)) m
        | _, [] => set_activeContract None m
        | _, _ => m
        end in
      let m := saveContracts m in
      let m := logAction (contract_removed address_) m in
      (inl true, m)
    else (inl false, m).

End Validated.

Definition updateContractMethods (address_ : string) (methods_ : option Methods)
    (m : t) : JS.outcome Contract JsError * t :=
  match find (fun c => same_address (address c) address_) (contracts m) with
  | None => (inr (Error "Contract not found"), m)
  | Some found =>
      let m := set_contracts
                 (update_first (fun c => same_address (address c) address_)
                    (set_methods methods_)) m in
      let m := saveContracts m in
      let m := if active found
               then set_activeContract (Some (address found)) m
               else m in
      let m := logAction (contract_methods_updated address_ methods_) m in
      (inl (set_methods methods_ found), m)
  end.

(** The calls that change the manager. *)
Inductive Call :=
| AddContract (address label : string) (methods : option Methods) (force : bool)
    (now : N)
| ActivateContract (address : string)
| RemoveContract (address : string)
| UpdateContractMethods (address : string) (methods : option Methods).

(** The manager after a call, whether the call returned or threw. *)
Definition after (isValidContractAddress : string -> bool) (c : Call) (m : t) : t :=
  match c with
  | AddContract a l ms force now => snd (addContract isValidContractAddress a l ms force now m)
  | ActivateContract a => snd (activateContract isValidContractAddress a m)
  | RemoveContract a => snd (removeContract isValidContractAddress a m)
  | UpdateContractMethods a ms => snd (updateContractMethods a ms m)
  end.

Definition after_all (isValidContractAddress : string -> bool) (cs : list Call)
    (m : t) : t :=
  fold_left (fun m c => after isValidContractAddress c m) cs m.

(** At most one entry is flagged active. *)
Definition single_active (cs : list Contract) : Prop :=
  length (List.filter active cs) <= 1.

(** No two entries have the same address up to letter case. *)
Definition distinct (cs : list Contract) : Prop :=
  NoDup (map (fun c => JS.toLowerCase (address c)) cs).

(** The instance is the one of the entry flagged active. *)
Definition instance_agrees (m : t) : Prop :=
  getActiveContract m = getActiveContractAddress m.

(** Address and flag of an entry: all that the active contract depends
    on. *)
Definition view (c : Contract) : string * bool := (address c, active c).

(** One active entry at most, and the instance is built for it. *)
Definition coherent (m : t) : Prop :=
  single_active (contracts m) /\ instance_agrees m.

(** What a new process would load is what this one holds. *)
Definition persisted (m : t) : Prop :=
  loadContracts (contractFile m) = contracts m.

End ContractManager.

(** Two contracts, both flagged active, as a hand-edited file can hold. *)
Definition ex_contract_2 : string := "0x2bb689f843077dca043df7d0dc0b3f62dbc6180e".

Definition ex_entry (a : string) (act : bool) : ContractManager.Contract :=
  {| ContractManager.address := a; ContractManager.label := "Contract";
     ContractManager.active := act; ContractManager.addedAt := 1000;
     ContractManager.methods := None |}.

Definition ex_is_address (a : string) : bool := (String.length a =? 42)%nat.

Definition ex_calls : list ContractManager.Call :=
  [ContractManager.AddContract ex_contract EmptyString None false 1000;
   ContractManager.AddContract ex_contract_2 "second" None false 1001;
   ContractManager.ActivateContract ex_contract_2;
   ContractManager.UpdateContractMethods ex_contract_2 None;
   ContractManager.RemoveContract ex_contract_2].

Definition ex_file_one_active : ContractManager.ContractFile :=
  ContractManager.Parsed [ex_entry ex_contract true; ex_entry ex_contract_2 false].

Definition ex_file_two_active : ContractManager.ContractFile :=
  ContractManager.Parsed [ex_entry ex_contract true; ex_entry ex_contract_2 true].

Definition ex_added : ContractManager.Contract :=
  {| ContractManager.address := ex_contract; ContractManager.label := "Contract 1";
     ContractManager.active := false; ContractManager.addedAt := 1000;
     ContractManager.methods := Some ContractManager.default_methods |}.

(* ===================================================================== *)
(** ** validation.js: Validator                                           *)
(* ===================================================================== *)

Module Validator.

(** [[0-9a-fA-F]]. *)
Definition is_hex (c : ascii) : bool :=
  let n := nat_of_ascii c in
  ((48 <=? n) && (n <=? 57) || (65 <=? n) && (n <=? 70)
   || (97 <=? n) && (n <=? 102))%nat.

(** [/^0x[0-9a-fA-F]{64}$/.test(key)]. *)
Definition key_format (key : string) : bool :=
  match key with
  | String "0" (String "x" digits) =>
      (String.length digits =? 64)%nat && forallb is_hex (list_ascii_of_string digits)
  | _ => false
  end.

(** [key.startsWith('0x') ? key : '0x' + key]. *)
Definition with_prefix (key : string) : string :=
  if String.prefix "0x" key then key else String.append "0x" key.

Section Web3.

(** [web3.eth.accounts.privateKeyToAccount(key).address], which
    throws for a key that is no scalar of the curve. *)
Variable privateKeyToAccount : string -> JS.outcome string JsError.

Definition isValidPrivateKey (key : string) : bool :=
  let key := with_prefix key in
  if negb (key_format key) then false
  else
    match privateKeyToAccount key with
    | inl address => JS.truthy (JS.Str address)
    | inr _ => false
    end.

End Web3.

End Validator.

(* ===================================================================== *)
(** ** wallet.js: WalletManager                                           *)
(* ===================================================================== *)

Module WalletManager.

(** What [WalletEncryption.encrypt] returns. *)
Record EncryptedWallet := { iv : string; encryptedData : string; authTag : string }.

(** An entry of [secure_wallets.json]. *)
Record Stored := {
  address : string;
  encryptedKey : EncryptedWallet;
  label : string;
  active : bool;
  lastUsed : option N;
  addedAt : N
}.

Definition set_active (b : bool) (w : Stored) : Stored :=
  {| address := address w; encryptedKey := encryptedKey w; label := label w;
     active := b; lastUsed := lastUsed w; addedAt := addedAt w |}.

Definition set_lastUsed (ts : N) (w : Stored) : Stored :=
  {| address := address w; encryptedKey := encryptedKey w; label := label w;
     active := active w; lastUsed := Some ts; addedAt := addedAt w |}.

Inductive WalletFile := NoFile | Unparsable | Parsed (ws : list Stored).

Inductive Action :=
| wallet_added (address : string)
| wallet_toggled (address : string) (active : bool)
| wallet_removed (address : string).

Record t := {
  wallets : list Stored;
  walletFile : WalletFile;
  actions : list Action
}.

Definition set_wallets (f : list Stored -> list Stored) (m : t) : t :=
  {| wallets := f (wallets m); walletFile := walletFile m; actions := actions m |}.

Definition logAction (a : Action) (m : t) : t :=
  {| wallets := wallets m; walletFile := walletFile m;
     actions := (actions m ++ [a])%list |}.

Definition loadWallets (f : WalletFile) : list Stored :=
  match f with
  | Parsed ws => ws
  | NoFile | Unparsable => []
  end.

Definition saveWallets (m : t) : t :=
  {| wallets := wallets m; walletFile := Parsed (wallets m); actions := actions m |}.

Definition construct (f : WalletFile) : t :=
  {| wallets := loadWallets f; walletFile := f; actions := [] |}.

Definition getActiveWallets (m : t) : list Stored := List.filter active (wallets m).

Definition toggleWallet (address_ : string) (m : t) : option bool * t :=
  match find (fun w => same_address (address w) address_) (wallets m) with
  | Some found =>
      let m := set_wallets
                 (update_first (fun w => same_address (address w) address_)
                    (fun w => set_active (negb (active w)) w)) m in
      let m := saveWallets m in
      let m := logAction (wallet_toggled address_ (negb (active found))) m in
      (Some (negb (active found)), m)
  | None => (None, m)
  end.

Definition removeWallet (address_ : string) (m : t) : bool * t :=
  let initialLength := length (wallets m) in
  let m := set_wallets
             (List.filter (fun w => negb (same_address (address w) address_))) m in
  if (length (wallets m) <? initialLength)%nat then
    let m := saveWallets m in
    let m := logAction (wallet_removed address_) m in
    (true, m)
  else (false, m).

Definition updateLastUsed (address_ : string) (timestamp : N) (m : t) : t :=
  match find (fun w => same_address (address w) address_) (wallets m) with
  | Some _ =>
      let m := set_wallets
                 (update_first (fun w => same_address (address w) address_)
                    (set_lastUsed timestamp)) m in
      saveWallets m
  | None => m
  end.

Section Collaborators.

(** [Validator.isValidPrivateKey]. *)
Variable isValidPrivateKey : string -> bool.

(** [this.web3.eth.accounts.privateKeyToAccount(key).address]. *)
Variable privateKeyToAccount : string -> JS.outcome string JsError.

(** [WalletEncryption.encrypt], given the bytes that
    [crypto.randomBytes(16)] returns, and [WalletEncryption.decrypt],
    which throws when the authentication tag does not fit. *)
Variable encrypt : string -> string -> EncryptedWallet.
Variable decrypt : EncryptedWallet -> JS.outcome string JsError.

Definition addWallet (privateKey_ : string) (label_ : string)
    (randomBytes : string) (now : N) (m : t) : JS.outcome string JsError * t :=
  let cleanKey := Validator.with_prefix privateKey_ in
  if negb (isValidPrivateKey cleanKey) then
    (inr (Error "Invalid private key format"), m)
  else
    match privateKeyToAccount cleanKey with
    | inr e => (inr e, m)
    | inl account =>
        match find (fun w => same_address (address w) account) (wallets m) with
        | Some existingWallet => (inr (Error "Wallet already exists"), m)
        | None =>
            let encryptedWallet := encrypt randomBytes cleanKey in
            let m := set_wallets (fun ws =>
              (ws ++ [{| address := account;
                         encryptedKey := encryptedWallet;
                         label := if JS.truthy (JS.Str label_) then label_
                                  else String.append "Wallet "
                                         (decimal (length ws + 1));
                         active := true;
                         lastUsed := None;
                         addedAt := now |}])%list) m in
            let m := saveWallets m in
            let m := logAction (wallet_added account) m in
            (inl account, m)
        end
    end.

(** [getWallet]: the stored entry with the key in clear; of the
    entry, the chains read [address] and [active]. *)
Definition getWallet (address_ : string) (m : t)
    : JS.outcome (option Wallet) JsError :=
  match find (fun w => same_address (address w) address_) (wallets m) with
  | None => inl None
  | Some wallet =>
      match decrypt (encryptedKey wallet) with
      | inl privateKey => inl (Some (Build_Wallet (address wallet) (active wallet)
                                       privateKey))
      | inr e => inr e
      end
  end.

(** The calls that change the manager. *)
Inductive Call :=
| AddWallet (privateKey label randomBytes : string) (now : N)
| ToggleWallet (address : string)
| RemoveWallet (address : string)
| UpdateLastUsed (address : string) (timestamp : N).

Definition after (c : Call) (m : t) : t :=
  match c with
  | AddWallet k l r now => snd (addWallet k l r now m)
  | ToggleWallet a => snd (toggleWallet a m)
  | RemoveWallet a => snd (removeWallet a m)
  | UpdateLastUsed a ts => updateLastUsed a ts m
  end.

Definition after_all (cs : list Call) (m : t) : t :=
  fold_left (fun m c => after c m) cs m.

End Collaborators.

(** No two entries have the same address up to letter case. *)
Definition distinct (ws : list Stored) : Prop :=
  NoDup (map (fun w => JS.toLowerCase (address w)) ws).

End WalletManager.

(** Stand-ins for the key derivation and the cipher, enough to run the
    model. *)
Definition ex_key : string :=
  "4c0883a69102937d6231471b5dbb6204fe5129617082792ae468d01a3f362318".

Definition ex_account (key : string) : JS.outcome string JsError :=
  inl (String.append "0xAcc0" (String.substring 2 36 key)).

Definition ex_encrypt (randomBytes key : string) : WalletManager.EncryptedWallet :=
  {| WalletManager.iv := randomBytes; WalletManager.encryptedData := key;
     WalletManager.authTag := "tag" |}.

Definition ex_decrypt (e : WalletManager.EncryptedWallet) : JS.outcome string JsError :=
  inl (WalletManager.encryptedData e).

Definition ex_stored (a : string) (act : bool) : WalletManager.Stored :=
  {| WalletManager.address := a;
     WalletManager.encryptedKey := ex_encrypt "00" "0xkey";
     WalletManager.label := "Wallet"; WalletManager.active := act;
     WalletManager.lastUsed := None; WalletManager.addedAt := 1000 |}.

Definition ex_wallet_file : WalletManager.WalletFile :=
  WalletManager.Parsed [ex_stored ex_A true; ex_stored ex_B true].

Definition ex_wallet_calls : list WalletManager.Call :=
  [WalletManager.AddWallet ex_key EmptyString "01" 1001;
   WalletManager.ToggleWallet ex_B;
   WalletManager.UpdateLastUsed "0xa1" 1002;
   WalletManager.RemoveWallet ex_A].

Definition ex_new_account : string := "0xAcc04c0883a69102937d6231471b5dbb6204fe51".

(* ===================================================================== *)
(** * Properties                                                          *)
(* ===================================================================== *)

(** ** Strings *)

Lemma append_nil (s : string) : String.append EmptyString s = s.
Proof. reflexivity. Qed.

Lemma append_cons (c : ascii) (a b : string) :
  String.append (String c a) b = String c (String.append a b).
Proof. reflexivity. Qed.

Lemma prefix_nil (s : string) : String.prefix EmptyString s = true.
Proof. destruct s; reflexivity. Qed.

Lemma prefix_app (sub s : string) :
  String.prefix sub s = true <-> exists post, s = String.append sub post.
Proof.
  revert s. induction sub as [|c sub IH]; intros s.
  - rewrite prefix_nil. split; [intros _; exists s; reflexivity | reflexivity].
  - destruct s as [|d s]; simpl.
    + split; [discriminate | intros [post H]; rewrite append_cons in H; discriminate].
    + destruct (ascii_dec c d) as [->|Hne].
      * rewrite IH. split; intros [post H]; exists post;
          rewrite append_cons in *; congruence.
      * split; [discriminate | intros [post H]; rewrite append_cons in H; congruence].
Qed.

Lemma includes_nil (sub : string) :
  JS.includes EmptyString sub = String.prefix sub EmptyString || false.
Proof. reflexivity. Qed.

Lemma includes_cons (c : ascii) (s sub : string) :
  JS.includes (String c s) sub = String.prefix sub (String c s) || JS.includes s sub.
Proof. reflexivity. Qed.

(** [includes] is the substring test. *)
Lemma includes_spec (s sub : string) :
  JS.includes s sub = true <->
  exists pre post, s = String.append pre (String.append sub post).
Proof.
  induction s as [|c s IH].
  - rewrite includes_nil, orb_false_r, prefix_app. split.
    + intros [post H]. exists EmptyString, post. exact H.
    + intros [pre [post H]]. destruct pre.
      * rewrite append_nil in H. eauto.
      * rewrite append_cons in H. discriminate.
  - rewrite includes_cons, orb_true_iff, prefix_app, IH. split.
    + intros [[post H] | [pre [post H]]].
      * exists EmptyString, post. exact H.
      * exists (String c pre), post. rewrite append_cons. congruence.
    + intros [pre [post H]]. destruct pre as [|d pre].
      * left. rewrite append_nil in H. eauto.
      * right. rewrite append_cons in H. exists pre, post. congruence.
Qed.

Lemma lower_upper (u l : ascii) :
  is_upper u = true -> nat_of_ascii l = nat_of_ascii u + 32 ->
  JS.lower u = JS.lower l.
Proof.
  intros Hu Hl. unfold JS.lower, is_upper in *.
  rewrite Hu. rewrite Hl.
  apply andb_true_iff in Hu as [H1 H2].
  apply Nat.leb_le in H1, H2.
  replace ((65 <=? nat_of_ascii u + 32)%nat && (nat_of_ascii u + 32 <=? 90)%nat) with false.
  - rewrite <- Hl. apply ascii_nat_embedding.
  - symmetry. apply andb_false_iff. right. apply Nat.leb_gt. lia.
Qed.

Lemma lower_same_letter (c d : ascii) :
  same_letter c d = true -> JS.lower c = JS.lower d.
Proof.
  unfold same_letter. rewrite !orb_true_iff, !andb_true_iff.
  intros [[H | [Hu H]] | [Hu H]].
  - apply Ascii.eqb_eq in H. now subst.
  - apply Nat.eqb_eq in H. now apply lower_upper.
  - apply Nat.eqb_eq in H. symmetry. now apply lower_upper.
Qed.

Lemma toLowerCase_case (a b : string) :
  differ_only_in_case a b = true -> JS.toLowerCase a = JS.toLowerCase b.
Proof.
  revert b. induction a as [|c a IH]; intros [|d b]; simpl; try discriminate.
  - reflexivity.
  - rewrite andb_true_iff. intros [Hc Hab].
    now rewrite (lower_same_letter c d Hc), (IH b Hab).
Qed.

Lemma differ_only_in_case_empty (a b : string) :
  differ_only_in_case a b = true -> (a = EmptyString <-> b = EmptyString).
Proof. destruct a, b; simpl; split; congruence. Qed.

(** ** History queries *)

Lemma slice0_nonneg {A} (l : list A) (n : Z) :
  (0 <= n)%Z -> JS.slice0 l n = take (Z.to_nat n) l.
Proof.
  intros H. unfold JS.slice0.
  destruct (Z.ltb_spec n 0); [lia | reflexivity].
Qed.

Lemma slice0_sublist {A} (l : list A) (n : Z) : JS.slice0 l n `sublist_of` l.
Proof. unfold JS.slice0. destruct (n <? 0)%Z; apply sublist_take. Qed.

(** C10. Two addresses that differ only in letter case select the same
    records. [getTransactionHistory] answers both with the same sequence.
    For a limit [n >= 0] that sequence is the first [n] of the records
    whose [from], lower-cased, is the lower-cased address, in either
    spelling and in the order of the store: every record returned matches
    up to case, and every record of the store that matches up to case is
    returned unless the limit has cut the answer (in particular, with a
    limit of at least 1 the answer is empty only if no record matches).
    The query leaves the process state (history store, heap and file) as
    it was. *)
Theorem getTransactionHistory_case_insensitive
    (sha3 : string -> string) (p : Process) (n : Z) (a b : string) :
  differ_only_in_case a b = true ->
  getTransactionHistory (Some a) n p = getTransactionHistory (Some b) n p /\
  (a <> EmptyString -> forall tx, tx ∈ getTransactionHistory (Some a) n p ->
     JS.toLowerCase (TxRecord.from tx) = JS.toLowerCase a) /\
  getTransactionHistory (Some a) n p `sublist_of` history_records p /\
  (a <> EmptyString -> (0 <= n)%Z ->
   getTransactionHistory (Some a) n p
   = take (Z.to_nat n)
       (filter (fun tx => JS.toLowerCase (TxRecord.from tx) = JS.toLowerCase b)
               (history_records p)) /\
   (forall tx, tx ∈ history_records p ->
      JS.toLowerCase (TxRecord.from tx) = JS.toLowerCase b ->
      length (getTransactionHistory (Some a) n p) < Z.to_nat n ->
      tx ∈ getTransactionHistory (Some a) n p) /\
   (forall tx, tx ∈ history_records p ->
      JS.toLowerCase (TxRecord.from tx) = JS.toLowerCase b ->
      (1 <= n)%Z -> getTransactionHistory (Some a) n p <> [])) /\
  snd (step sha3 (CallGetTransactionHistory (Some a) n) p) = p.
Proof.
  intros Hab. pose proof (toLowerCase_case a b Hab) as Hl.
  pose proof (differ_only_in_case_empty a b Hab) as He.
  assert (Hsub : forall (l : list TxRecord.t) e x, x ∈ JS.slice0 l e -> x ∈ l).
  { intros l e x. unfold JS.slice0. destruct (e <? 0)%Z; apply subseteq_take. }
  split; [|split; [|split; [|split]]].
  - unfold getTransactionHistory. simpl.
    destruct a as [|ca a], b as [|cb b]; simpl; try reflexivity.
    + destruct He as [He _]. specialize (He eq_refl). discriminate.
    + destruct He as [_ He]. specialize (He eq_refl). discriminate.
    + simpl in Hl. rewrite Hl. reflexivity.
  - intros Hne tx Hin. unfold getTransactionHistory in Hin.
    destruct a as [|ca a]; [congruence|]. simpl JS.truthy in Hin. cbv iota in Hin.
    apply Hsub in Hin. apply list_elem_of_filter in Hin as [Hin _]. exact Hin.
  - unfold getTransactionHistory. destruct (JS.truthy (JS.Str a)).
    + etransitivity; [apply slice0_sublist | apply sublist_filter].
    + apply slice0_sublist.
  - intros Hne Hn.
    assert (Heq : getTransactionHistory (Some a) n p
                  = take (Z.to_nat n)
                      (filter (fun tx => JS.toLowerCase (TxRecord.from tx)
                                         = JS.toLowerCase b) (history_records p))).
    { unfold getTransactionHistory. destruct a as [|ca a]; [congruence|].
      simpl JS.truthy. cbv iota. rewrite slice0_nonneg by exact Hn.
      now rewrite Hl. }
    split; [exact Heq|]. rewrite Heq. split.
    + intros tx Hin Hm Hlen. rewrite length_take in Hlen.
      rewrite take_ge by lia. apply list_elem_of_filter. split; assumption.
    + intros tx Hin Hm Hn1 Hnil.
      assert (Hf : tx ∈ filter (fun tx => JS.toLowerCase (TxRecord.from tx)
                                          = JS.toLowerCase b) (history_records p))
        by (apply list_elem_of_filter; split; assumption).
      destruct (filter _ (history_records p)) as [|y l]; [inversion Hf|].
      destruct (Z.to_nat n) as [|k] eqn:E; [lia | discriminate Hnil].
  - reflexivity.
Qed.

(** ** The bounded history *)

Lemma removelast_cons {A} (x : A) (h : list A) :
  h <> [] -> removelast (x :: h) = x :: removelast h.
Proof. destruct h; [congruence | reflexivity]. Qed.

Lemma unshift_capped_below {A} (x : A) (h : list A) :
  length h < maxHistoryItems -> unshift_capped x h = x :: h.
Proof.
  intros H. unfold unshift_capped.
  destruct (Nat.ltb_spec maxHistoryItems (length (x :: h))) as [Hlt|_];
    [simpl in Hlt; lia | reflexivity].
Qed.

Lemma unshift_capped_full {A} (x : A) (h : list A) :
  maxHistoryItems <= length h -> unshift_capped x h = x :: removelast h.
Proof.
  intros H. unfold unshift_capped.
  destruct (Nat.ltb_spec maxHistoryItems (length (x :: h))) as [_|Hge];
    [|simpl in Hge; lia].
  apply removelast_cons. intros ->. unfold maxHistoryItems in H. simpl in H. lia.
Qed.

Lemma length_removelast {A} (h : list A) : length (removelast h) = length h - 1.
Proof.
  induction h as [|x [|y h] IH]; [reflexivity | reflexivity |].
  change (removelast (x :: y :: h)) with (x :: removelast (y :: h)).
  simpl length in *. lia.
Qed.

Lemma removelast_snoc {A} (h : list A) :
  h <> [] -> exists oldest, h = (removelast h ++ [oldest])%list.
Proof.
  intros H. destruct (exists_last H) as [h' [a Ha]].
  exists a. rewrite Ha at 2. rewrite removelast_last. exact Ha.
Qed.

Lemma StronglySorted_removelast {A} (R : A -> A -> Prop) (h : list A) :
  StronglySorted R h -> StronglySorted R (removelast h).
Proof.
  induction 1 as [|x h Hs IH Hall]; [constructor|].
  destruct h as [|y h]; [constructor|].
  change (removelast (x :: y :: h)) with (x :: removelast (y :: h)).
  constructor; [exact IH|].
  rewrite Forall_forall in *. intros z Hz. apply Hall.
  destruct (removelast_snoc (y :: h)) as [o Ho]; [discriminate|].
  rewrite Ho. apply elem_of_app. now left.
Qed.

Lemma Forall_removelast {A} (P : A -> Prop) (h : list A) :
  Forall P h -> Forall P (removelast h).
Proof.
  intros H. destruct h as [|y h]; [constructor|].
  destruct (removelast_snoc (y :: h)) as [o Ho]; [discriminate|].
  rewrite Ho in H. apply Forall_app in H. tauto.
Qed.

Lemma txHistory_begin (sha3 : string -> string) signedTx walletAddress options now p :
  txHistory (snd (sendTransaction_begin sha3 signedTx walletAddress options now p))
  = unshift_capped (fst (sendTransaction_begin sha3 signedTx walletAddress options now p))
      (txHistory p).
Proof. reflexivity. Qed.

(** C9. Appending to a history of at most 100 references kept newest
    first: the new reference is first, the length stays within 100, below
    the cap nothing is dropped, at the cap exactly the last (oldest)
    reference is dropped and 100 remain, and the list is still ordered
    newest first. [newer] is any recency order for which the new record is
    newer than those already stored. *)
Theorem history_append_capped (sha3 : string -> string)
    (newer : nat -> nat -> Prop) signedTx walletAddress options now (p : Process) :
  let ref := fst (sendTransaction_begin sha3 signedTx walletAddress options now p) in
  let p' := snd (sendTransaction_begin sha3 signedTx walletAddress options now p) in
  length (txHistory p) <= maxHistoryItems ->
  StronglySorted newer (txHistory p) ->
  Forall (newer ref) (txHistory p) ->
  head (txHistory p') = Some ref /\
  length (txHistory p') <= maxHistoryItems /\
  (length (txHistory p) < maxHistoryItems -> txHistory p' = ref :: txHistory p) /\
  (length (txHistory p) = maxHistoryItems ->
     exists oldest,
       txHistory p = (removelast (txHistory p) ++ [oldest])%list /\
       txHistory p' = ref :: removelast (txHistory p) /\
       length (txHistory p') = maxHistoryItems) /\
  StronglySorted newer (txHistory p').
Proof.
  intros ref p' Hlen Hsorted Hnew.
  unfold p'. rewrite txHistory_begin. fold ref.
  destruct (Nat.lt_ge_cases (length (txHistory p)) maxHistoryItems) as [Hlt|Hge].
  - rewrite unshift_capped_below by exact Hlt.
    split; [reflexivity|]. split; [simpl; unfold maxHistoryItems in *; lia|].
    split; [reflexivity|].
    split; [intros Heq; lia | now constructor].
  - rewrite unshift_capped_full by exact Hge.
    assert (Hne : txHistory p <> []).
    { intros E. rewrite E in Hge. unfold maxHistoryItems in Hge. simpl in Hge. lia. }
    split; [reflexivity|].
    split; [simpl; rewrite length_removelast; unfold maxHistoryItems in *; lia|].
    split; [intros Hlt; lia|].
    split.
    + intros Heq. destruct (removelast_snoc _ Hne) as [o Ho]. exists o.
      split; [exact Ho|]. split; [reflexivity|].
      simpl. rewrite length_removelast. unfold maxHistoryItems in *. lia.
    + constructor; [now apply StronglySorted_removelast | now apply Forall_removelast].
Qed.

(** ** Invalidation of the cached nonce *)

Lemma getNonce_absent (a : string) (c : nat) (pn : gmap string nat) :
  pn !! a = None -> fst (getNonce a c pn) = c.
Proof. intros H. unfold getNonce. rewrite H. simpl. lia. Qed.

(** C8. When the race of a suspended [sendTransaction] settles with an
    error, the call throws that error; if the message contains "nonce" or
    "underpriced" the entry of the sending address is gone from
    [pendingNonces] in the state the throw leaves behind (entries of other
    addresses are kept), so that the next [getNonce] for it returns the
    on-chain count; for any other message [pendingNonces] is unchanged. *)
Theorem nonce_invalidated_on_desync (ref : nat) (fr : Frame) (s : Settlement)
    (e : JsError) (p : Process) :
  inflight p !! ref = Some (Racing fr) ->
  settle_result s = inr e ->
  let p' := snd (settle ref s p) in
  fst (settle ref s p) = Some (inr e) /\
  last (effects p') = Some (Throw ref e) /\
  (JS.includes (message e) "nonce" || JS.includes (message e) "underpriced" = true ->
     pendingNonces p' = delete (f_walletAddress fr) (pendingNonces p) /\
     pendingNonces p' !! f_walletAddress fr = None /\
     forall onChain, fst (getNonce (f_walletAddress fr) onChain (pendingNonces p')) = onChain) /\
  (JS.includes (message e) "nonce" || JS.includes (message e) "underpriced" = false ->
     pendingNonces p' = pendingNonces p).
Proof.
  intros Hin Hres p'. unfold p', settle. rewrite Hin, Hres. simpl.
  split; [reflexivity|]. split; [apply last_snoc|].
  unfold nonce_desync.
  destruct (JS.includes (message e) "nonce" || JS.includes (message e) "underpriced").
  - split; [|discriminate]. intros _. simpl.
    split; [reflexivity|]. split; [apply lookup_delete_eq|].
    intros c. apply getNonce_absent. apply lookup_delete_eq.
  - split; [discriminate|]. intros _. reflexivity.
Qed.

(** ** Concurrent allocation *)

Lemma first_nonce_getNonce (a : string) (c : nat) (pn : gmap string nat) :
  fst (getNonce a c pn) = first_nonce c (pn !! a).
Proof.
  unfold getNonce, first_nonce. simpl.
  destruct (pn !! a) as [v|]; [|lia].
  destruct (Nat.eqb_spec v 0); lia.
Qed.

Lemma getNonce_stores (a : string) (c : nat) (pn : gmap string nat) :
  snd (getNonce a c pn) = <[a := S (fst (getNonce a c pn))]> pn.
Proof. unfold getNonce. simpl. now rewrite Nat.add_1_r. Qed.

Lemma getNonce_ge_chain (a : string) (c : nat) (pn : gmap string nat) :
  c <= fst (getNonce a c pn).
Proof. unfold getNonce. simpl. lia. Qed.

Section PoolFacts.

Variable chain : string -> nat.
Variable A : string.

Lemma next_nonce_after_same (pn : gmap string nat) :
  next_nonce chain A (snd (getNonce A (chain A) pn)) = S (next_nonce chain A pn).
Proof.
  unfold next_nonce. rewrite getNonce_stores at 1.
  rewrite first_nonce_getNonce, lookup_insert_eq. simpl.
  pose proof (getNonce_ge_chain A (chain A) pn). lia.
Qed.

Lemma next_nonce_after_other (b : string) (c : nat) (pn : gmap string nat) :
  b <> A -> next_nonce chain A (snd (getNonce b c pn)) = next_nonce chain A pn.
Proof.
  intros Hne. unfold next_nonce. rewrite getNonce_stores.
  rewrite !first_nonce_getNonce, lookup_insert_ne by exact Hne. reflexivity.
Qed.

Lemma trace_for_cons (a : string) (n : nat) (tr : list (string * nat)) :
  trace_for A ((a, n) :: tr)
  = ((if decide (a = A) then [n] else []) ++ trace_for A tr)%list.
Proof. unfold trace_for. simpl. now destruct (decide (a = A)). Qed.

Lemma returned_for_insert (pool : list NonceCall) (i : nat) (a : string) (n : nat) :
  pool !! i = Some (Awaiting a) ->
  omap (returned_for A) (<[i := Returned a n]> pool)
  ≡ₚ (omap (returned_for A) pool ++ (if decide (a = A) then [n] else []))%list.
Proof.
  intros Hi.
  rewrite insert_take_drop by (eapply lookup_lt_Some; exact Hi).
  rewrite <- (take_drop_middle pool i _ Hi) at 3.
  rewrite !omap_app. simpl.
  destruct (decide (a = A)); simpl.
  - rewrite <- app_assoc. apply Permutation_app_head.
    apply Permutation_cons_append.
  - now rewrite app_nil_r.
Qed.

Lemma waiting_insert (pool : list NonceCall) (i : nat) (a : string) (n : nat) :
  pool !! i = Some (Awaiting a) ->
  waiting A pool
  = length (if decide (a = A) then [n] else [])
    + waiting A (<[i := Returned a n]> pool).
Proof.
  intros Hi. unfold waiting.
  rewrite insert_take_drop by (eapply lookup_lt_Some; exact Hi).
  rewrite <- (take_drop_middle pool i _ Hi) at 1.
  rewrite !List.filter_app, !length_app. simpl.
  destruct (decide (a = A)) as [->|Hne].
  - rewrite bool_decide_eq_true_2 by reflexivity. simpl. lia.
  - rewrite bool_decide_eq_false_2 by exact Hne. simpl. lia.
Qed.

(** Along any run: the nonces returned for [A] are consecutive from the
    one due next, the activations hold exactly the nonces returned, and
    every return takes one activation out of the waiting ones. *)
Lemma nonce_run_invariant s tr s' :
  nonce_run chain s tr s' ->
  trace_for A tr = seq (next_nonce chain A (fst s)) (length (trace_for A tr)) /\
  omap (returned_for A) (snd s')
    ≡ₚ (omap (returned_for A) (snd s) ++ trace_for A tr)%list /\
  waiting A (snd s) = length (trace_for A tr) + waiting A (snd s').
Proof.
  induction 1 as [s|pn pool i a tr s' Hi Hrun IH].
  - simpl. rewrite app_nil_r. repeat split; reflexivity.
  - destruct IH as (IH1 & IH2 & IH3). cbn [fst snd] in *.
    pose proof (returned_for_insert pool i a (fst (getNonce a (chain a) pn)) Hi) as Hp.
    pose proof (waiting_insert pool i a (fst (getNonce a (chain a) pn)) Hi) as Hw.
    rewrite trace_for_cons. revert Hp Hw.
    destruct (decide (a = A)) as [->|Hne]; intros Hp Hw;
      cbn [app length Nat.add] in Hp, Hw |- *.
    + rewrite next_nonce_after_same in IH1.
      split; [|split].
      * change (seq (next_nonce chain A pn) (S (length (trace_for A tr))))
          with (next_nonce chain A pn
                :: seq (S (next_nonce chain A pn)) (length (trace_for A tr))).
        rewrite <- IH1. reflexivity.
      * rewrite IH2, Hp. rewrite <- app_assoc. reflexivity.
      * lia.
    + rewrite next_nonce_after_other in IH1 by exact Hne.
      rewrite app_nil_r in Hp.
      split; [|split].
      * exact IH1.
      * rewrite IH2, Hp. reflexivity.
      * lia.
Qed.

End PoolFacts.

Lemma omap_returned_awaiting (A : string) (pool : list NonceCall) :
  Forall (fun c => is_returned c = false) pool -> omap (returned_for A) pool = [].
Proof.
  induction 1 as [|c pool Hc _ IH]; [reflexivity|].
  destruct c; [exact IH | discriminate].
Qed.

Lemma waiting_all_returned (A : string) (pool : list NonceCall) :
  Forall (fun c => is_returned c = true) pool -> waiting A pool = 0.
Proof.
  unfold waiting. induction 1 as [|c pool Hc _ IH]; [reflexivity|].
  destruct c; [discriminate | exact IH].
Qed.

(** C1. [N] activations of [getNonce] are in flight for address [A]
    (possibly with activations for other addresses), the chain reporting
    [chain A] transactions for it. However the event loop interleaves
    them, once all have returned the nonces returned for [A] are, in the
    order of the returns, [start, start+1, ..., start+N-1] with
    [start = max(chain A, lastIssued+1)] ([chain A] when nothing was
    issued before); the activations hold exactly these values, pairwise
    distinct. *)
Theorem concurrent_getNonce_contiguous (chain : string -> nat) (A : string)
    (pn pn' : gmap string nat) (pool pool' : list NonceCall)
    (tr : list (string * nat)) :
  nonce_run chain (pn, pool) tr (pn', pool') ->
  Forall (fun c => is_returned c = false) pool ->
  Forall (fun c => is_returned c = true) pool' ->
  let N := waiting A pool in
  let start := first_nonce (chain A) (pn !! A) in
  trace_for A tr = seq start N /\
  omap (returned_for A) pool' ≡ₚ seq start N /\
  NoDup (omap (returned_for A) pool').
Proof.
  intros Hrun Hall0 Hall1 N start.
  destruct (nonce_run_invariant chain A _ _ _ Hrun) as (H1 & H2 & H3).
  simpl in *.
  rewrite (waiting_all_returned A pool' Hall1), Nat.add_0_r in H3.
  rewrite (omap_returned_awaiting A pool Hall0) in H2. simpl in H2.
  unfold next_nonce in H1. rewrite first_nonce_getNonce in H1.
  fold start in H1. rewrite <- H3 in H1. fold N in H1.
  split; [exact H1|]. rewrite H1 in H2. split; [exact H2|].
  rewrite H2. apply NoDup_ListNoDup, List.seq_NoDup.
Qed.

(** ** One submission *)

Section Submission.

Variable sha3 : string -> string.
Variables (signedTx : SignedTx) (walletAddress : string) (options : Options.t)
          (now : N).

Local Abbreviation pending_record :=
  (pending_record sha3 signedTx walletAddress options now).
Local Abbreviation frame := (frame_of sha3 signedTx walletAddress options).
Local Abbreviation begin p :=
  (sendTransaction_begin sha3 signedTx walletAddress options now p).

Lemma begin_ref (p : Process) : fst (begin p) = fresh (dom (objects p)).
Proof. reflexivity. Qed.

Lemma begin_ref_fresh (p : Process) : objects p !! fst (begin p) = None.
Proof. rewrite begin_ref. apply not_elem_of_dom, is_fresh. Qed.

Lemma begin_objects (p : Process) :
  objects (snd (begin p)) = <[fst (begin p) := pending_record]> (objects p).
Proof. reflexivity. Qed.

Lemma begin_inflight (p : Process) :
  inflight (snd (begin p)) = <[fst (begin p) := Racing frame]> (inflight p).
Proof. reflexivity. Qed.

Lemma begin_pendingNonces (p : Process) :
  pendingNonces (snd (begin p)) = pendingNonces p.
Proof. reflexivity. Qed.

Lemma unshift_capped_head {A} (x : A) (h : list A) :
  exists t, unshift_capped x h = x :: t.
Proof.
  destruct (Nat.lt_ge_cases (length h) maxHistoryItems).
  - rewrite unshift_capped_below by assumption. eauto.
  - rewrite unshift_capped_full by assumption. eauto.
Qed.

Lemma begin_history_head (p : Process) :
  head (history_records (snd (begin p))) = Some pending_record.
Proof.
  unfold history_records. rewrite begin_objects.
  change (txHistory (snd (begin p))) with (unshift_capped (fst (begin p)) (txHistory p)).
  destruct (unshift_capped_head (fst (begin p)) (txHistory p)) as [t ->].
  simpl. now rewrite lookup_insert_eq.
Qed.

Lemma begin_effects (p : Process) :
  effects (snd (begin p))
  = (effects p ++
      [Sha3 (rawTransaction signedTx);
       WriteFile (history_records (snd (begin p)));
       SetTimeout (JS.or (Options.timeout options) (JS.Num 120000));
       SendSignedTransaction (rawTransaction signedTx)])%list.
Proof.
  unfold begin, sendTransaction_begin. cbn [snd effects set_inflight emit].
  unfold saveHistory. cbn [effects emit set_historyFile set_txHistory set_objects].
  rewrite <- !app_assoc. reflexivity.
Qed.

Lemma begin_historyFile (p : Process) :
  historyFile (snd (begin p)) = Some (history_records (snd (begin p))).
Proof. reflexivity. Qed.

(** The head of the serialised history after the record [ref], which is
    first in [txHistory], has been altered. *)
Lemma history_head_alter (f : TxRecord.t -> TxRecord.t) (ref : nat) (x : TxRecord.t)
    (p : Process) :
  head (txHistory p) = Some ref -> objects p !! ref = Some x ->
  head (omap (fun r => alter f ref (objects p) !! r) (txHistory p)) = Some (f x).
Proof.
  intros Hh Ho. destruct (txHistory p) as [|r t]; [discriminate|].
  injection Hh as ->. simpl. rewrite lookup_alter_eq, Ho. reflexivity.
Qed.

Lemma settle_racing (ref : nat) (fr : Frame) (s : Settlement) (p : Process) :
  inflight p !! ref = Some (Racing fr) ->
  settle ref s p
  = (Some (settle_result s),
     match settle_result s with
     | inl receipt => on_fulfilled ref fr receipt p
     | inr e => on_rejected ref fr e p
     end).
Proof. intros H. unfold settle. rewrite H. now destruct (settle_result s). Qed.

Lemma settle_settled (ref : nat) (r : JS.outcome Receipt.t JsError)
    (s : Settlement) (p : Process) :
  inflight p !! ref = Some (Settled r) -> settle ref s p = (None, p).
Proof. intros H. unfold settle. now rewrite H. Qed.


(** Once the race has been decided every further settlement is dropped. *)
End Submission.

(** ** Runs of the event loop *)

Section RunFacts.

Variable sha3 : string -> string.



(** A task that is not the deciding settlement of [ref] leaves the
    record [ref] and the state of its activation alone. *)
Lemma step_frame (ref : nat) (t : Task) (p : Process) :
  is_Some (objects p !! ref) ->
  (delivers_to ref t = false \/ exists r, inflight p !! ref = Some (Settled r)) ->
  objects (snd (step sha3 t p)) !! ref = objects p !! ref /\
  inflight (snd (step sha3 t p)) !! ref = inflight p !! ref.
Proof.
  intros Hobj Hq. destruct t as [stx w o n|r s|a c|a l]; simpl.
  - assert (Hne : fresh (dom (objects p)) <> ref).
    { intros E. apply elem_of_dom in Hobj. rewrite <- E in Hobj.
      exact (is_fresh _ Hobj). }
    split; now rewrite lookup_insert_ne.
  - destruct (decide (r = ref)) as [->|Hne].
    + destruct Hq as [Hd|[x Hx]].
      * simpl in Hd. rewrite bool_decide_eq_true_2 in Hd by reflexivity. discriminate.
      * rewrite (settle_settled ref x s p Hx). split; reflexivity.
    + unfold settle. destruct (inflight p !! r) as [[fr|x]|]; try (split; reflexivity).
      destruct (settle_result s) as [receipt|e]; simpl.
      * split; [now rewrite lookup_alter_ne | now rewrite lookup_insert_ne].
      * unfold on_rejected. destruct (nonce_desync e); simpl;
          (split; [now rewrite lookup_alter_ne | now rewrite lookup_insert_ne]).
  - split; reflexivity.
  - split; reflexivity.
Qed.


Lemma run_frame_quiet (ref : nat) (ts : list Task) (p : Process) :
  is_Some (objects p !! ref) ->
  forallb (fun t => negb (delivers_to ref t)) ts = true ->
  objects (snd (run sha3 ts p)) !! ref = objects p !! ref /\
  inflight (snd (run sha3 ts p)) !! ref = inflight p !! ref.
Proof.
  revert p. induction ts as [|t ts IH]; intros p Hobj Hq; [split; reflexivity|].
  simpl in Hq. apply andb_true_iff in Hq as [Ht Hts].
  apply negb_true_iff in Ht.
  destruct (step_frame ref t p Hobj (or_introl Ht)) as [Ho Hi].
  simpl. destruct (step sha3 t p) as [r q]. simpl in Ho, Hi.
  destruct (IH q) as [H1 H2]; [rewrite Ho; exact Hobj | exact Hts |].
  destruct (run sha3 ts q) as [rs q']. simpl in *. split; congruence.
Qed.



Lemma lookup_removelast {A} (h : list A) (i : nat) :
  i < length h - 1 -> removelast h !! i = h !! i.
Proof.
  intros Hi. rewrite removelast_firstn_len.
  change (firstn (Nat.pred (length h)) h) with (take (Nat.pred (length h)) h).
  apply lookup_take_lt. lia.
Qed.

Lemma unshift_capped_shifts {A} (x y : A) (h : list A) (i : nat) :
  h !! i = Some y -> S i < maxHistoryItems ->
  unshift_capped x h !! S i = Some y.
Proof.
  intros Hy Hi.
  destruct (Nat.lt_ge_cases (length h) maxHistoryItems) as [Hlt|Hge].
  - rewrite unshift_capped_below by exact Hlt. exact Hy.
  - rewrite unshift_capped_full by exact Hge. simpl.
    rewrite lookup_removelast by lia. exact Hy.
Qed.

(** A reference stays listed while fewer submissions than the cap have
    been started after it. *)
Lemma listed_after_run (ref : nat) (ts : list Task) (p : Process) (i : nat) :
  txHistory p !! i = Some ref ->
  i + begins ts < maxHistoryItems ->
  exists i', txHistory (snd (run sha3 ts p)) !! i' = Some ref.
Proof.
  revert p i. induction ts as [|t ts IH]; intros p i Hi Hb.
  - exists i. exact Hi.
  - simpl. destruct (step sha3 t p) as [r q] eqn:E.
    assert (Hq : exists i', txHistory q !! i' = Some ref /\ i' + begins ts < maxHistoryItems).
    { destruct t as [stx w o n|r' s|a c|a l]; simpl in E.
      - injection E as _ <-. exists (S i). split.
        + change (txHistory (snd (sendTransaction_begin sha3 stx w o n p)))
            with (unshift_capped (fst (sendTransaction_begin sha3 stx w o n p))
                    (txHistory p)).
          apply unshift_capped_shifts; [exact Hi|].
          unfold begins in Hb. simpl in Hb. lia.
        + unfold begins in *. simpl in Hb. lia.
      - exists i. split; [|exact Hb]. unfold settle in E.
        destruct (inflight p !! r') as [[fr|x]|]; try (injection E as _ <-; exact Hi).
        destruct (settle_result s) as [receipt|e]; injection E as _ <-; [exact Hi|].
        unfold on_rejected. now destruct (nonce_desync e).
      - injection E as _ <-. exists i. split; [exact Hi | exact Hb].
      - injection E as _ <-. exists i. split; [exact Hi | exact Hb]. }
    destruct Hq as [i' [Hi' Hb']].
    destruct (IH q i' Hi' Hb') as [i'' H]. exists i''.
    destruct (run sha3 ts q). exact H.
Qed.


(** A settled call stays settled, and its record as it is. *)
Lemma run_frame_settled (ref : nat) (r : JS.outcome Receipt.t JsError)
    (ts : list Task) (p : Process) :
  is_Some (objects p !! ref) ->
  inflight p !! ref = Some (Settled r) ->
  objects (snd (run sha3 ts p)) !! ref = objects p !! ref /\
  inflight (snd (run sha3 ts p)) !! ref = Some (Settled r).
Proof.
  revert p. induction ts as [|t ts IH]; intros p Hobj Hs; [split; [reflexivity | exact Hs]|].
  destruct (step_frame ref t p Hobj (or_intror (ex_intro _ r Hs))) as [Ho Hi].
  simpl. destruct (step sha3 t p) as [x q]. simpl in Ho, Hi.
  destruct (IH q) as [H1 H2]; [rewrite Ho; exact Hobj | congruence |].
  destruct (run sha3 ts q) as [rs q']. simpl in *. split; congruence.
Qed.

(** The log of effects only grows. *)
Lemma effects_step_extends (t : Task) (p : Process) :
  exists more, effects (snd (step sha3 t p)) = (effects p ++ more)%list.
Proof.
  destruct t as [stx w o n|r s|a c|a l]; simpl.
  - eexists. unfold saveHistory. cbn [effects emit set_inflight set_historyFile
      set_objects set_txHistory]. rewrite <- !app_assoc. reflexivity.
  - unfold settle. destruct (inflight p !! r) as [[fr|x]|];
      try (exists []; simpl; now rewrite app_nil_r).
    destruct (settle_result s) as [receipt|e]; simpl.
    + eexists. rewrite <- !app_assoc. reflexivity.
    + unfold on_rejected. destruct (nonce_desync e); simpl;
        eexists; rewrite <- !app_assoc; reflexivity.
  - exists []. now rewrite app_nil_r.
  - exists []. now rewrite app_nil_r.
Qed.

Lemma effects_run_extends (ts : list Task) (p : Process) :
  exists more, effects (snd (run sha3 ts p)) = (effects p ++ more)%list.
Proof.
  revert p. induction ts as [|t ts IH]; intros p.
  - exists []. simpl. now rewrite app_nil_r.
  - simpl. destruct (effects_step_extends t p) as [m1 H1].
    destruct (step sha3 t p) as [x q]. simpl in H1.
    destruct (IH q) as [m2 H2]. destruct (run sha3 ts q) as [rs q']. simpl in *.
    exists (m1 ++ m2)%list. now rewrite H2, H1, app_assoc.
Qed.

(** Only the beginning of a submission changes the list of the store. *)
Lemma txHistory_run_quiet (ts : list Task) (p : Process) :
  begins ts = 0 -> txHistory (snd (run sha3 ts p)) = txHistory p.
Proof.
  revert p. induction ts as [|t ts IH]; intros p Hb; [reflexivity|].
  assert (Ht : txHistory (snd (step sha3 t p)) = txHistory p /\ begins ts = 0).
  { destruct t as [stx w o n|r s|a c|a l]; unfold begins in *; simpl in Hb |- *;
      try discriminate Hb; (split; [|exact Hb]); try reflexivity.
    unfold settle. destruct (inflight p !! r) as [[fr|x]|]; try reflexivity.
    destruct (settle_result s) as [receipt|e]; [reflexivity|].
    simpl. unfold on_rejected. now destruct (nonce_desync e). }
  destruct Ht as [Ht Hb']. simpl. destruct (step sha3 t p) as [x q]. simpl in Ht.
  specialize (IH q Hb'). destruct (run sha3 ts q) as [rs q']. simpl in *. congruence.
Qed.

Lemma listed_record (ref : nat) (y : TxRecord.t) (i : nat) (p : Process) :
  txHistory p !! i = Some ref -> objects p !! ref = Some y ->
  y ∈ history_records p.
Proof.
  intros Hi Hy. unfold history_records. apply list_elem_of_omap.
  exists ref. split; [|exact Hy]. apply list_elem_of_lookup. eauto.
Qed.

Lemma head_record (ref : nat) (y : TxRecord.t) (p : Process) :
  head (txHistory p) = Some ref -> objects p !! ref = Some y ->
  head (history_records p) = Some y.
Proof.
  intros Hh Hy. unfold history_records.
  destruct (txHistory p) as [|r tl]; [discriminate|]. injection Hh as ->.
  simpl. now rewrite Hy.
Qed.

End RunFacts.

(** ** The effects of a submission, in order *)

(** C3. A call of [sendTransaction], followed through any interleaving:
    [mid] are the tasks the event loop runs between the call and the
    first settlement [s] of its race, [post] whatever runs afterwards.
    (1)-(3) The synchronous prefix hashes the raw payload, puts a new
    record first in the history (this hash, this wallet, status Pending,
    no block number, gas used or error), writes the history file with it,
    starts the timer and broadcasts, in this order. The timer is
    [options.timeout] when that is truthy and 120000 otherwise. The tasks
    in between only add to the log and leave the record Pending.
    (4) When [s] is the receipt, the record is set to Confirmed with
    the block number and the gas used of the receipt, the file is written,
    the confirmation is logged and the receipt returned, in this order.
    (5) When [s] is a rejection or the timer, the record is set to Failed
    with the message of the error ("Transaction timeout" for the timer),
    the file is written, the failure is logged and the error thrown, in
    this order. The file then holds the history as written; it lists the
    record when fewer submissions than the cap were begun in between, and
    lists it first when none was. Whatever runs afterwards leaves the
    record as [s] left it, and a later settlement of the same race (the
    loser) is ignored and changes nothing at all. *)
Theorem sendTransaction_effect_order (sha3 : string -> string)
    signedTx walletAddress options now (mid post : list Task) (s : Settlement)
    (p : Process) :
  let raw := rawTransaction signedTx in
  let timer := JS.or (Options.timeout options) (JS.Num 120000) in
  let ref := fst (sendTransaction_begin sha3 signedTx walletAddress options now p) in
  let p1 := snd (sendTransaction_begin sha3 signedTx walletAddress options now p) in
  let p2 := snd (run sha3 mid p1) in
  let p3 := snd (step sha3 (Deliver ref s) p2) in
  let p4 := snd (run sha3 post p3) in
  forallb (fun t => negb (delivers_to ref t)) mid = true ->
  (exists x rest,
     history_records p1 = x :: rest /\
     objects p1 !! ref = Some x /\
     TxRecord.hash x = sha3 raw /\
     TxRecord.from x = walletAddress /\
     TxRecord.timestamp x = now /\
     TxRecord.status x = pending /\
     TxRecord.blockNumber x = None /\
     TxRecord.gasUsed x = None /\
     TxRecord.error x = None /\
     effects p1
     = (effects p ++
         [Sha3 raw; WriteFile (x :: rest); SetTimeout timer;
          SendSignedTransaction raw])%list /\
     historyFile p1 = Some (x :: rest)) /\
  timer = (if JS.truthy (Options.timeout options)
           then Options.timeout options else JS.Num 120000) /\
  (exists between, effects p2 = (effects p1 ++ between)%list) /\
  status_of ref p2 = Some pending /\
  fst (step sha3 (Deliver ref s) p2) = Completed ref (settle_result s) /\
  (exists y,
     objects p3 !! ref = Some y /\
     TxRecord.hash y = sha3 raw /\
     TxRecord.from y = walletAddress /\
     match s with
     | BroadcastResolved receipt =>
         settle_result s = inl receipt /\
         TxRecord.status y = confirmed /\
         TxRecord.blockNumber y = Some (Receipt.blockNumber receipt) /\
         TxRecord.gasUsed y = Some (Receipt.gasUsed receipt) /\
         TxRecord.error y = None /\
         effects p3
         = (effects p2 ++
             [WriteFile (history_records p3);
              LogAction "transaction_confirmed" (sha3 raw) walletAddress
                (Options.to options);
              Return ref receipt])%list
     | _ =>
         let e := match s with
                  | BroadcastRejected e => e
                  | _ => Error "Transaction timeout"
                  end in
         settle_result s = inr e /\
         TxRecord.status y = failed /\
         TxRecord.error y = Some (message e) /\
         TxRecord.blockNumber y = None /\
         TxRecord.gasUsed y = None /\
         effects p3
         = (effects p2 ++
             [WriteFile (history_records p3);
              LogAction "transaction_failed" (sha3 raw) walletAddress
                (JS.Str (message e));
              Throw ref e])%list
     end /\
     historyFile p3 = Some (history_records p3) /\
     (begins mid < maxHistoryItems -> y ∈ history_records p3) /\
     (begins mid = 0 -> head (history_records p3) = Some y) /\
     objects p4 !! ref = Some y /\
     forall s', step sha3 (Deliver ref s') p4 = (Ignored, p4)).
Proof.
  intros raw timer ref p1 p2 p3 p4 Hmid.
  set (frame := frame_of sha3 signedTx walletAddress options).
  set (rec0 := pending_record sha3 signedTx walletAddress options now).
  assert (Hobj : objects p1 !! ref = Some rec0) by apply lookup_insert_eq.
  assert (Hrac : inflight p1 !! ref = Some (Racing frame)) by apply lookup_insert_eq.
  assert (Hhead1 : head (txHistory p1) = Some ref).
  { change (txHistory p1) with (unshift_capped ref (txHistory p)).
    destruct (unshift_capped_head ref (txHistory p)) as [tl ->]. reflexivity. }
  destruct (run_frame_quiet sha3 ref mid p1 (mk_is_Some _ _ Hobj) Hmid) as [Ho2 Hi2].
  fold p2 in Ho2, Hi2. rewrite Hobj in Ho2. rewrite Hrac in Hi2.
  assert (Hp3 : p3 = snd (settle ref s p2)).
  { unfold p3. simpl. rewrite (settle_racing ref frame s p2 Hi2). reflexivity. }
  split.
  { pose proof (begin_history_head sha3 signedTx walletAddress options now p) as Hh.
    pose proof (begin_effects sha3 signedTx walletAddress options now p) as He.
    pose proof (begin_historyFile sha3 signedTx walletAddress options now p) as Hf.
    fold p1 in Hh, He, Hf.
    destruct (history_records p1) as [|x rest] eqn:Ex; [discriminate Hh|].
    injection Hh as ->. exists rec0, rest.
    repeat (split; [first [reflexivity | exact Hobj | exact He | exact Hf]|]).
    exact Hf. }
  split; [reflexivity|].
  split; [apply effects_run_extends|].
  split; [unfold status_of; now rewrite Ho2|].
  split; [simpl; rewrite (settle_racing ref frame s p2 Hi2); reflexivity|].
  assert (Hset : exists y,
    objects p3 !! ref = Some y /\
    y = match settle_result s with
        | inl receipt => TxRecord.confirm receipt rec0
        | inr e => TxRecord.fail e rec0
        end /\
    txHistory p3 = txHistory p2 /\
    inflight p3 !! ref = Some (Settled (settle_result s)) /\
    historyFile p3 = Some (history_records p3)).
  { rewrite Hp3, (settle_racing ref frame s p2 Hi2).
    destruct (settle_result s) as [receipt|e]; cbn [snd].
    - exists (TxRecord.confirm receipt rec0). simpl.
      rewrite lookup_alter_eq, Ho2, lookup_insert_eq. repeat split.
    - exists (TxRecord.fail e rec0). unfold on_rejected.
      destruct (nonce_desync e); simpl;
        rewrite lookup_alter_eq, Ho2, lookup_insert_eq; repeat split. }
  destruct Hset as (y & Hy & Hdef & Htx & Hset & Hfile).
  exists y. split; [exact Hy|].
  split; [subst y; now destruct (settle_result s)|].
  split; [subst y; now destruct (settle_result s)|].
  split.
  { rewrite Hp3, (settle_racing ref frame s p2 Hi2) in *.
    destruct s as [receipt|e|]; cbn [settle_result snd] in *; subst y.
    - repeat (split; [reflexivity|]).
      unfold on_fulfilled, saveHistory.
      cbn [effects emit set_inflight set_historyFile set_objects].
      rewrite <- !app_assoc. reflexivity.
    - repeat (split; [reflexivity|]).
      unfold on_rejected, saveHistory. destruct (nonce_desync e);
        cbn [effects emit set_inflight set_historyFile set_objects set_pendingNonces];
        rewrite <- !app_assoc; reflexivity.
    - repeat (split; [reflexivity|]).
      unfold on_rejected, saveHistory.
      change (nonce_desync (Error "Transaction timeout")) with false.
      cbn [effects emit set_inflight set_historyFile set_objects set_pendingNonces].
      rewrite <- !app_assoc. reflexivity. }
  split; [exact Hfile|].
  split.
  { intros Hb.
    assert (H0 : txHistory p1 !! 0 = Some ref).
    { destruct (txHistory p1); [discriminate | injection Hhead1 as ->; reflexivity]. }
    destruct (listed_after_run sha3 ref mid p1 0 H0 Hb) as [i Hi]. fold p2 in Hi.
    apply (listed_record ref y i); [now rewrite Htx | exact Hy]. }
  split.
  { intros Hb. apply (head_record ref); [|exact Hy].
    rewrite Htx. unfold p2. now rewrite (txHistory_run_quiet sha3 mid p1 Hb). }
  destruct (run_frame_settled sha3 ref _ post p3 (mk_is_Some _ _ Hy) Hset) as [Ho4 Hi4].
  fold p4 in Ho4, Hi4.
  split; [now rewrite Ho4|].
  intros s'. simpl. now rewrite (settle_settled ref _ s' p4 Hi4).
Qed.







(** ** The reservation across the operations of the manager *)

Section Reservation.

Variable sha3 : string -> string.
Variable A : string.

Lemma nonces_for_cons (r : Response) (rs : list Response) :
  nonces_for A (r :: rs) = (nonces_for A [r] ++ nonces_for A rs)%list.
Proof. unfold nonces_for. simpl. now destruct r; try destruct (decide _). Qed.

Lemma run_cons (t : Task) (ts : list Task) (p : Process) :
  run sha3 (t :: ts) p
  = (fst (step sha3 t p) :: fst (run sha3 ts (snd (step sha3 t p))),
     snd (run sha3 ts (snd (step sha3 t p)))).
Proof.
  simpl. destruct (step sha3 t p) as [r q]. simpl.
  now destruct (run sha3 ts q).
Qed.

(** A step other than [getNonce A] that does not invalidate [A] keeps
    the entry of [A] and hands out nothing for [A]. *)
Lemma step_keeps_entry (t : Task) (p : Process) :
  invalidates A p t = false ->
  (forall c, t <> ResumeGetNonce A c) ->
  pendingNonces (snd (step sha3 t p)) !! A = pendingNonces p !! A /\
  nonces_for A [fst (step sha3 t p)] = [].
Proof.
  intros Hinv Hnot. destruct t as [stx w o n|r s|a c|a l]; simpl.
  - split; reflexivity.
  - simpl in Hinv. unfold settle.
    destruct (inflight p !! r) as [[fr|x]|]; try (split; reflexivity).
    destruct (settle_result s) as [receipt|e]; [split; reflexivity|].
    unfold on_rejected. simpl. destruct (nonce_desync e); simpl in *.
    + apply bool_decide_eq_false in Hinv.
      split; [now rewrite lookup_delete_ne | reflexivity].
    + split; reflexivity.
  - assert (a <> A) by (intros ->; now apply (Hnot c)).
    split; [now rewrite lookup_insert_ne|].
    unfold nonces_for. simpl. now destruct (decide (a = A)).
  - split; reflexivity.
Qed.

Lemma step_getNonce (c n : nat) (p : Process) :
  pendingNonces p !! A = Some (S n) ->
  fst (step sha3 (ResumeGetNonce A c) p) = Nonce A (Nat.max c (S n)) /\
  pendingNonces (snd (step sha3 (ResumeGetNonce A c) p)) !! A
  = Some (S (Nat.max c (S n))).
Proof.
  intros Hn. simpl. rewrite Hn. simpl.
  replace (Nat.max c (S n) + 1) with (S (Nat.max c (S n))) by lia.
  split; [reflexivity | apply lookup_insert_eq].
Qed.

Lemma task_is_getNonce_dec (t : Task) :
  {c | t = ResumeGetNonce A c} + {forall c, t <> ResumeGetNonce A c}.
Proof.
  destruct t as [stx w o n|r s|a c|a l]; try (right; intros; discriminate).
  destruct (decide (a = A)) as [->|Hne]; [left; eauto|].
  right. intros c' E. injection E as E _. contradiction.
Qed.

Lemma counts_for_cons (t : Task) (ts : list Task) :
  counts_for A (t :: ts) = (counts_for A [t] ++ counts_for A ts)%list.
Proof. unfold counts_for. simpl. now destruct t; try destruct (decide _). Qed.

(** While no task invalidates [A], a reservation [lastIssued(A) = n]
    is never undercut by any run of the event loop. *)
Lemma reservation_kept_in_runs (n : nat) (ts : list Task)
    (p : Process) :
  pendingNonces p !! A = Some (S n) ->
  no_invalidation sha3 A ts p = true ->
  never_reissued sha3 A n ts p /\
  head (nonces_for A (fst (run sha3 ts p)))
  = (fun c => Nat.max c (S n)) <$> head (counts_for A ts) /\
  exists n', n <= n' /\ pendingNonces (snd (run sha3 ts p)) !! A = Some (S n').
Proof.
  unfold never_reissued. revert n p.
  induction ts as [|t ts IH]; intros n p Hn Hno.
  - simpl. split; [constructor|]. split; [reflexivity|]. exists n. split; [lia | exact Hn].
  - simpl in Hno. apply andb_true_iff in Hno as [Hinv Hno].
    apply negb_true_iff in Hinv.
    rewrite run_cons. cbn [fst snd]. rewrite nonces_for_cons, counts_for_cons.
    destruct (task_is_getNonce_dec t) as [[c ->]|Hnot].
    + destruct (step_getNonce c n p Hn) as [Hr Hp].
      destruct (IH (Nat.max c (S n)) _ Hp Hno) as (IH1 & _ & n' & Hle & IH3).
      rewrite Hr. unfold nonces_for at 1, counts_for at 1. simpl.
      destruct (decide (A = A)) as [_|Hne]; [|congruence]. simpl.
      split; [|split].
      * constructor; [lia|]. eapply Forall_impl; [exact IH1|].
        simpl. intros v Hv. lia.
      * reflexivity.
      * exists n'. split; [lia | exact IH3].
    + destruct (step_keeps_entry t p Hinv Hnot) as [Hk Hr].
      rewrite Hr. rewrite <- Hk in Hn.
      destruct (IH n _ Hn Hno) as (IH1 & IH2 & IH3).
      assert (Hc : counts_for A [t] = []).
      { unfold counts_for. destruct t as [stx w o m|r s|a c|a l]; try reflexivity.
        simpl. destruct (decide (a = A)) as [->|]; [|reflexivity].
        now destruct (Hnot c). }
      rewrite Hc. simpl. split; [exact IH1|]. split; [exact IH2 | exact IH3].
Qed.

End Reservation.

(** ** The mint chain *)

Lemma invocations_app (j1 j2 : list ChainEvent) :
  invocations (j1 ++ j2) = (invocations j1 ++ invocations j2)%list.
Proof. apply omap_app. Qed.

Lemma sleeps_app (j1 j2 : list ChainEvent) :
  sleeps (j1 ++ j2) = (sleeps j1 ++ sleeps j2)%list.
Proof. apply omap_app. Qed.

Lemma silent_app (j1 j2 : list ChainEvent) :
  silent j1 -> silent j2 -> silent (j1 ++ j2).
Proof.
  intros [H1 H2] [H3 H4]. split.
  - now rewrite invocations_app, H1, H3.
  - now rewrite sleeps_app, H2, H4.
Qed.

Section Silence.

Context {A B : Type}.

Lemma es_ret (a : A) : extends_silently (Async.ret a).
Proof. intros w. exists []. simpl. rewrite app_nil_r. repeat split. Qed.

Lemma es_throw (e : JsError) : extends_silently (@Async.throw A e).
Proof. intros w. exists []. simpl. rewrite app_nil_r. repeat split. Qed.

Lemma es_await (r : JS.outcome A JsError) : extends_silently (Async.await r).
Proof. destruct r; [apply es_ret | apply es_throw]. Qed.

Lemma es_manager (f : Process -> A * Process) : extends_silently (Async.manager f).
Proof.
  intros w. exists []. unfold Async.manager.
  destruct (f (process w)). simpl. rewrite app_nil_r. repeat split.
Qed.

Lemma es_bind (m : Async.M A) (k : A -> Async.M B) :
  extends_silently m -> (forall a, extends_silently (k a)) ->
  extends_silently (m ≫= k).
Proof.
  intros Hm Hk w. unfold mbind, async_bind, Async.bind.
  destruct (Hm w) as [j1 [E1 S1]]. destruct (m w) as [[a|e] w1]; simpl in *.
  - destruct (Hk a w1) as [j2 [E2 S2]]. exists (j1 ++ j2)%list.
    rewrite E2, E1, app_assoc. split; [reflexivity | now apply silent_app].
  - exists j1. split; assumption.
Qed.

End Silence.

Lemma es_record (e : ChainEvent) :
  match e with Invoked _ _ | Sleep _ => False | _ => True end ->
  extends_silently (Async.record e).
Proof. intros He w. exists [e]. split; [reflexivity|]. destruct e; try contradiction; split; reflexivity. Qed.

Ltac silence :=
  repeat first
    [ apply es_ret | apply es_throw | apply es_await | apply es_manager
    | apply es_record; exact I
    | apply es_bind; [|intros ?]
    | match goal with
      | |- extends_silently (match ?x with _ => _ end) => destruct x
      | |- extends_silently (if ?x then _ else _) => destruct x
      end ].

Section ChainFacts.

Variable sha3 : string -> string.
Variable CONFIG : Config.
Variable raise_gas_price : string -> string.
Variable answers : string -> nat -> Attempt.

Lemma es_getNonceM (a : string) (c : JS.outcome nat JsError) :
  extends_silently (getNonceM a c).
Proof. unfold getNonceM. silence. Qed.

Lemma es_sendTransactionM stx a o n s :
  extends_silently (sendTransactionM sha3 stx a o n s).
Proof. unfold sendTransactionM. silence. Qed.

Lemma es_checkWallet (a : Attempt) (wa : string) :
  extends_silently (checkWallet a wa).
Proof. unfold checkWallet. silence. Qed.


Lemma es_attempt_v2 (wa : string) (k : nat) :
  extends_silently (attempt_v2 sha3 CONFIG raise_gas_price answers wa k).
Proof.
  unfold attempt_v2. cbv zeta.
  apply es_bind; [apply es_checkWallet | intros ?].
  apply es_bind; [silence | intros ?].
  apply es_bind; [silence | intros ?].
  apply es_bind; [silence | intros ?].
  apply es_bind; [silence | intros ?].
  apply es_bind; [apply es_getNonceM | intros ?].
  apply es_bind; [silence | intros ?].
  apply es_bind; [silence | intros ?].
  apply es_bind; [silence | intros ?].
  apply es_bind; [apply es_sendTransactionM | intros ?].
  silence.
Qed.


(** One activation, in terms of the outcome of its [try] block. *)
Lemma v2_activation (fuel : nat) (wa : string) (k : nat) (w : World) :
  sendMonadMintTx_v2_fuel sha3 CONFIG raise_gas_price answers (S fuel) wa k w
  = match attempt_v2 sha3 CONFIG raise_gas_price answers wa k (entered wa k w) with
    | (inl receipt, w') => (inl (Some receipt), w')
    | (inr error, w') =>
        catch_v2 CONFIG
          (sendMonadMintTx_v2_fuel sha3 CONFIG raise_gas_price answers fuel wa (k + 1))
          wa k error w'
    end.
Proof.
  simpl. unfold mbind, async_bind, Async.bind, Async.try_catch, entered. simpl.
  destruct (attempt_v2 _ _ _ _ _ _ _) as [[r|e] w']; reflexivity.
Qed.

Lemma v1_activation (fuel : nat) (wa : string) (k : nat) (w : World) :
  sendMonadMintTx_v1_fuel sha3 CONFIG answers (S fuel) wa k w
  = match attempt_v1 sha3 CONFIG answers wa k (entered wa k w) with
    | (inl receipt, w') => (inl (Some receipt), w')
    | (inr error, w') =>
        catch_v1 CONFIG
          (sendMonadMintTx_v1_fuel sha3 CONFIG answers fuel wa (k + 1))
          wa k error w'
    end.
Proof.
  simpl. unfold mbind, async_bind, Async.bind, Async.try_catch, entered. simpl.
  destruct (attempt_v1 _ _ _ _ _ _) as [[r|e] w']; reflexivity.
Qed.

Lemma nd_activation (fuel : nat) (wa : string) (k : nat) (w : World) :
  sendMonadMintTx_2nd_fuel sha3 CONFIG answers (S fuel) wa k w
  = match attempt_2nd sha3 CONFIG answers wa k (entered wa k w) with
    | (inl receipt, w') => (inl (Some receipt), w')
    | (inr error, w') =>
        catch_v1 CONFIG
          (sendMonadMintTx_2nd_fuel sha3 CONFIG answers fuel wa (k + 1))
          wa k error w'
    end.
Proof.
  simpl. unfold mbind, async_bind, Async.bind, Async.try_catch, entered. simpl.
  destruct (attempt_2nd _ _ _ _ _ _) as [[r|e] w']; reflexivity.
Qed.

Lemma fst_sendTransaction_await stx a o n s p :
  fst (sendTransaction_await sha3 stx a o n s p) = settle_result s.
Proof. unfold sendTransaction_await. simpl. now destruct (settle_result s). Qed.

End ChainFacts.

Section ChainOutcomes.

Variable sha3 : string -> string.
Variable CONFIG : Config.
Variable raise_gas_price : string -> string.
Variable answers : string -> nat -> Attempt.

Ltac unfold_async :=
  unfold checkWallet, getNonceM, sendTransactionM, mbind, async_bind,
         Async.bind, Async.await, Async.manager, Async.record, Async.ret,
         Async.throw;
  cbn [wallet activeContract activeContractAddress mintMethod mintPrice
       currentGasPrice accountAddress transactionCount signedTransaction
       clock race].

Ltac run_attempt H :=
  match type of H with
  | reaches_broadcast ?a = true =>
      unfold reaches_broadcast in H;
      destruct a as [wal ac aca mm mp cgp acc tc st cl rc];
      cbn [wallet activeContract activeContractAddress mintMethod mintPrice
           currentGasPrice accountAddress transactionCount signedTransaction
           clock race] in *;
      destruct wal as [wl|]; [|discriminate H];
      destruct aca as [ca|]; [|discriminate H];
      destruct ac as [ms|]; [|discriminate H];
      destruct tc as [count|]; [|discriminate H];
      destruct st as [stx|]; [|discriminate H];
      rewrite !andb_true_iff in H;
      destruct H as [[Hact Htruthy] Hmethod];
      unfold_async;
      rewrite ?Hact, ?Htruthy, ?Hmethod
  | reaches_broadcast_plain ?a = true =>
      unfold reaches_broadcast_plain in H;
      destruct a as [wal ac aca mm mp cgp acc tc st cl rc];
      cbn [wallet activeContract activeContractAddress mintMethod mintPrice
           currentGasPrice accountAddress transactionCount signedTransaction
           clock race] in *;
      destruct wal as [wl|]; [|discriminate H];
      destruct ac as [ms|]; [|discriminate H];
      destruct tc as [count|]; [|discriminate H];
      destruct st as [stx|]; [|discriminate H];
      rewrite !andb_true_iff in H;
      destruct H as [Hact Hmint];
      unfold_async;
      rewrite ?Hact, ?Hmint
  end.


Lemma fatal_false (e : JsError) :
  fatal e = false ->
  JS.includes (message e) "Maximum supply" = false /\
  JS.includes (message e) "not found in contract" = false.
Proof. unfold fatal. now rewrite orb_false_iff. Qed.

Lemma journal_entered (wa : string) (k : nat) (w : World) :
  journal (entered wa k w) = (journal w ++ [Invoked wa k])%list.
Proof. reflexivity. Qed.



Lemma pendingNonces_after_receipt stx a o n receipt p :
  pendingNonces (snd (sendTransaction_await sha3 stx a o n (BroadcastResolved receipt) p))
  = pendingNonces p.
Proof. reflexivity. Qed.

(** A successful activation of 2ndindex.js leaves the reservation as
    [getNonce] made it: nothing is released. *)
Lemma second_index_keeps_reservation (wa : string) (k n : nat) (w : World)
    (receipt : Receipt.t) :
  reaches_broadcast_plain (answers wa k) = true ->
  race (answers wa k) = BroadcastResolved receipt ->
  pendingNonces (process w) !! accountAddress (answers wa k) = Some (S n) ->
  exists c,
    transactionCount (answers wa k) = inl c /\
    fst (attempt_2nd sha3 CONFIG answers wa k w) = inl receipt /\
    pendingNonces (process (snd (attempt_2nd sha3 CONFIG answers wa k w)))
      !! accountAddress (answers wa k) = Some (S (Nat.max c (S n))).
Proof.
  intros H Hrace Hn. destruct w as [p0 j0]. cbn [process] in Hn.
  unfold attempt_2nd. run_attempt H.
  subst rc. exists count. split; [reflexivity|].
  unfold getNonce. cbv beta iota zeta delta [process]. rewrite Hn.
  cbv beta iota zeta.
  match goal with |- context [sendTransaction_await ?f ?a ?b ?c ?d ?e ?p] =>
    pose proof (fst_sendTransaction_await f a b c d e p) as Hs;
    pose proof (pendingNonces_after_receipt a b c d receipt p) as Hp;
    destruct (sendTransaction_await f a b c d e p) as [r p'] end.
  cbn [fst snd settle_result] in Hs, Hp. subst r.
  cbn [fst snd process JS.get JS.truthy].
  split; [reflexivity|]. rewrite Hp. cbn [pendingNonces set_pendingNonces].
  rewrite lookup_insert_eq. f_equal. simpl. lia.
Qed.

End ChainOutcomes.

Section ChainClaims.

Variable sha3 : string -> string.
Variable CONFIG : Config.
Variable raise_gas_price : string -> string.
Variable answers : string -> nat -> Attempt.

(** With the fuel [sendMonadMintTx] starts from, the recursion always
    comes to an end by itself: the chain returns a receipt or throws. *)
Lemma v2_terminates (wa : string) :
  forall n k fuel w,
    MAX_RETRY_COUNT CONFIG - k = n -> n < fuel ->
    fst (sendMonadMintTx_v2_fuel sha3 CONFIG raise_gas_price answers fuel wa k w)
    <> inl None.
Proof.
  induction n as [|n IH]; intros k fuel w Hn Hfuel;
    (destruct fuel as [|fuel]; [lia|]); rewrite v2_activation;
    destruct (attempt_v2 _ _ _ _ _ _ _) as [[r|e] w1]; try discriminate;
    unfold catch_v2;
    destruct (JS.includes (message e) "Maximum supply"); try discriminate;
    destruct (JS.includes (message e) "not found in contract"); try discriminate;
    destruct (Nat.ltb_spec k (MAX_RETRY_COUNT CONFIG)); try discriminate; try lia.
  unfold mbind, async_bind, Async.bind, Async.record. cbv zeta.
  apply IH; lia.
Qed.

Lemma v1_terminates (wa : string) :
  forall n k fuel w,
    MAX_RETRY_COUNT CONFIG - k = n -> n < fuel ->
    fst (sendMonadMintTx_v1_fuel sha3 CONFIG answers fuel wa k w) <> inl None.
Proof.
  induction n as [|n IH]; intros k fuel w Hn Hfuel;
    (destruct fuel as [|fuel]; [lia|]); rewrite v1_activation;
    destruct (attempt_v1 _ _ _ _ _ _) as [[r|e] w1]; try discriminate;
    unfold catch_v1;
    destruct (Nat.ltb_spec k (MAX_RETRY_COUNT CONFIG)); try discriminate; try lia.
  unfold mbind, async_bind, Async.bind, Async.record. cbv zeta.
  apply IH; lia.
Qed.

Lemma nd_terminates (wa : string) :
  forall n k fuel w,
    MAX_RETRY_COUNT CONFIG - k = n -> n < fuel ->
    fst (sendMonadMintTx_2nd_fuel sha3 CONFIG answers fuel wa k w) <> inl None.
Proof.
  induction n as [|n IH]; intros k fuel w Hn Hfuel;
    (destruct fuel as [|fuel]; [lia|]); rewrite nd_activation;
    destruct (attempt_2nd _ _ _ _ _ _) as [[r|e] w1]; try discriminate;
    unfold catch_v1;
    destruct (Nat.ltb_spec k (MAX_RETRY_COUNT CONFIG)); try discriminate; try lia.
  unfold mbind, async_bind, Async.bind, Async.record. cbv zeta.
  apply IH; lia.
Qed.

Lemma sendMonadMintTx_total (rev : Revision) (wa : string) (k : nat) (w : World) :
  exists r : JS.outcome Receipt.t JsError,
    chain_promise
      (fst (sendMonadMintTx rev sha3 CONFIG raise_gas_price answers wa k w))
    = Some r.
Proof.
  assert (H : fst (sendMonadMintTx rev sha3 CONFIG raise_gas_price answers wa k w)
              <> inl None).
  { destruct rev; unfold sendMonadMintTx, enough_fuel.
    - eapply v1_terminates; [reflexivity | lia].
    - eapply v2_terminates; [reflexivity | lia].
    - eapply nd_terminates; [reflexivity | lia]. }
  destruct (fst (sendMonadMintTx rev sha3 CONFIG raise_gas_price answers wa k w))
    as [[r|]|e]; [eexists; reflexivity | congruence | eexists; reflexivity].
Qed.


(** C6, for the revision that classifies errors (second index.js of
    part_000). When the [try] block of activation [k] throws an error
    whose message contains "Maximum supply" or "not found in contract",
    the chain throws that error at once: its journal from that
    activation on holds this one activation and no wait. *)
Theorem fatal_error_not_retried (wa : string) (k : nat) (w : World) (e : JsError) :
  fst (attempt_v2 sha3 CONFIG raise_gas_price answers wa k (entered wa k w)) = inr e ->
  JS.includes (message e) "Maximum supply"
    || JS.includes (message e) "not found in contract" = true ->
  exists j,
    fst (sendMonadMintTx PartV2 sha3 CONFIG raise_gas_price answers wa k w) = inr e /\
    journal (snd (sendMonadMintTx PartV2 sha3 CONFIG raise_gas_price answers wa k w))
      = (journal w ++ j)%list /\
    invocations j = [k] /\
    sleeps j = [].
Proof.
  intros Ho Hfatal. unfold sendMonadMintTx, enough_fuel. rewrite v2_activation.
  destruct (es_attempt_v2 sha3 CONFIG raise_gas_price answers wa k (entered wa k w))
    as [ja [Ej [Si Ss]]].
  destruct (attempt_v2 _ _ _ _ _ _ _) as [o w1]. cbn [fst snd] in Ho, Ej. subst o.
  unfold catch_v2.
  destruct (JS.includes (message e) "Maximum supply").
  - eexists. split; [reflexivity|]. split.
    + simpl. rewrite Ej, journal_entered, <- !app_assoc. reflexivity.
    + rewrite !invocations_app, !sleeps_app, Si, Ss. split; reflexivity.
  - simpl in Hfatal. rewrite Hfatal.
    eexists. split; [reflexivity|]. split.
    + simpl. rewrite Ej, journal_entered, <- !app_assoc. reflexivity.
    + rewrite !invocations_app, !sleeps_app, Si, Ss. split; reflexivity.
Qed.

End ChainClaims.



(** C6, as stated, fails in the first index.js of part_000 (and in
    2ndindex.js, which has the same [catch] block): the broadcast is
    reverted with "Maximum supply reached" on the first of three
    activations and the chain still makes all three, waiting 3000 ms
    twice. *)
Lemma fatal_error_retried_without_classification :
  fst (attempt_v1 ex_sha3 default_config ex_max_supply ex_A 0 (entered ex_A 0 ex_world))
    = inr (Error "execution reverted: Maximum supply reached") /\
  JS.includes "execution reverted: Maximum supply reached" "Maximum supply" = true /\
  fst (ex_chain PartV1 ex_max_supply ex_A ex_world)
    = inr (Error "execution reverted: Maximum supply reached") /\
  invocations (journal (snd (ex_chain PartV1 ex_max_supply ex_A ex_world))) = [0; 1; 2] /\
  sleeps (journal (snd (ex_chain PartV1 ex_max_supply ex_A ex_world))) = [3000; 3000]%N /\
  invocations (journal (snd (ex_chain SecondIndex ex_max_supply ex_A ex_world))) = [0; 1; 2].
Proof. repeat split; vm_compute; reflexivity. Qed.

Lemma fatal_error_not_retried_witness :
  fst (attempt_v2 ex_sha3 default_config ex_raise ex_max_supply ex_A 0
         (entered ex_A 0 ex_world))
    = inr (Error "execution reverted: Maximum supply reached") /\
  JS.includes "execution reverted: Maximum supply reached" "Maximum supply"
    || JS.includes "execution reverted: Maximum supply reached" "not found in contract"
    = true /\
  exists j,
    fst (sendMonadMintTx PartV2 ex_sha3 default_config ex_raise ex_max_supply ex_A 0 ex_world)
      = inr (Error "execution reverted: Maximum supply reached") /\
    journal (snd (sendMonadMintTx PartV2 ex_sha3 default_config ex_raise ex_max_supply
                    ex_A 0 ex_world)) = (journal ex_world ++ j)%list /\
    invocations j = [0] /\ sleeps j = [].
Proof.
  assert (H1 : fst (attempt_v2 ex_sha3 default_config ex_raise ex_max_supply ex_A 0
                      (entered ex_A 0 ex_world))
               = inr (Error "execution reverted: Maximum supply reached"))
    by (vm_compute; reflexivity).
  assert (H2 : JS.includes "execution reverted: Maximum supply reached" "Maximum supply"
    || JS.includes "execution reverted: Maximum supply reached" "not found in contract"
    = true) by (vm_compute; reflexivity).
  split; [exact H1|]. split; [exact H2|].
  exact (fatal_error_not_retried ex_sha3 default_config ex_raise ex_max_supply ex_A 0
           ex_world _ H1 H2).
Defined.

(** ** The batch handler *)

Lemma promise_all_rejected_stays {A} (n : nat) (e : JsError)
    (post : list (nat * JS.outcome A JsError)) :
  fold_left (fun st s => PromiseAll.settle n st (fst s) (snd s)) post
            (PromiseAll.Rejected e)
  = PromiseAll.Rejected e.
Proof. induction post as [|s post IH]; [reflexivity | exact IH]. Qed.

Lemma promise_all_pending {A} (n : nat) (pre : list (nat * JS.outcome A JsError))
    (got : gmap nat A) :
  Forall fulfilled pre -> size got + length pre < n ->
  exists got',
    fold_left (fun st s => PromiseAll.settle n st (fst s) (snd s)) pre
              (PromiseAll.Pending got)
    = PromiseAll.Pending got' /\ size got' <= size got + length pre.
Proof.
  revert got. induction pre as [|[i r] pre IH]; intros got Hall Hlen.
  - exists got. simpl. split; [reflexivity | lia].
  - apply Forall_cons in Hall as [Hf Hall]. destruct r as [v|e]; [|contradiction Hf].
    simpl in Hlen. simpl.
    assert (Hsz : size (<[i := v]> got) <= S (size got)).
    { destruct (got !! i) as [x|] eqn:E.
      - rewrite map_size_insert_Some by eauto. lia.
      - rewrite map_size_insert_None by exact E. lia. }
    destruct (Nat.eqb_spec (size (<[i := v]> got)) n) as [Heq|_]; [lia|].
    destruct (IH (<[i := v]> got) Hall) as [got' [E Hs]]; [lia|].
    exists got'. split; [exact E | lia].
Qed.

(** As soon as one chain rejects while fewer than all have fulfilled,
    [Promise.all] rejects: the handler logs the error and reports "some
    mints failed", whatever the other chains do afterwards, and reports
    no count. *)
Lemma onMint_rejects_at_first_failure (CONFIG : Config) (activeWallets : list Wallet)
    (c : string) (pre post : list (nat * JS.outcome Receipt.t JsError))
    (i : nat) (e : JsError) :
  JS.truthy (JS.Str c) = true ->
  Forall fulfilled pre -> length pre < length activeWallets ->
  onMint CONFIG (ADMIN_ID CONFIG) activeWallets (Some c) (pre ++ (i, inr e) :: post)
  = [BotSend (StartingBatch (length activeWallets) (String.substring 0 8 c));
     LoggerError "batch_mint_error" (message e);
     BotSend SomeMintsFailed].
Proof.
  intros Hc Hpre Hlen. unfold onMint.
  rewrite Z.eqb_refl. simpl negb. cbv iota.
  destruct (Nat.eqb_spec (length activeWallets) 0) as [E|Hn]; [lia|].
  rewrite Hc. f_equal.
  unfold PromiseAll.run, PromiseAll.init.
  destruct (Nat.eqb_spec (length activeWallets) 0) as [E|_]; [lia|].
  rewrite fold_left_app.
  destruct (promise_all_pending (length activeWallets) pre ∅ Hpre) as [got' [-> _]].
  { rewrite map_size_empty. simpl. lia. }
  simpl. rewrite promise_all_rejected_stays. reflexivity.
Qed.

(** C7 at the batch of the specification: three wallets, the chains of
    the first two succeed at once, the third is refused by the node on
    all three activations. The handler does not raise, but what it sends
    is "some mints failed" with no success count, the same report as if
    all three had failed; and it sends it as soon as that chain has
    rejected, here even when it is the first to settle. *)
Theorem batch_partial_failure_reports_no_count :
  ex_batch_settlements
    = [(0, inl ex_receipt); (1, inl ex_receipt); (2, inr (Error "connection refused"))] /\
  onMint default_config (ADMIN_ID default_config) ex_wallets (Some ex_contract)
    ex_batch_settlements
    = [BotSend (StartingBatch 3 "0x1aa689");
       LoggerError "batch_mint_error" "connection refused";
       BotSend SomeMintsFailed] /\
  reported_counts (onMint default_config (ADMIN_ID default_config) ex_wallets
                     (Some ex_contract) ex_batch_settlements) = None /\
  onMint default_config (ADMIN_ID default_config) ex_wallets (Some ex_contract)
    [(2, inr (Error "connection refused"))]
    = onMint default_config (ADMIN_ID default_config) ex_wallets (Some ex_contract)
        ex_batch_settlements /\
  onMint default_config (ADMIN_ID default_config) ex_wallets (Some ex_contract)
    [(0, inr (Error "connection refused")); (1, inr (Error "connection refused"));
     (2, inr (Error "connection refused"))]
    = onMint default_config (ADMIN_ID default_config) ex_wallets (Some ex_contract)
        ex_batch_settlements /\
  onMint default_config (ADMIN_ID default_config) (take 2 ex_wallets) (Some ex_contract)
    (take 2 ex_batch_settlements)
    = [BotSend (StartingBatch 2 "0x1aa689"); BotSend (BatchComplete 2 2)].
Proof. repeat split; vm_compute; reflexivity. Qed.

(** ** The release of 2ndindex.js *)

(** [getNonce] returns a number, so [nonceData.release] is undefined and
    the release branch of 2ndindex.js is never taken. *)
Lemma release_never_taken (nonce : nat) :
  JS.truthy (JS.get (JS.Num (Z.of_nat nonce)) "release") = false.
Proof. reflexivity. Qed.

(** ** The reservation, across the whole program *)

(** C2, as the code has it. While no [sendTransaction] of [A] fails with
    a message containing "nonce" or "underpriced" (the failure that
    deletes the entry of [A]), a reservation [lastIssued(A) = n] is never
    undercut: whatever the manager runs (allocations, submissions for any
    address, their settlements and late settlements, history queries),
    every nonce later returned for [A] is above [n], the first of them is
    [max(onChainCount, n+1)] for the count seen by that call, and the
    entry of [A] still holds a value above [n] at the end. The revision
    with a release call is covered: [getNonce] returns a number, the
    release branch is never taken, and a successful activation of that
    revision for the account [A] leaves the entry at one more than the
    nonce it was given. *)
Theorem reservation_kept_without_invalidation (sha3 : string -> string)
    (A : string) (n : nat) (ts : list Task) (p : Process) :
  pendingNonces p !! A = Some (S n) ->
  no_invalidation sha3 A ts p = true ->
  never_reissued sha3 A n ts p /\
  head (nonces_for A (fst (run sha3 ts p)))
    = (fun c => Nat.max c (S n)) <$> head (counts_for A ts) /\
  (exists n', n <= n' /\ pendingNonces (snd (run sha3 ts p)) !! A = Some (S n')) /\
  (forall nonce, JS.truthy (JS.get (JS.Num (Z.of_nat nonce)) "release") = false) /\
  (forall CONFIG answers wa k j receipt,
     reaches_broadcast_plain (answers wa k) = true ->
     race (answers wa k) = BroadcastResolved receipt ->
     accountAddress (answers wa k) = A ->
     exists c,
       transactionCount (answers wa k) = inl c /\
       fst (attempt_2nd sha3 CONFIG answers wa k {| process := p; journal := j |})
         = inl receipt /\
       pendingNonces
         (process (snd (attempt_2nd sha3 CONFIG answers wa k
                          {| process := p; journal := j |}))) !! A
       = Some (S (Nat.max c (S n)))).
Proof.
  intros Hn Hno.
  destruct (reservation_kept_in_runs sha3 A n ts p Hn Hno) as (H1 & H2 & H3).
  split; [exact H1|]. split; [exact H2|]. split; [exact H3|].
  split; [exact release_never_taken|].
  intros CONFIG answers wa k j receipt Hr Hrace Hacc.
  rewrite <- Hacc in Hn |- *.
  exact (second_index_keeps_reservation sha3 CONFIG answers wa k n
           {| process := p; journal := j |} receipt Hr Hrace Hn).
Qed.

(** C2, as stated, fails. [ex_A] holds the reservation [lastIssued = 5]
    (the map stores 6) with a submission in flight; the submission is
    rejected with "nonce too low", [sendTransaction] deletes the entry,
    and the next [getNonce] returns the on-chain count 3, which is not
    above 5. *)
Lemma reservation_undercut_after_invalidation :
  pendingNonces ex_issued !! ex_A = Some (S 5) /\
  nonces_for ex_A (fst (run ex_sha3 ex_reissue ex_issued)) = [3] /\
  ~ never_reissued ex_sha3 ex_A 5 ex_reissue ex_issued.
Proof.
  assert (H : nonces_for ex_A (fst (run ex_sha3 ex_reissue ex_issued)) = [3])
    by (vm_compute; reflexivity).
  split; [vm_compute; reflexivity|]. split; [exact H|].
  unfold never_reissued. rewrite H. intros Hall.
  apply Forall_cons in Hall as [Hlt _]. lia.
Qed.

Lemma reservation_kept_witness :
  pendingNonces ex_issued !! ex_A = Some (S 5) /\
  no_invalidation ex_sha3 ex_A ex_no_reissue ex_issued = true /\
  never_reissued ex_sha3 ex_A 5 ex_no_reissue ex_issued.
Proof.
  assert (H1 : pendingNonces ex_issued !! ex_A = Some (S 5)) by (vm_compute; reflexivity).
  assert (H2 : no_invalidation ex_sha3 ex_A ex_no_reissue ex_issued = true)
    by (vm_compute; reflexivity).
  split; [exact H1|]. split; [exact H2|].
  exact (proj1 (reservation_kept_without_invalidation ex_sha3 ex_A 5 ex_no_reissue
                  ex_issued H1 H2)).
Defined.


(** ** Runs that complete *)

Lemma nonce_run_cons (chain : string -> nat) (c : NonceCall) s tr s' :
  nonce_run chain s tr s' ->
  nonce_run chain (fst s, c :: snd s) tr (fst s', c :: snd s').
Proof.
  induction 1 as [s|pn pool i a tr s' Hi Hrun IH].
  - apply run_stop.
  - simpl. apply (run_resume chain pn (c :: pool) (S i) a tr _ Hi). exact IH.
Qed.

(** Every pool can be run until all its activations have returned. *)
Lemma nonce_run_completes (chain : string -> nat) (pool : list NonceCall) :
  forall pn, exists tr pn' pool',
    nonce_run chain (pn, pool) tr (pn', pool') /\
    Forall (fun c => is_returned c = true) pool'.
Proof.
  induction pool as [|c pool IH]; intros pn.
  - exists [], pn, []. split; [apply run_stop | constructor].
  - destruct c as [a|a n].
    + destruct (IH (snd (getNonce a (chain a) pn))) as (tr & pn' & pool' & Hrun & Hall).
      exists ((a, fst (getNonce a (chain a) pn)) :: tr), pn',
             (Returned a (fst (getNonce a (chain a) pn)) :: pool').
      split; [|constructor; [reflexivity | exact Hall]].
      apply (run_resume chain pn (Awaiting a :: pool) 0 a tr _ eq_refl).
      apply (nonce_run_cons chain (Returned a (fst (getNonce a (chain a) pn))) _ _ _ Hrun).
    + destruct (IH pn) as (tr & pn' & pool' & Hrun & Hall).
      exists tr, pn', (Returned a n :: pool').
      split; [|constructor; [reflexivity | exact Hall]].
      apply (nonce_run_cons chain (Returned a n) _ _ _ Hrun).
Qed.

(** [run_resume] with the result of the continuation named. *)
Lemma run_resume_eq (chain : string -> nat) (pn pn1 : gmap string nat)
    (pool pool1 : list NonceCall) (i : nat) (a : string) (n : nat)
    (tr : list (string * nat)) (s' : gmap string nat * list NonceCall) :
  pool !! i = Some (Awaiting a) ->
  getNonce a (chain a) pn = (n, pn1) ->
  pool1 = <[i := Returned a n]> pool ->
  nonce_run chain (pn1, pool1) tr s' ->
  nonce_run chain (pn, pool) ((a, n) :: tr) s'.
Proof.
  intros Hi Hg -> Hrun.
  pose proof (run_resume chain pn pool i a tr s' Hi) as H.
  rewrite Hg in H. exact (H Hrun).
Qed.

(** ** Witnesses *)

Lemma ex_pool_run :
  nonce_run ex_counts (ex_reserved, ex_pool)
    [(ex_A, 6); (ex_B, 0); (ex_A, 7)] (ex_reserved_done, ex_pool_done).
Proof.
  eapply (run_resume_eq ex_counts _ _ _ _ 2 ex_A 6);
    [reflexivity | reflexivity | reflexivity |].
  eapply (run_resume_eq ex_counts _ _ _ _ 1 ex_B 0);
    [reflexivity | reflexivity | reflexivity |].
  eapply (run_resume_eq ex_counts _ _ _ _ 0 ex_A 7);
    [reflexivity | reflexivity | reflexivity |].
  apply run_stop.
Defined.

Lemma concurrent_getNonce_witness :
  nonce_run ex_counts (ex_reserved, ex_pool)
    [(ex_A, 6); (ex_B, 0); (ex_A, 7)] (ex_reserved_done, ex_pool_done) /\
  Forall (fun c => is_returned c = false) ex_pool /\
  Forall (fun c => is_returned c = true) ex_pool_done /\
  trace_for ex_A [(ex_A, 6); (ex_B, 0); (ex_A, 7)] = [6; 7] /\
  omap (returned_for ex_A) ex_pool_done ≡ₚ [6; 7].
Proof.
  assert (H0 : Forall (fun c => is_returned c = false) ex_pool)
    by (repeat constructor).
  assert (H1 : Forall (fun c => is_returned c = true) ex_pool_done)
    by (repeat constructor).
  split; [exact ex_pool_run|]. split; [exact H0|]. split; [exact H1|].
  destruct (concurrent_getNonce_contiguous ex_counts ex_A ex_reserved ex_reserved_done
              ex_pool ex_pool_done _ ex_pool_run H0 H1) as (Ht & Hp & _).
  split; [exact Ht | exact Hp].
Defined.

Lemma sendTransaction_effect_order_witness :
  forallb (fun t => negb (delivers_to 0 t)) ex_mid = true /\
  fst (step ex_sha3 (Deliver 0 (BroadcastResolved ex_receipt))
         (snd (run ex_sha3 ex_mid
                 (snd (sendTransaction_begin ex_sha3 {| rawTransaction := "f86b03" |} ex_A
                         Options.empty 1000 new_process)))))
  = Completed 0 (inl ex_receipt).
Proof.
  assert (H : forallb (fun t => negb (delivers_to 0 t)) ex_mid = true) by reflexivity.
  split; [exact H|].
  exact (proj1 (proj2 (proj2 (proj2 (proj2
           (sendTransaction_effect_order ex_sha3 {| rawTransaction := "f86b03" |} ex_A
              Options.empty 1000 ex_mid ex_post (BroadcastResolved ex_receipt)
              new_process H)))))).
Defined.

(** The run of the witness, effect by effect: the prefix of the call,
    the submission of [ex_B] begun and timed out in between, then the
    continuation of the call. *)
Example interleaved_submission_effects :
  let raw := {| rawTransaction := "f86b03" |} in
  let p1 := snd (sendTransaction_begin ex_sha3 raw ex_A Options.empty 1000 new_process) in
  let p3 := snd (run ex_sha3 (ex_mid ++ [Deliver 0 (BroadcastResolved ex_receipt)]) p1) in
  (fun e => match e with
            | WriteFile content => WriteFile []
            | _ => e
            end) <$> effects p3
  = [Sha3 "f86b03"; WriteFile []; SetTimeout (JS.Num 120000);
     SendSignedTransaction "f86b03";
     Sha3 "f86b07"; WriteFile []; SetTimeout (JS.Num 120000);
     SendSignedTransaction "f86b07";
     WriteFile [];
     LogAction "transaction_failed" (ex_sha3 "f86b07") ex_B (JS.Str "Transaction timeout");
     Throw 1 (Error "Transaction timeout");
     WriteFile [];
     LogAction "transaction_confirmed" (ex_sha3 "f86b03") ex_A JS.undefined;
     Return 0 ex_receipt] /\
  (fun tx => (TxRecord.from tx, TxRecord.status tx, TxRecord.blockNumber tx))
    <$> history_records p3
  = [(ex_B, failed, None); (ex_A, confirmed, Some 77%N)].
Proof. cbv zeta. apply conj; vm_compute; reflexivity. Qed.

(** C3, as stated, fails for the timer: called with [timeout: 0] the
    manager does not race the broadcast against a timer of the given
    timeout but against one of 120000 ms, because [options.timeout ||
    120000] takes 0 for an absent value (as [TX_TIMEOUT=0] in the
    environment gives it). *)
Lemma zero_timeout_races_default_timer :
  let p1 := snd (sendTransaction_begin ex_sha3 {| rawTransaction := "f86b03" |} ex_A
                   ex_zero_timeout 1000 new_process) in
  Options.timeout ex_zero_timeout = JS.Num 0 /\
  effects p1
  = [Sha3 "f86b03"; WriteFile (history_records p1); SetTimeout (JS.Num 120000);
     SendSignedTransaction "f86b03"] /\
  ~ In (SetTimeout (JS.Num 0)) (effects p1).
Proof.
  cbv zeta. apply conj; [reflexivity|]. apply conj; [vm_compute; reflexivity|].
  vm_compute. intros H. repeat (destruct H as [H|H]; [discriminate H|]). exact H.
Qed.


Lemma nonce_invalidated_witness :
  inflight ex_issued !! 0
    = Some (Racing {| f_txHash := ex_sha3 "f86b03"; f_walletAddress := ex_A;
                      f_options := Options.empty |}) /\
  settle_result (BroadcastRejected (Error "nonce too low")) = inr (Error "nonce too low") /\
  pendingNonces ex_issued !! ex_A = Some 6 /\
  pendingNonces (snd (settle 0 (BroadcastRejected (Error "nonce too low")) ex_issued))
    !! ex_A = None.
Proof.
  assert (H1 : inflight ex_issued !! 0
    = Some (Racing {| f_txHash := ex_sha3 "f86b03"; f_walletAddress := ex_A;
                      f_options := Options.empty |})) by (vm_compute; reflexivity).
  assert (H2 : settle_result (BroadcastRejected (Error "nonce too low"))
               = inr (Error "nonce too low")) by reflexivity.
  split; [exact H1|]. split; [exact H2|]. split; [vm_compute; reflexivity|].
  destruct (nonce_invalidated_on_desync 0 _ _ _ ex_issued H1 H2) as (_ & _ & H & _).
  exact (proj1 (proj2 (H eq_refl))).
Defined.

Lemma newer_rev_seq (n : nat) :
  StronglySorted (fun a b => b < a) (rev (seq 0 n)).
Proof.
  induction n as [|n IH]; [constructor|].
  rewrite seq_S, rev_app_distr. simpl. constructor; [exact IH|].
  apply Forall_forall. intros x Hx.
  apply list_elem_of_In, in_rev, in_seq in Hx. lia.
Qed.

Lemma newer_than_rev_seq (n : nat) : Forall (fun b => b < n) (rev (seq 0 n)).
Proof.
  apply Forall_forall. intros x Hx.
  apply list_elem_of_In, in_rev, in_seq in Hx. lia.
Qed.

Lemma history_append_capped_witness :
  length (txHistory ex_full) <= maxHistoryItems /\
  StronglySorted (fun a b => b < a) (txHistory ex_full) /\
  Forall (fun b => b < 100) (txHistory ex_full) /\
  head (txHistory (snd (sendTransaction_begin ex_sha3 {| rawTransaction := "f86b65" |}
                          ex_B Options.empty 2000 ex_full))) = Some 100 /\
  length (txHistory (snd (sendTransaction_begin ex_sha3 {| rawTransaction := "f86b65" |}
                            ex_B Options.empty 2000 ex_full))) <= maxHistoryItems.
Proof.
  assert (E : txHistory ex_full = rev (seq 0 100)) by (vm_compute; reflexivity).
  assert (R : fst (sendTransaction_begin ex_sha3 {| rawTransaction := "f86b65" |}
                     ex_B Options.empty 2000 ex_full) = 100) by (vm_compute; reflexivity).
  assert (H1 : length (txHistory ex_full) <= maxHistoryItems)
    by (rewrite E; vm_compute; lia).
  assert (H2 : StronglySorted (fun a b => b < a) (txHistory ex_full))
    by (rewrite E; apply newer_rev_seq).
  assert (H3 : Forall (fun b => b < 100) (txHistory ex_full))
    by (rewrite E; apply newer_than_rev_seq).
  split; [exact H1|]. split; [exact H2|]. split; [exact H3|].
  pose proof (history_append_capped ex_sha3 (fun a b => b < a)
                {| rawTransaction := "f86b65" |} ex_B Options.empty 2000 ex_full) as H.
  cbv zeta in H. rewrite R in H.
  destruct (H H1 H2 H3) as (Hh & Hl & _). split; [exact Hh | exact Hl].
Defined.

(** The 101st record at the cap of 100: the oldest reference (0) is gone,
    the newest (100) is first and the others keep their order. *)
Example history_eviction_at_cap :
  txHistory ex_full = rev (seq 0 100) /\
  txHistory (snd (sendTransaction_begin ex_sha3 {| rawTransaction := "f86b65" |}
                    ex_B Options.empty 2000 ex_full)) = rev (seq 1 100).
Proof. split; vm_compute; reflexivity. Qed.

Lemma getTransactionHistory_case_witness :
  differ_only_in_case "0xa1" "0xA1" = true /\
  getTransactionHistory (Some "0xa1") 10 ex_issued
  = getTransactionHistory (Some "0xA1") 10 ex_issued /\
  getTransactionHistory (Some "0xa1") 10 ex_issued <> [].
Proof.
  assert (H : differ_only_in_case "0xa1" "0xA1" = true) by reflexivity.
  split; [exact H|].
  destruct (getTransactionHistory_case_insensitive ex_sha3 ex_issued 10
              "0xa1" "0xA1" H) as (H1 & _ & _ & H2 & _).
  split; [exact H1|].
  destruct (H2 ltac:(discriminate) ltac:(lia)) as (_ & _ & H3).
  apply (H3 (pending_record ex_sha3 {| rawTransaction := "f86b03" |} ex_A
               Options.empty 1000)); [|reflexivity|lia].
  vm_compute. apply list_elem_of_here.
Defined.

(** Both spellings select the one record of [ex_A]. *)
Example getTransactionHistory_case_example :
  TxRecord.from <$> getTransactionHistory (Some "0xa1") 10 ex_issued = ["0xA1"] /\
  TxRecord.from <$> getTransactionHistory (Some "0Xa1") 10 ex_issued = ["0xA1"] /\
  getTransactionHistory (Some "0xb2") 10 ex_issued = [].
Proof. repeat split; vm_compute; reflexivity. Qed.

(* ===================================================================== *)
(** * Further properties of the transaction manager                       *)
(* ===================================================================== *)

(** ** Restart *)

Lemma omap_ext_in {A B} (f g : A -> option B) (l : list A) :
  (forall x, x ∈ l -> f x = g x) -> omap f l = omap g l.
Proof.
  induction l as [|x l IH]; intros H; [reflexivity|].
  assert (Hx : f x = g x) by apply H, list_elem_of_here.
  assert (Hl : omap f l = omap g l).
  { apply IH. intros y Hy. apply H. now apply list_elem_of_further. }
  change (omap f (x :: l))
    with (match f x with Some y => y :: omap f l | None => omap f l end).
  change (omap g (x :: l))
    with (match g x with Some y => y :: omap g l | None => omap g l end).
  now rewrite Hx, Hl.
Qed.

Lemma omap_lookup_seq {A} (l : list A) (k : nat) :
  omap (fun i => l !! (i - k)) (seq k (length l)) = l.
Proof.
  revert k. induction l as [|x l IH]; intros k; [reflexivity|].
  change (seq k (length (x :: l))) with (k :: seq (S k) (length l)).
  change (omap (fun i => (x :: l) !! (i - k)) (k :: seq (S k) (length l)))
    with (match (x :: l) !! (k - k) with
          | Some y => y :: omap (fun i => (x :: l) !! (i - k)) (seq (S k) (length l))
          | None => omap (fun i => (x :: l) !! (i - k)) (seq (S k) (length l))
          end).
  rewrite Nat.sub_diag. simpl lookup. f_equal.
  rewrite <- (IH (S k)) at 2. apply omap_ext_in.
  intros i Hi. apply list_elem_of_In, in_seq in Hi.
  replace (i - k) with (S (i - S k)) by lia. reflexivity.
Qed.

Lemma history_records_construct (records : list TxRecord.t) :
  history_records (construct (Parsed records)) = records.
Proof.
  unfold history_records. simpl.
  transitivity (omap (fun i => records !! (i - 0)) (seq 0 (length records)));
    [|apply omap_lookup_seq].
  apply omap_ext_in.
  intros i _. rewrite lookup_map_seq_0, Nat.sub_0_r. reflexivity.
Qed.

Lemma in_sync_construct (f : HistoryFile) : in_sync (construct f).
Proof.
  destruct f as [| |records].
  - right. split; reflexivity.
  - right. split; reflexivity.
  - left. now rewrite history_records_construct.
Qed.

Lemma in_sync_step (sha3 : string -> string) (t : Task) (p : Process) :
  in_sync p -> in_sync (snd (step sha3 t p)).
Proof.
  intros H. destruct t as [stx w o n|r s|a c|a l]; simpl.
  - left. reflexivity.
  - unfold settle. destruct (inflight p !! r) as [[fr|x]|]; try exact H.
    destruct (settle_result s) as [receipt|e]; simpl.
    + left. reflexivity.
    + left. unfold on_rejected. now destruct (nonce_desync e).
  - exact H.
  - exact H.
Qed.

Lemma in_sync_run (sha3 : string -> string) (ts : list Task) (p : Process) :
  in_sync p -> in_sync (snd (run sha3 ts p)).
Proof.
  revert p. induction ts as [|t ts IH]; intros p H; [exact H|].
  rewrite run_cons. simpl. apply IH. now apply in_sync_step.
Qed.

Lemma history_records_restart (p : Process) :
  in_sync p -> history_records (restart p) = history_records p.
Proof.
  unfold restart. intros [H|[H1 H2]].
  - rewrite H. apply history_records_construct.
  - rewrite H1, H2. reflexivity.
Qed.

(** X1. Whatever the manager has done since it was constructed, its
    history file holds its in-memory history: stopping the process and
    constructing a new manager on the same disk gives back the same
    records in the same order; the nonce reservations are gone (the next
    [getNonce] of any address returns the on-chain count) and no
    activation is in flight. *)
Theorem restart_recovers_history (sha3 : string -> string) (f : HistoryFile)
    (ts : list Task) :
  let p := snd (run sha3 ts (construct f)) in
  in_sync p /\
  history_records (restart p) = history_records p /\
  length (txHistory (restart p)) = length (history_records p) /\
  (forall a c, fst (getNonce a c (pendingNonces (restart p))) = c) /\
  inflight (restart p) = ∅.
Proof.
  intros p.
  assert (Hs : in_sync p) by (apply in_sync_run, in_sync_construct).
  split; [exact Hs|].
  pose proof (history_records_restart p Hs) as Hr.
  split; [exact Hr|]. split; [|split].
  - rewrite <- Hr. unfold restart.
    destruct (historyFile p) as [records|]; [|reflexivity].
    rewrite history_records_construct. simpl. apply length_seq.
  - intros a c. apply getNonce_absent. unfold restart.
    destruct (historyFile p); apply lookup_empty.
  - unfold restart. now destruct (historyFile p).
Qed.

(** ** Records without a suspended activation *)

Lemma step_frame_idle (sha3 : string -> string) (ref : nat) (t : Task) (p : Process) :
  is_Some (objects p !! ref) -> racing ref p = false ->
  objects (snd (step sha3 t p)) !! ref = objects p !! ref /\
  inflight (snd (step sha3 t p)) !! ref = inflight p !! ref.
Proof.
  intros Hobj Hidle. destruct t as [stx w o n|r s|a c|a l]; simpl.
  - assert (Hne : fresh (dom (objects p)) <> ref).
    { intros E. apply elem_of_dom in Hobj. rewrite <- E in Hobj.
      exact (is_fresh _ Hobj). }
    split; now rewrite lookup_insert_ne.
  - unfold settle. destruct (inflight p !! r) as [[fr|x]|] eqn:Er;
      try (split; reflexivity).
    assert (Hne : r <> ref).
    { intros ->. unfold racing in Hidle. rewrite Er in Hidle. discriminate. }
    destruct (settle_result s) as [receipt|e]; simpl.
    + split; [now rewrite lookup_alter_ne | now rewrite lookup_insert_ne].
    + unfold on_rejected. destruct (nonce_desync e); simpl;
        (split; [now rewrite lookup_alter_ne | now rewrite lookup_insert_ne]).
  - split; reflexivity.
  - split; reflexivity.
Qed.

(** X2. A record whose activation is not suspended on its race (it has
    settled, or the record was loaded from the file) is never changed
    again, whatever the manager runs afterwards: a terminal record stays
    as it is, and a record found Pending in the file at start stays
    Pending for the lifetime of the process. *)
Theorem idle_record_never_changes (sha3 : string -> string) (ref : nat)
    (x : TxRecord.t) (ts : list Task) (p : Process) :
  objects p !! ref = Some x ->
  racing ref p = false ->
  objects (snd (run sha3 ts p)) !! ref = Some x /\
  racing ref (snd (run sha3 ts p)) = false.
Proof.
  revert p. induction ts as [|t ts IH]; intros p Hx Hidle; [split; assumption|].
  rewrite run_cons. cbn [snd].
  destruct (step_frame_idle sha3 ref t p (mk_is_Some _ _ Hx) Hidle) as [Ho Hi].
  apply IH; [congruence|]. unfold racing in *. now rewrite Hi.
Qed.

Lemma idle_record_witness :
  objects ex_overlong !! 7
    = Some (pending_record ex_sha3 {| rawTransaction := "f86b" |} ex_A Options.empty 1000) /\
  racing 7 ex_overlong = false /\
  status_of 7 (snd (run ex_sha3 (Deliver 7 (BroadcastResolved ex_receipt) :: ex_no_reissue)
                      ex_overlong)) = Some pending.
Proof.
  assert (H1 : objects ex_overlong !! 7
    = Some (pending_record ex_sha3 {| rawTransaction := "f86b" |} ex_A Options.empty 1000))
    by (vm_compute; reflexivity).
  assert (H2 : racing 7 ex_overlong = false) by (vm_compute; reflexivity).
  split; [exact H1|]. split; [exact H2|].
  unfold status_of.
  rewrite (proj1 (idle_record_never_changes ex_sha3 7 _
                    (Deliver 7 (BroadcastResolved ex_receipt) :: ex_no_reissue)
                    ex_overlong H1 H2)).
  reflexivity.
Defined.

(** ** The length of the history *)

Lemma begins_cons (t : Task) (ts : list Task) :
  begins (t :: ts)
  = (match t with CallSendTransaction _ _ _ _ => 1 | _ => 0 end) + begins ts.
Proof. unfold begins. simpl. now destruct t. Qed.

Lemma length_unshift_capped {A} (x : A) (h : list A) :
  length (unshift_capped x h)
  = if (maxHistoryItems <=? length h)%nat then length h else S (length h).
Proof.
  destruct (Nat.leb_spec maxHistoryItems (length h)) as [Hge|Hlt].
  - rewrite unshift_capped_full by exact Hge. simpl. rewrite length_removelast.
    unfold maxHistoryItems in Hge. lia.
  - rewrite unshift_capped_below by exact Hlt. reflexivity.
Qed.

Lemma length_txHistory_step (sha3 : string -> string) (t : Task) (p : Process) :
  length (txHistory (snd (step sha3 t p)))
  = match t with
    | CallSendTransaction _ _ _ _ =>
        if (maxHistoryItems <=? length (txHistory p))%nat
        then length (txHistory p) else S (length (txHistory p))
    | _ => length (txHistory p)
    end.
Proof.
  destruct t as [stx w o n|r s|a c|a l]; simpl; try reflexivity.
  - apply length_unshift_capped.
  - unfold settle. destruct (inflight p !! r) as [[fr|x]|]; try reflexivity.
    destruct (settle_result s) as [receipt|e]; [reflexivity|].
    simpl. unfold on_rejected. now destruct (nonce_desync e).
Qed.

(** X3. The length of the history after any run, exactly: a history
    below the cap grows by one per [sendTransaction] until it holds 100
    references and then stays at 100; a history that was already over the
    cap (loaded from a longer file) never shrinks back: every append
    drops one reference and keeps the length. No other operation changes
    the length. *)
Theorem history_length_after_run (sha3 : string -> string) (ts : list Task)
    (p : Process) :
  length (txHistory (snd (run sha3 ts p)))
  = if (maxHistoryItems <=? length (txHistory p))%nat
    then length (txHistory p)
    else Nat.min maxHistoryItems (length (txHistory p) + begins ts).
Proof.
  revert p. induction ts as [|t ts IH]; intros p.
  - cbn [run snd].
    destruct (Nat.leb_spec maxHistoryItems (length (txHistory p))); [reflexivity|].
    unfold begins. cbn [List.filter length]. lia.
  - rewrite run_cons. cbn [snd]. rewrite IH, length_txHistory_step, begins_cons.
    destruct t as [stx w o n|r s|a c|a l];
      destruct (Nat.leb_spec maxHistoryItems (length (txHistory p))) as [H1|H1];
      try reflexivity;
      try (destruct (Nat.leb_spec maxHistoryItems (length (txHistory p))); [lia|reflexivity]).
    + destruct (Nat.leb_spec maxHistoryItems (length (txHistory p))); [reflexivity|lia].
    + destruct (Nat.leb_spec maxHistoryItems (S (length (txHistory p)))); lia.
Qed.

(** A history loaded from a file of 102 records still holds 102
    references after three more submissions. *)
Example overlong_history_stays_overlong :
  length (txHistory ex_overlong) = 102 /\
  length (txHistory (snd (run ex_sha3
    (replicate 3 (CallSendTransaction {| rawTransaction := "f86b65" |} ex_B
                    Options.empty 2000)) ex_overlong))) = 102.
Proof. split; vm_compute; reflexivity. Qed.

(** ** Nonces never repeat *)

Lemma step_getNonce_entry (sha3 : string -> string) (A : string) (c : nat) (p : Process) :
  exists v,
    fst (step sha3 (ResumeGetNonce A c) p) = Nonce A v /\
    pendingNonces (snd (step sha3 (ResumeGetNonce A c) p)) !! A = Some (S v).
Proof.
  exists (fst (getNonce A c (pendingNonces p))). simpl.
  split; [reflexivity|]. unfold getNonce. simpl.
  rewrite lookup_insert_eq. f_equal. lia.
Qed.

(** X4. While no [sendTransaction] of [A] fails with a nonce or
    underpriced message, the nonces handed out for [A] over any run of
    the manager are strictly increasing, whatever counts the chain
    reports (even lower ones) and whatever state the run starts from: no
    nonce is given twice. *)
Theorem nonces_strictly_increasing (sha3 : string -> string) (A : string)
    (ts : list Task) (p : Process) :
  no_invalidation sha3 A ts p = true ->
  increasing (nonces_for A (fst (run sha3 ts p))).
Proof.
  unfold increasing. revert p. induction ts as [|t ts IH]; intros p Hno.
  - constructor.
  - simpl in Hno. apply andb_true_iff in Hno as [Hinv Hno].
    apply negb_true_iff in Hinv.
    rewrite run_cons. cbn [fst]. rewrite nonces_for_cons.
    destruct (task_is_getNonce_dec A t) as [[c ->]|Hnot].
    + destruct (step_getNonce_entry sha3 A c p) as [v [Hr Hp]].
      destruct (reservation_kept_in_runs sha3 A v ts _ Hp Hno) as [Hall _].
      rewrite Hr. unfold nonces_for at 1. simpl.
      destruct (decide (A = A)) as [_|Hne]; [|congruence]. simpl.
      constructor; [now apply IH | exact Hall].
    + destruct (step_keeps_entry sha3 A t p Hinv Hnot) as [_ Hr].
      rewrite Hr. simpl. now apply IH.
Qed.

Lemma nonces_strictly_increasing_witness :
  no_invalidation ex_sha3 ex_A ex_no_reissue ex_issued = true /\
  nonces_for ex_A (fst (run ex_sha3 ex_no_reissue ex_issued)) = [6; 9] /\
  increasing (nonces_for ex_A (fst (run ex_sha3 ex_no_reissue ex_issued))).
Proof.
  assert (H : no_invalidation ex_sha3 ex_A ex_no_reissue ex_issued = true)
    by (vm_compute; reflexivity).
  split; [exact H|]. split; [vm_compute; reflexivity|].
  exact (nonces_strictly_increasing ex_sha3 ex_A ex_no_reissue ex_issued H).
Defined.

(** ** History queries *)

Lemma take_facts {A} (P : A -> Prop) (l full : list A) (n : nat) :
  l `sublist_of` full ->
  (forall x, x ∈ l <-> x ∈ full /\ P x) ->
  length (take n l) <= n /\
  take n l `sublist_of` full /\
  (forall x, x ∈ take n l -> P x) /\
  (length (take n l) < n -> forall x, x ∈ full -> P x -> x ∈ take n l).
Proof.
  intros Hsub Hin. split; [apply firstn_le_length|]. split; [|split].
  - etransitivity; [apply sublist_take | exact Hsub].
  - intros x Hx. apply subseteq_take in Hx. now apply Hin in Hx.
  - intros Hlt x Hx HP. rewrite length_take in Hlt.
    rewrite take_ge by lia. apply Hin. split; assumption.
Qed.

(** X5. A history query with a limit [n >= 0] returns at most [n]
    records, all of them selected by the address (every record when the
    address is null or empty), in the order of the store (most recent
    first), and the limit is the only thing that cuts: when fewer than
    [n] records come back, every selected record of the store is among
    them. *)
Theorem getTransactionHistory_limit (address : option string) (n : Z) (p : Process) :
  (0 <= n)%Z ->
  length (getTransactionHistory address n p) <= Z.to_nat n /\
  getTransactionHistory address n p `sublist_of` history_records p /\
  (forall tx, tx ∈ getTransactionHistory address n p -> selects address tx) /\
  (length (getTransactionHistory address n p) < Z.to_nat n ->
   forall tx, tx ∈ history_records p -> selects address tx ->
     tx ∈ getTransactionHistory address n p).
Proof.
  intros Hn. unfold getTransactionHistory.
  destruct address as [[|c a]|]; cbn [JS.truthy String.eqb negb];
    rewrite slice0_nonneg by exact Hn.
  - apply (take_facts (selects (Some EmptyString))); [reflexivity|].
    intros x. split; [intros H; split; [exact H | now left] | tauto].
  - apply (take_facts (selects (Some (String c a)))); [apply sublist_filter|].
    intros x. rewrite list_elem_of_filter. unfold selects. split.
    + intros [H1 H2]. split; [exact H2 | now right].
    + intros [H1 [H2|H2]]; [discriminate | split; assumption].
  - apply (take_facts (selects None)); [reflexivity|].
    intros x. unfold selects. tauto.
Qed.

Lemma getTransactionHistory_limit_witness :
  (0 <= 1)%Z /\
  length (getTransactionHistory (Some "0xa1") 1 ex_full) <= 1 /\
  length (getTransactionHistory (Some "0xa1") 1 ex_full) = 1.
Proof.
  assert (H : (0 <= 1)%Z) by lia.
  split; [exact H|].
  split; [exact (proj1 (getTransactionHistory_limit (Some "0xa1") 1 ex_full H))|].
  vm_compute. reflexivity.
Defined.

(** ** A submission, then a query *)

(** X6. A call of [sendTransaction] followed through the event loop,
    when no other submission begins between the call and the query (other
    settlements, nonce allocations and queries may run at any point): once
    the race of the call has been decided by [s], the first record a
    history query returns for the sending wallet (in any letter case) or
    for no address, with any limit of at least 1, is the record of this
    call, with the hash of the payload, the wallet as sender and the
    terminal status decided by [s]. *)
Theorem sent_transaction_heads_history (sha3 : string -> string)
    signedTx (walletAddress : string) options now (mid post : list Task)
    (s : Settlement) (p : Process) (address : option string) (n : Z) :
  let ref := fst (sendTransaction_begin sha3 signedTx walletAddress options now p) in
  let p1 := snd (sendTransaction_begin sha3 signedTx walletAddress options now p) in
  let p2 := snd (run sha3 mid p1) in
  let p3 := snd (step sha3 (Deliver ref s) p2) in
  let p4 := snd (run sha3 post p3) in
  forallb (fun t => negb (delivers_to ref t)) mid = true ->
  begins mid = 0 ->
  begins post = 0 ->
  (1 <= n)%Z ->
  match address with
  | Some a => JS.toLowerCase a = JS.toLowerCase walletAddress
  | None => True
  end ->
  exists tx,
    head (getTransactionHistory address n p4) = Some tx /\
    TxRecord.hash tx = sha3 (rawTransaction signedTx) /\
    TxRecord.from tx = walletAddress /\
    TxRecord.status tx = terminal_status s.
Proof.
  intros ref p1 p2 p3 p4 Hmid Hbm Hbp Hn Haddr.
  set (rec0 := pending_record sha3 signedTx walletAddress options now).
  set (fr := frame_of sha3 signedTx walletAddress options).
  assert (Hobj : objects p1 !! ref = Some rec0) by apply lookup_insert_eq.
  assert (Hrac : inflight p1 !! ref = Some (Racing fr)) by apply lookup_insert_eq.
  assert (Hhead : head (txHistory p1) = Some ref).
  { change (txHistory p1) with (unshift_capped ref (txHistory p)).
    destruct (unshift_capped_head ref (txHistory p)) as [t ->]. reflexivity. }
  destruct (run_frame_quiet sha3 ref mid p1 (mk_is_Some _ _ Hobj) Hmid) as [Ho2 Hi2].
  fold p2 in Ho2, Hi2. rewrite Hobj in Ho2. rewrite Hrac in Hi2.
  set (f := match settle_result s with
            | inl receipt => TxRecord.confirm receipt
            | inr e => TxRecord.fail e
            end).
  assert (Hset : objects p3 !! ref = Some (f rec0) /\
                 txHistory p3 = txHistory p2 /\
                 inflight p3 !! ref = Some (Settled (settle_result s))).
  { unfold p3, f. simpl. rewrite (settle_racing ref fr s p2 Hi2).
    destruct (settle_result s) as [receipt|e]; cbn [snd].
    - simpl. rewrite lookup_alter_eq, Ho2, lookup_insert_eq. repeat split.
    - unfold on_rejected. destruct (nonce_desync e); simpl;
        rewrite lookup_alter_eq, Ho2, lookup_insert_eq; repeat split. }
  destruct Hset as (Hy & Htx & Hset).
  destruct (run_frame_settled sha3 ref _ post p3 (mk_is_Some _ _ Hy) Hset) as [Ho4 _].
  fold p4 in Ho4. rewrite Hy in Ho4.
  assert (Hh4 : head (history_records p4) = Some (f rec0)).
  { apply (head_record ref); [|exact Ho4].
    unfold p4. rewrite (txHistory_run_quiet sha3 post p3 Hbp), Htx.
    unfold p2. now rewrite (txHistory_run_quiet sha3 mid p1 Hbm). }
  assert (Hrec : exists tl, history_records p4 = f rec0 :: tl).
  { destruct (history_records p4) as [|y tl]; [discriminate|].
    injection Hh4 as ->. eauto. }
  destruct Hrec as [tl Hrec].
  exists (f rec0). split; [|split; [|split]].
  - unfold getTransactionHistory. rewrite Hrec.
    assert (Htake : forall l : list TxRecord.t,
      head (JS.slice0 (f rec0 :: l) n) = Some (f rec0)).
    { intros l. rewrite slice0_nonneg by lia.
      destruct (Z.to_nat n) as [|k] eqn:E; [lia | reflexivity]. }
    assert (Hfrom : TxRecord.from (f rec0) = walletAddress)
      by (unfold f; now destruct (settle_result s)).
    destruct address as [a|]; [|apply Htake].
    destruct (JS.truthy (JS.Str a)); [|apply Htake].
    rewrite filter_cons_True by (rewrite Hfrom; congruence). apply Htake.
  - unfold f. now destruct (settle_result s).
  - unfold f. now destruct (settle_result s).
  - unfold f, terminal_status. now destruct (settle_result s).
Qed.

Lemma sent_transaction_heads_history_witness :
  forallb (fun t => negb (delivers_to 100 t)) [ResumeGetNonce ex_A 3] = true /\
  (1 <= 10)%Z /\
  JS.toLowerCase "0Xa1" = JS.toLowerCase ex_A /\
  fst (sendTransaction_begin ex_sha3 {| rawTransaction := "f86b65" |} ex_A
         Options.empty 2000 ex_full) = 100 /\
  exists tx,
    head (getTransactionHistory (Some "0Xa1") 10
            (snd (run ex_sha3 [Deliver 100 (BroadcastResolved ex_receipt)]
                    (snd (step ex_sha3 (Deliver 100 TimerFired)
                            (snd (run ex_sha3 [ResumeGetNonce ex_A 3]
                                    (snd (sendTransaction_begin ex_sha3
                                            {| rawTransaction := "f86b65" |} ex_A
                                            Options.empty 2000 ex_full)))))))))
      = Some tx /\
    TxRecord.status tx = failed.
Proof.
  assert (H1 : (1 <= 10)%Z) by lia.
  assert (H2 : JS.toLowerCase "0Xa1" = JS.toLowerCase ex_A) by reflexivity.
  assert (H3 : fst (sendTransaction_begin ex_sha3 {| rawTransaction := "f86b65" |} ex_A
                      Options.empty 2000 ex_full) = 100) by (vm_compute; reflexivity).
  split; [reflexivity|]. split; [exact H1|]. split; [exact H2|]. split; [exact H3|].
  pose proof (sent_transaction_heads_history ex_sha3 {| rawTransaction := "f86b65" |} ex_A
                Options.empty 2000 [ResumeGetNonce ex_A 3]
                [Deliver 100 (BroadcastResolved ex_receipt)] TimerFired ex_full
                (Some "0Xa1") 10) as H.
  cbv zeta in H. rewrite H3 in H.
  destruct (H eq_refl eq_refl eq_refl H1 H2) as [tx (Hh & _ & _ & Hs)].
  exists tx. split; [exact Hh | exact Hs].
Defined.

(** The condition of X6 is needed: when the submission of another wallet
    begins before the receipt arrives, as in a batch, the newest record of
    the history is that other submission, still Pending. *)
Example later_submission_heads_history :
  let p1 := snd (sendTransaction_begin ex_sha3 {| rawTransaction := "f86b03" |} ex_A
                   Options.empty 1000 new_process) in
  let p4 := snd (run ex_sha3
                   [CallSendTransaction {| rawTransaction := "f86b07" |} ex_B
                      Options.empty 1001;
                    Deliver 0 (BroadcastResolved ex_receipt)] p1) in
  (fun tx => (TxRecord.from tx, TxRecord.status tx)) <$> getTransactionHistory None 10 p4
  = [(ex_B, pending); (ex_A, confirmed)].
Proof. vm_compute. reflexivity. Qed.

(* ===================================================================== *)
(** * Further properties of the mint chain                                *)
(* ===================================================================== *)

Section ChainRecursion.

Variable sha3 : string -> string.
Variable CONFIG : Config.
Variable raise_gas_price : string -> string.
Variable answers : string -> nat -> Attempt.

Local Abbreviation chain rev := (sendMonadMintTx rev sha3 CONFIG raise_gas_price answers).

Lemma enough_fuel_step (k : nat) :
  k < MAX_RETRY_COUNT CONFIG -> enough_fuel CONFIG k = S (enough_fuel CONFIG (k + 1)).
Proof. unfold enough_fuel. lia. Qed.

(** The recursive equations of the source, free of fuel. *)
Lemma sendMonadMintTx_v1_eq (wa : string) (k : nat) (w : World) :
  chain PartV1 wa k w
  = match attempt_v1 sha3 CONFIG answers wa k (entered wa k w) with
    | (inl receipt, w') => (inl (Some receipt), w')
    | (inr error, w') => catch_v1 CONFIG (chain PartV1 wa (k + 1)) wa k error w'
    end.
Proof.
  unfold sendMonadMintTx. unfold enough_fuel at 1. rewrite v1_activation.
  destruct (attempt_v1 _ _ _ _ _ _) as [[r|e] w']; [reflexivity|].
  unfold catch_v1. destruct (Nat.ltb_spec k (MAX_RETRY_COUNT CONFIG)); [|reflexivity].
  replace (MAX_RETRY_COUNT CONFIG - k) with (enough_fuel CONFIG (k + 1))
    by (unfold enough_fuel; lia).
  reflexivity.
Qed.

Lemma sendMonadMintTx_v2_eq (wa : string) (k : nat) (w : World) :
  chain PartV2 wa k w
  = match attempt_v2 sha3 CONFIG raise_gas_price answers wa k (entered wa k w) with
    | (inl receipt, w') => (inl (Some receipt), w')
    | (inr error, w') => catch_v2 CONFIG (chain PartV2 wa (k + 1)) wa k error w'
    end.
Proof.
  unfold sendMonadMintTx. unfold enough_fuel at 1. rewrite v2_activation.
  destruct (attempt_v2 _ _ _ _ _ _ _) as [[r|e] w']; [reflexivity|].
  unfold catch_v2.
  destruct (JS.includes (message e) "Maximum supply"); [reflexivity|].
  destruct (JS.includes (message e) "not found in contract"); [reflexivity|].
  destruct (Nat.ltb_spec k (MAX_RETRY_COUNT CONFIG)); [|reflexivity].
  replace (MAX_RETRY_COUNT CONFIG - k) with (enough_fuel CONFIG (k + 1))
    by (unfold enough_fuel; lia).
  reflexivity.
Qed.

Lemma sendMonadMintTx_2nd_eq (wa : string) (k : nat) (w : World) :
  chain SecondIndex wa k w
  = match attempt_2nd sha3 CONFIG answers wa k (entered wa k w) with
    | (inl receipt, w') => (inl (Some receipt), w')
    | (inr error, w') => catch_v1 CONFIG (chain SecondIndex wa (k + 1)) wa k error w'
    end.
Proof.
  unfold sendMonadMintTx. unfold enough_fuel at 1. rewrite nd_activation.
  destruct (attempt_2nd _ _ _ _ _ _) as [[r|e] w']; [reflexivity|].
  unfold catch_v1. destruct (Nat.ltb_spec k (MAX_RETRY_COUNT CONFIG)); [|reflexivity].
  replace (MAX_RETRY_COUNT CONFIG - k) with (enough_fuel CONFIG (k + 1))
    by (unfold enough_fuel; lia).
  reflexivity.
Qed.


Lemma sendMonadMintTx_eq (rev : Revision) (wa : string) (k : nat) (w : World) :
  chain rev wa k w
  = match attempt_of rev sha3 CONFIG raise_gas_price answers wa k (entered wa k w) with
    | (inl receipt, w') => (inl (Some receipt), w')
    | (inr error, w') => catch_of rev CONFIG (chain rev wa (k + 1)) wa k error w'
    end.
Proof.
  destruct rev;
    [apply sendMonadMintTx_v1_eq | apply sendMonadMintTx_v2_eq
    | apply sendMonadMintTx_2nd_eq].
Qed.


(** What the [catch] block does, by cases. *)
Lemma catch_of_retry (rev : Revision) (again : Async.M (option Receipt.t))
    (wa : string) (k : nat) (e : JsError) (w : World) :
  retried rev CONFIG e k = true ->
  catch_of rev CONFIG again wa k e w
  = again {| process := process w;
             journal := (journal w
               ++ [BotSend (Retrying (k + 1) (MAX_RETRY_COUNT CONFIG)
                              (String.substring 0 100 (message e)));
                   Sleep (retry_delay rev k)])%list |}.
Proof.
  intros H. destruct rev; simpl in H; unfold catch_of, catch_v1, catch_v2.
  - rewrite H. unfold mbind, async_bind, Async.bind, Async.record. simpl.
    rewrite <- app_assoc. reflexivity.
  - apply andb_true_iff in H as [Hf Hk]. apply negb_true_iff in Hf.
    destruct (fatal_false e Hf) as [-> ->]. rewrite Hk.
    unfold mbind, async_bind, Async.bind, Async.record. simpl.
    rewrite <- app_assoc. reflexivity.
  - rewrite H. unfold mbind, async_bind, Async.bind, Async.record. simpl.
    rewrite <- app_assoc. reflexivity.
Qed.

Lemma catch_of_stop (rev : Revision) (again : Async.M (option Receipt.t))
    (wa : string) (k : nat) (e : JsError) (w : World) :
  retried rev CONFIG e k = false ->
  exists jc,
    catch_of rev CONFIG again wa k e w
    = (inr e, {| process := process w; journal := (journal w ++ jc)%list |}) /\
    silent jc /\ signed_nonces jc = [].
Proof.
  intros H. destruct rev; simpl in H; unfold catch_of, catch_v1, catch_v2.
  - rewrite H. eexists. unfold mbind, async_bind, Async.bind, Async.record. simpl.
    rewrite <- app_assoc. split; [reflexivity | repeat split].
  - destruct (JS.includes (message e) "Maximum supply") eqn:E1.
    { eexists. split; [reflexivity | repeat split]. }
    destruct (JS.includes (message e) "not found in contract") eqn:E2.
    { eexists. split; [reflexivity | repeat split]. }
    unfold fatal in H. rewrite E1, E2 in H. simpl in H. rewrite H.
    eexists. unfold mbind, async_bind, Async.bind, Async.record. simpl.
    rewrite <- app_assoc. split; [reflexivity | repeat split].
  - rewrite H. eexists. unfold mbind, async_bind, Async.bind, Async.record. simpl.
    rewrite <- app_assoc. split; [reflexivity | repeat split].
Qed.



End ChainRecursion.

(* ===================================================================== *)
(** ** What a chain puts on its journal                                   *)
(* ===================================================================== *)

Section AddsOnly.

Variable P : ChainEvent -> Prop.
Context {A B : Type}.

Lemma ao_ret (a : A) : adds_only P (Async.ret a).
Proof. intros w. exists []. simpl. rewrite app_nil_r. split; [reflexivity | constructor]. Qed.

Lemma ao_throw (e : JsError) : adds_only P (@Async.throw A e).
Proof. intros w. exists []. simpl. rewrite app_nil_r. split; [reflexivity | constructor]. Qed.

Lemma ao_await (r : JS.outcome A JsError) : adds_only P (Async.await r).
Proof. destruct r; [apply ao_ret | apply ao_throw]. Qed.

Lemma ao_manager (f : Process -> A * Process) : adds_only P (Async.manager f).
Proof.
  intros w. exists []. unfold Async.manager.
  destruct (f (process w)). simpl. rewrite app_nil_r. split; [reflexivity | constructor].
Qed.

Lemma ao_bind (m : Async.M A) (k : A -> Async.M B) :
  adds_only P m -> (forall a, adds_only P (k a)) -> adds_only P (m ≫= k).
Proof.
  intros Hm Hk w. unfold mbind, async_bind, Async.bind.
  destruct (Hm w) as [j1 [E1 S1]]. destruct (m w) as [[a|e] w1]; simpl in *.
  - destruct (Hk a w1) as [j2 [E2 S2]]. exists (j1 ++ j2)%list.
    rewrite E2, E1, app_assoc. split; [reflexivity | now apply Forall_app].
  - exists j1. split; assumption.
Qed.

Lemma ao_try_catch (m : Async.M A) (h : JsError -> Async.M A) :
  adds_only P m -> (forall e, adds_only P (h e)) -> adds_only P (Async.try_catch m h).
Proof.
  intros Hm Hh w. unfold Async.try_catch.
  destruct (Hm w) as [j1 [E1 S1]]. destruct (m w) as [[a|e] w1]; simpl in *.
  - exists j1. split; assumption.
  - destruct (Hh e w1) as [j2 [E2 S2]]. exists (j1 ++ j2)%list.
    rewrite E2, E1, app_assoc. split; [reflexivity | now apply Forall_app].
Qed.

End AddsOnly.

Lemma ao_record (P : ChainEvent -> Prop) (e : ChainEvent) :
  P e -> adds_only P (Async.record e).
Proof. intros He w. exists [e]. split; [reflexivity | now repeat constructor]. Qed.

Ltac journal_adds :=
  repeat first
    [ apply ao_ret | apply ao_throw | apply ao_await | apply ao_manager
    | apply ao_record; first [exact I | exists 0; reflexivity | eexists; reflexivity]
    | apply ao_bind; [|intros ?]
    | match goal with
      | |- adds_only _ (match ?x with _ => _ end) => destruct x
      | |- adds_only _ (if ?x then _ else _) => destruct x
      end ].

Section SignerNonce.

Variable sha3 : string -> string.
Variable CONFIG : Config.
Variable raise_gas_price : string -> string.
Variable answers : string -> nat -> Attempt.

Lemma ao_attempt_of (rev : Revision) (wa : string) (k : nat) :
  adds_only (signer_sees rev)
    (attempt_of rev sha3 CONFIG raise_gas_price answers wa k).
Proof.
  destruct rev; unfold attempt_of, attempt_v1, attempt_v2, attempt_2nd,
    checkWallet, getNonceM, sendTransactionM; cbv zeta; journal_adds.
Qed.

Lemma ao_catch_of (rev rev' : Revision) (again : Async.M (option Receipt.t))
    (wa : string) (k : nat) (e : JsError) :
  adds_only (signer_sees rev') again ->
  adds_only (signer_sees rev') (catch_of rev CONFIG again wa k e).
Proof.
  intros H. destruct rev; unfold catch_of, catch_v1, catch_v2; cbv zeta;
    journal_adds; exact H.
Qed.

(** X8. The nonce that reaches the signer, over a whole chain and
    whatever the collaborators answer: in both index.js of part_000 every
    transaction handed to [signTransaction] carries a number as its
    nonce; in 2ndindex.js none does, the field is [undefined], because
    [nonceData.nonce] is read off the number that [getNonce] returned. *)
Theorem signer_nonce_by_revision (rev : Revision) (wa : string) (k : nat) :
  adds_only (signer_sees rev)
    (sendMonadMintTx rev sha3 CONFIG raise_gas_price answers wa k).
Proof.
  unfold sendMonadMintTx. generalize (enough_fuel CONFIG k) as fuel.
  intros fuel. revert k.
  destruct rev; induction fuel as [|fuel IH]; intros k; simpl;
    try apply ao_ret;
    (apply ao_bind; [apply ao_record; exact I | intros _]);
    apply ao_try_catch;
    try (intros e; first [apply (ao_catch_of PartV1) | apply (ao_catch_of PartV2)];
         apply IH).
  - apply ao_bind; [apply (ao_attempt_of PartV1) | intros ?; apply ao_ret].
  - apply ao_bind; [apply (ao_attempt_of PartV2) | intros ?; apply ao_ret].
  - apply ao_bind; [apply (ao_attempt_of SecondIndex) | intros ?; apply ao_ret].
Qed.

End SignerNonce.

(* ===================================================================== *)
(** ** Chains against the transaction manager                             *)
(* ===================================================================== *)

Lemma signed_nonces_app (j1 j2 : list ChainEvent) :
  signed_nonces (j1 ++ j2) = (signed_nonces j1 ++ signed_nonces j2)%list.
Proof. apply omap_app. Qed.

Section ChainAndManager.

Variable sha3 : string -> string.
Variable CONFIG : Config.
Variable raise_gas_price : string -> string.
Variable answers : string -> nat -> Attempt.

Local Abbreviation chain rev :=
  (sendMonadMintTx rev sha3 CONFIG raise_gas_price answers).
Local Abbreviation attempt rev :=
  (attempt_of rev sha3 CONFIG raise_gas_price answers).

Ltac fields :=
  cbn [wallet activeContract activeContractAddress mintMethod mintPrice
       currentGasPrice accountAddress transactionCount signedTransaction
       clock race] in *.

Ltac unfold_async :=
  unfold checkWallet, getNonceM, sendTransactionM, mbind, async_bind,
         Async.bind, Async.await, Async.manager, Async.record, Async.ret,
         Async.throw;
  fields.


(** An activation that gets as far as the broadcast: what it reserved,
    what it signed, what it sent and how it ended. *)
Lemma attempt_of_step (rev : Revision) (wa : string) (k : nat) (w : World) :
  reaches rev (answers wa k) = true ->
  exists c stx opts ja,
    transactionCount (answers wa k) = inl c /\
    attempt rev wa k w
    = (settle_result (race (answers wa k)),
       {| process :=
            snd (sendTransaction_await sha3 stx (accountAddress (answers wa k)) opts
                   (clock (answers wa k)) (race (answers wa k))
                   (set_pendingNonces
                      (fun _ => snd (getNonce (accountAddress (answers wa k)) c
                                       (pendingNonces (process w))))
                      (process w)));
          journal := (journal w ++ ja)%list |}) /\
    signed_nonces ja
    = [signer_nonce rev (fst (getNonce (accountAddress (answers wa k)) c
                                (pendingNonces (process w))))] /\
    silent ja.
Proof.
  intros H. destruct w as [p0 j0].
  destruct rev; cbn [reaches] in H;
    unfold attempt_of, attempt_v1, attempt_v2, attempt_2nd; cbv zeta;
    [unfold reaches_broadcast_plain in H
    |unfold reaches_broadcast in H
    |unfold reaches_broadcast_plain in H];
    destruct (answers wa k) as [wal ac aca mm mp cgp acc tc st cl rc]; fields;
    (destruct wal as [wl|]; [|discriminate H]);
    try (destruct aca as [ca|]; [|discriminate H]);
    (destruct ac as [ms|]; [|try destruct aca; discriminate H]);
    (destruct tc as [count|]; [|try destruct aca; discriminate H]);
    (destruct st as [stx|]; [|try destruct aca; discriminate H]);
    rewrite !andb_true_iff in H.
  all: unfold_async.
  1, 3: destruct H as [Hact Hmint]; rewrite ?Hact, ?Hmint.
  3: destruct H as [[Hact Htruthy] Hm]; rewrite ?Hact, ?Htruthy, ?Hm.
  all: unfold getNonce; cbv beta iota zeta delta [process journal].
  all: match goal with |- context [sendTransaction_await ?f ?a ?b ?c ?d ?e ?p] =>
         exists count, a, c end.
  all: unfold getNonce; cbv beta iota zeta delta [process journal]; cbn [fst snd].
  all: match goal with |- context [sendTransaction_await ?f ?a ?b ?c ?d ?e ?p] =>
         pose proof (fst_sendTransaction_await f a b c d e p) as Hs;
         destruct (sendTransaction_await f a b c d e p) as [r p'] end.
  all: cbn [fst snd] in Hs |- *; subst r; destruct (settle_result rc) as [receipt|e].
  all: cbn [JS.get JS.truthy]; rewrite <- ?app_assoc; cbn [app].
  all: eexists; split; [reflexivity|]; split; [reflexivity|]; repeat split.
Qed.

Lemma retried_not_fatal (rev : Revision) (e : JsError) (k : nat) :
  (rev = PartV2 -> fatal e = false) ->
  retried rev CONFIG e k = (k <? MAX_RETRY_COUNT CONFIG)%nat.
Proof. intros H. destruct rev; try reflexivity. simpl. now rewrite H. Qed.

Lemma await_pendingNonces stx a o n s p :
  pendingNonces (snd (sendTransaction_await sha3 stx a o n s p))
  = match settle_result s with
    | inl _ => pendingNonces p
    | inr e => if nonce_desync e then delete a (pendingNonces p) else pendingNonces p
    end.
Proof.
  unfold sendTransaction_await. cbv zeta. cbn [sendTransaction_begin].
  destruct (settle_result s) as [r|e]; [reflexivity|].
  cbn [snd]. unfold on_rejected. destruct (nonce_desync e); reflexivity.
Qed.

Lemma getNonce_reserved (a : string) (c s : nat) (pn : gmap string nat) :
  pn !! a = Some s -> c <= s -> getNonce a c pn = (s, <[a := s + 1]> pn).
Proof.
  intros H Hc. unfold getNonce. rewrite H.
  destruct (Nat.eqb_spec s 0); repeat f_equal; lia.
Qed.


(** X10. Retries after a timeout take a new nonce each. When every
    activation of a chain gets as far as the broadcast and loses the race
    to the timer, while the chain's own count for the account stays at or
    below what the manager has reserved, the activations reserve the
    consecutive nonces [s, s+1, ..., s+MAX_RETRY_COUNT] (and, except in
    2ndindex.js, sign them), so the reservation ends [MAX_RETRY_COUNT + 1]
    higher: a timed-out transaction is not re-sent with its own nonce. *)
Theorem timeout_retries_take_fresh_nonces (rev : Revision) (wa A : string)
    (s : nat) (w : World) :
  (forall i, reaches rev (answers wa i) = true) ->
  (forall i, race (answers wa i) = TimerFired) ->
  (forall i, accountAddress (answers wa i) = A) ->
  (forall i c, transactionCount (answers wa i) = inl c -> c <= s + i) ->
  pendingNonces (process w) !! A = Some s ->
  fst (chain rev wa 0 w) = inr (Error "Transaction timeout") /\
  pendingNonces (process (snd (chain rev wa 0 w))) !! A
    = Some (s + S (MAX_RETRY_COUNT CONFIG)) /\
  exists j,
    journal (snd (chain rev wa 0 w)) = (journal w ++ j)%list /\
    signed_nonces j = signer_nonce rev <$> seq s (S (MAX_RETRY_COUNT CONFIG)).
Proof.
  intros Hreach Hrace Hacc Hcount.
  assert (G : forall n k w,
    MAX_RETRY_COUNT CONFIG - k = n ->
    pendingNonces (process w) !! A = Some (s + k) ->
    fst (chain rev wa k w) = inr (Error "Transaction timeout") /\
    pendingNonces (process (snd (chain rev wa k w))) !! A = Some (s + k + S n) /\
    exists j,
      journal (snd (chain rev wa k w)) = (journal w ++ j)%list /\
      signed_nonces j = signer_nonce rev <$> seq (s + k) (S n)).
  { clear w. induction n as [|n IH]; intros k w Hn Hpn;
      rewrite sendMonadMintTx_eq;
      destruct (attempt_of_step rev wa k (entered wa k w) (Hreach k))
        as (c & stx & opts & ja & Hc & -> & Hsn & _);
      rewrite (Hrace k), (Hacc k) in *; cbn [settle_result];
      change (process (entered wa k w)) with (process w) in *;
      rewrite (getNonce_reserved A c (s + k) _ Hpn (Hcount k c Hc)) in Hsn |- *;
      cbn [fst snd] in *;
      assert (Hr : retried rev CONFIG (Error "Transaction timeout") k
                   = (k <? MAX_RETRY_COUNT CONFIG)%nat)
        by (apply retried_not_fatal; intros _; reflexivity);
      destruct (Nat.ltb_spec k (MAX_RETRY_COUNT CONFIG)) as [Hlt|Hge]; try lia.
    - match goal with |- context [catch_of rev CONFIG ?ag wa k ?e ?w1] =>
        destruct (catch_of_stop CONFIG rev ag wa k e w1 Hr)
          as [jc [-> [_ Cn]]] end.
      cbn [fst snd process journal]. split; [reflexivity|]. split.
      + rewrite await_pendingNonces. cbn [settle_result].
        change (nonce_desync (Error "Transaction timeout")) with false. cbv iota.
        cbn [pendingNonces set_pendingNonces]. rewrite lookup_insert_eq.
        f_equal; lia.
      + eexists. split; [rewrite journal_entered, <- !app_assoc; reflexivity|].
        rewrite !signed_nonces_app, Hsn, Cn. reflexivity.
    - match goal with |- context [catch_of rev CONFIG ?ag wa k ?e ?w1] =>
        rewrite (catch_of_retry CONFIG rev ag wa k e w1 Hr)
      end.
      cbn [process journal].
      match goal with |- context [chain rev wa (k + 1) ?w2] =>
        destruct (IH (k + 1) w2 ltac:(lia)) as (Ho & Hp & j & Hj & Hs) end.
      { cbn [process]. rewrite await_pendingNonces. cbn [settle_result].
        change (nonce_desync (Error "Transaction timeout")) with false. cbv iota.
        cbn [pendingNonces set_pendingNonces]. rewrite lookup_insert_eq.
        f_equal; lia. }
      split; [exact Ho|]. split; [rewrite Hp; f_equal; lia|].
      eexists. split; [rewrite Hj; cbn [journal]; rewrite journal_entered, <- !app_assoc;
                       reflexivity|].
      rewrite !signed_nonces_app, Hsn, Hs.
      replace (s + (k + 1)) with (S (s + k)) by lia. reflexivity. }
  intros Hpn.
  destruct (G (MAX_RETRY_COUNT CONFIG) 0 w ltac:(lia)) as (Ho & Hp & j & Hj & Hs).
  { rewrite Nat.add_0_r. exact Hpn. }
  rewrite Nat.add_0_r in Hp, Hs.
  split; [exact Ho|]. split; [rewrite Hp; f_equal|]. exists j. split; assumption.
Qed.

(** X11. An activation that gets as far as the broadcast and receives
    its receipt ends the chain at once, and chain and manager agree on
    the nonce: one activation, no wait, the receipt returned; the nonce
    that [getNonce] handed out (and that both index.js sign) is the
    highest of the chain's count and the reservation of the account, and
    the reservation of the account is left one above it. The wallet
    update and the chat message that follow the receipt are taken to go
    through; where the record of the transaction stands in the shared
    history depends on what other chains have begun meanwhile and is not
    part of this statement. *)
Theorem first_receipt_ends_chain (rev : Revision) (wa : string) (k : nat)
    (w : World) (receipt : Receipt.t) :
  reaches rev (answers wa k) = true ->
  race (answers wa k) = BroadcastResolved receipt ->
  let account := accountAddress (answers wa k) in
  exists c j,
    transactionCount (answers wa k) = inl c /\
    fst (chain rev wa k w) = inl (Some receipt) /\
    journal (snd (chain rev wa k w)) = (journal w ++ j)%list /\
    invocations j = [k] /\ sleeps j = [] /\
    signed_nonces j
      = [signer_nonce rev (first_nonce c (pendingNonces (process w) !! account))] /\
    pendingNonces (process (snd (chain rev wa k w))) !! account
      = Some (S (first_nonce c (pendingNonces (process w) !! account))).
Proof.
  intros Hreach Hrace account. rewrite sendMonadMintTx_eq.
  destruct (attempt_of_step rev wa k (entered wa k w) Hreach)
    as (c & stx & opts & ja & Hc & -> & Hsn & [Si Ss]).
  fold account in Hsn |- *. rewrite Hrace in *. cbn [settle_result fst snd process journal].
  rewrite first_nonce_getNonce in Hsn.
  exists c, ([Invoked wa k] ++ ja)%list.
  split; [exact Hc|]. split; [reflexivity|].
  split; [rewrite journal_entered, <- app_assoc; reflexivity|].
  rewrite invocations_app, sleeps_app, signed_nonces_app, Si, Ss, Hsn.
  split; [reflexivity|]. split; [reflexivity|]. split; [reflexivity|].
  rewrite await_pendingNonces. cbn [settle_result pendingNonces set_pendingNonces].
  rewrite getNonce_stores, lookup_insert_eq, first_nonce_getNonce. reflexivity.
Qed.

End ChainAndManager.


Lemma timeout_retries_witness :
  (forall i, reaches PartV2 (ex_all_timeout ex_A i) = true) /\
  pendingNonces (process ex_reserved_world) !! ex_A = Some 5 /\
  pendingNonces
    (process (snd (sendMonadMintTx PartV2 ex_sha3 default_config ex_raise ex_all_timeout
                     ex_A 0 ex_reserved_world))) !! ex_A = Some 8.
Proof.
  assert (H : forall i, reaches PartV2 (ex_all_timeout ex_A i) = true)
    by (intros i; reflexivity).
  assert (Hp : pendingNonces (process ex_reserved_world) !! ex_A = Some 5)
    by (vm_compute; reflexivity).
  split; [exact H|]. split; [exact Hp|].
  refine (proj1 (proj2 (timeout_retries_take_fresh_nonces ex_sha3 default_config ex_raise
            ex_all_timeout PartV2 ex_A ex_A 5 ex_reserved_world H
            (fun i => eq_refl) (fun i => eq_refl) _ Hp))).
  intros i c Hc. injection Hc as <-. simpl. lia.
Defined.

Lemma first_receipt_witness :
  reaches SecondIndex (ex_second_try ex_A 1) = true /\
  exists c j,
    transactionCount (ex_second_try ex_A 1) = inl c /\
    fst (sendMonadMintTx SecondIndex ex_sha3 default_config ex_raise ex_second_try ex_A 1
           ex_reserved_world) = inl (Some ex_receipt) /\
    journal (snd (sendMonadMintTx SecondIndex ex_sha3 default_config ex_raise ex_second_try
                    ex_A 1 ex_reserved_world)) = (journal ex_reserved_world ++ j)%list /\
    invocations j = [1] /\ sleeps j = [] /\
    signed_nonces j = [JS.undefined] /\
    pendingNonces (process (snd (sendMonadMintTx SecondIndex ex_sha3 default_config ex_raise
                                   ex_second_try ex_A 1 ex_reserved_world)))
      !! accountAddress (ex_second_try ex_A 1)
      = Some (S (first_nonce c (pendingNonces (process ex_reserved_world)
                                  !! accountAddress (ex_second_try ex_A 1)))).
Proof.
  split; [reflexivity|].
  exact (first_receipt_ends_chain ex_sha3 default_config ex_raise ex_second_try
           SecondIndex ex_A 1 ex_reserved_world ex_receipt eq_refl eq_refl).
Defined.

(* ===================================================================== *)
(** ** The batch handler, in general                                      *)
(* ===================================================================== *)

Lemma length_omap_total {A B} (f : A -> option B) (l : list A) :
  (forall x, In x l -> is_Some (f x)) -> length (omap f l) = length l.
Proof.
  induction l as [|x l IH]; intros H; [reflexivity|].
  destruct (H x (or_introl eq_refl)) as [y Hy]. cbn [omap list_omap]. rewrite Hy.
  cbn [length]. f_equal. apply IH. intros z Hz. apply H. now right.
Qed.

(** A map with [n] keys, all below [n], has every key below [n]. *)
Lemma full_below {A} (n : nat) (got : gmap nat A) :
  (forall k, is_Some (got !! k) -> k < n) -> size got = n ->
  forall k, k < n -> is_Some (got !! k).
Proof.
  intros Hb Hs k Hk.
  assert (Hsub : dom got ⊆ (set_seq 0 n : gset nat)).
  { intros x Hx. apply elem_of_dom in Hx. apply elem_of_set_seq. split; [lia|].
    simpl. now apply Hb. }
  assert (Heq : dom got = (set_seq 0 n : gset nat)).
  { apply set_subseteq_size_eq; [exact Hsub|].
    rewrite size_dom, Hs, size_set_seq. lia. }
  apply elem_of_dom. rewrite Heq. apply elem_of_set_seq. lia.
Qed.

Lemma settle_consistent {A} (n : nat) (st : PromiseAll.state A) (i : nat)
    (r : JS.outcome A JsError) :
  i < n -> all_consistent n st -> all_consistent n (PromiseAll.settle n st i r).
Proof.
  intros Hi Hst. destruct st as [got|vs|e]; [|exact Hst|exact Hst].
  destruct r as [v|e]; [|exact I]. cbn [PromiseAll.settle]. cbv zeta.
  assert (Hb : forall k, is_Some (<[i := v]> got !! k) -> k < n).
  { intros k Hk. destruct (decide (i = k)) as [<-|Hne]; [exact Hi|].
    rewrite lookup_insert_ne in Hk by exact Hne. now apply Hst. }
  destruct (Nat.eqb_spec (size (<[i := v]> got)) n) as [Hs|_]; [|exact Hb].
  cbn [all_consistent]. rewrite length_omap_total; [apply length_seq|].
  intros k Hk. apply in_seq in Hk. apply (full_below n); [exact Hb | exact Hs | lia].
Qed.

Lemma run_consistent {A} (n : nat) (ss : list (nat * JS.outcome A JsError)) :
  settles_within n ss -> all_consistent n (PromiseAll.run n ss).
Proof.
  unfold PromiseAll.run.
  assert (H0 : all_consistent n (@PromiseAll.init A n)).
  { unfold PromiseAll.init. destruct (Nat.eqb_spec n 0) as [->|_]; [reflexivity|].
    intros k [x Hx]. rewrite lookup_empty in Hx. discriminate. }
  revert H0. generalize (@PromiseAll.init A n) as st.
  induction ss as [|[i r] ss IH]; intros st Hst Hss; [exact Hst|].
  apply Forall_cons in Hss as [Hi Hss]. cbn [fold_left fst snd].
  apply IH; [|exact Hss]. now apply settle_consistent.
Qed.

(** Once every promise has fulfilled, each once, the result is there. *)
Lemma run_completes {A} (n : nat) (ss : list (nat * JS.outcome A JsError))
    (got : gmap nat A) :
  NoDup (fst <$> ss) -> Forall fulfilled ss ->
  (forall s, In s ss -> got !! fst s = None) ->
  size got + length ss = n -> ss <> [] ->
  exists values,
    fold_left (fun st s => PromiseAll.settle n st (fst s) (snd s)) ss
              (PromiseAll.Pending got)
    = PromiseAll.Fulfilled values.
Proof.
  revert got. induction ss as [|[i r] ss IH]; intros got Hnd Hall Hfresh Hsize Hne;
    [congruence|].
  apply Forall_cons in Hall as [Hf Hall]. destruct r as [v|e]; [|contradiction Hf].
  rewrite fmap_cons in Hnd. apply NoDup_cons in Hnd as [Hni Hnd].
  cbn [fold_left fst snd PromiseAll.settle length] in *. cbv zeta.
  assert (Hs : size (<[i := v]> got) = S (size got)).
  { apply map_size_insert_None. apply (Hfresh (i, inl v)). now left. }
  destruct ss as [|s ss].
  - rewrite Hs. cbn [length] in Hsize.
    destruct (Nat.eqb_spec (S (size got)) n) as [_|Hn]; [|lia]. eauto.
  - rewrite Hs. cbn [length] in Hsize.
    destruct (Nat.eqb_spec (S (size got)) n) as [Hn|_]; [lia|].
    apply IH; [exact Hnd | exact Hall | | cbn [length]; lia | discriminate].
    intros s' Hs'. rewrite lookup_insert_ne.
    + apply Hfresh. now right.
    + intros ->. apply Hni. apply list_elem_of_In, in_map_iff. exists s'. 
      split; [reflexivity | exact Hs'].
Qed.

(** X12. The counts of a batch report are never a partial result:
    whenever the [/mint] handler sends "x/y successful", for whatever
    sender, wallets, contract and settlements of the chains, [x] and [y]
    are both the number of active wallets. *)
Theorem batch_report_counts_are_total (CONFIG : Config) (fromId : Z)
    (activeWallets : list Wallet) (activeContractAddress : option string)
    (settlements : list (nat * JS.outcome Receipt.t JsError)) (x y : nat) :
  settles_within (length activeWallets) settlements ->
  reported_counts (onMint CONFIG fromId activeWallets activeContractAddress settlements)
    = Some (x, y) ->
  x = length activeWallets /\ y = length activeWallets.
Proof.
  intros Hw. pose proof (run_consistent _ _ Hw) as Hc. unfold onMint.
  destruct (negb (fromId =? ADMIN_ID CONFIG)%Z); [discriminate|].
  destruct (length activeWallets =? 0)%nat; [discriminate|].
  destruct activeContractAddress as [c|]; [|discriminate].
  destruct (JS.truthy (JS.Str c)); [|discriminate].
  destruct (PromiseAll.run (length activeWallets) settlements) as [got|values|e];
    try discriminate.
  cbn [all_consistent] in Hc. unfold reported_counts. cbn [omap list_omap head].
  intros [= <- <-]. split; [|reflexivity].
  rewrite <- Hc. clear. induction values as [|v values IH]; [reflexivity|].
  cbn [List.filter length]. now rewrite IH.
Qed.

Lemma batch_report_counts_witness :
  settles_within (length (take 2 ex_wallets)) (take 2 ex_batch_settlements) /\
  reported_counts (onMint default_config (ADMIN_ID default_config) (take 2 ex_wallets)
                     (Some ex_contract) (take 2 ex_batch_settlements)) = Some (2, 2) /\
  2 = length (take 2 ex_wallets).
Proof.
  assert (H1 : settles_within (length (take 2 ex_wallets)) (take 2 ex_batch_settlements))
    by (vm_compute; repeat constructor).
  assert (H2 : reported_counts (onMint default_config (ADMIN_ID default_config)
                 (take 2 ex_wallets) (Some ex_contract) (take 2 ex_batch_settlements))
               = Some (2, 2))
    by (vm_compute; reflexivity).
  split; [exact H1|]. split; [exact H2|].
  exact (proj1 (batch_report_counts_are_total default_config (ADMIN_ID default_config)
                  (take 2 ex_wallets) (Some ex_contract) (take 2 ex_batch_settlements)
                  2 2 H1 H2)).
Defined.

(** X13. When the chain of every active wallet fulfils, the handler
    reports all of them, in whatever order the chains finish: after the
    start message it sends "n/n successful" and nothing else. *)
Theorem batch_all_fulfilled_any_order (CONFIG : Config) (activeWallets : list Wallet)
    (c : string) (settlements : list (nat * JS.outcome Receipt.t JsError)) :
  JS.truthy (JS.Str c) = true ->
  activeWallets <> [] ->
  settles_within (length activeWallets) settlements ->
  NoDup (fst <$> settlements) ->
  length settlements = length activeWallets ->
  Forall fulfilled settlements ->
  onMint CONFIG (ADMIN_ID CONFIG) activeWallets (Some c) settlements
  = [BotSend (StartingBatch (length activeWallets) (String.substring 0 8 c));
     BotSend (BatchComplete (length activeWallets) (length activeWallets))].
Proof.
  intros Hc Hne Hw Hnd Hlen Hall. pose proof (run_consistent _ _ Hw) as Hcons.
  unfold onMint. rewrite Z.eqb_refl. cbn [negb]. 
  destruct (Nat.eqb_spec (length activeWallets) 0) as [E|Hn].
  { destruct activeWallets; [congruence | discriminate E]. }
  rewrite Hc. f_equal.
  destruct (run_completes (length activeWallets) settlements ∅ Hnd Hall) as [values Hv].
  { intros s _. apply lookup_empty. }
  { rewrite map_size_empty. lia. }
  { intros ->. cbn [length] in Hlen. lia. }
  unfold PromiseAll.run, PromiseAll.init in Hcons |- *.
  destruct (Nat.eqb_spec (length activeWallets) 0) as [E|_]; [lia|].
  rewrite Hv in Hcons |- *. cbn [all_consistent] in Hcons.
  do 2 f_equal. f_equal. rewrite <- Hcons. clear.
  induction values as [|v values IH]; [reflexivity|].
  cbn [List.filter length]. now rewrite IH.
Qed.

Lemma batch_all_fulfilled_witness :
  NoDup (fst <$> [(1, inl ex_receipt); (0, @inl _ JsError ex_receipt)]) /\
  onMint default_config (ADMIN_ID default_config) (take 2 ex_wallets) (Some ex_contract)
    [(1, inl ex_receipt); (0, inl ex_receipt)]
  = [BotSend (StartingBatch 2 (String.substring 0 8 ex_contract));
     BotSend (BatchComplete 2 2)].
Proof.
  assert (Hnd : NoDup (fst <$> [(1, inl ex_receipt); (0, @inl _ JsError ex_receipt)])).
  { apply NoDup_ListNoDup. repeat constructor; simpl; intuition discriminate. }
  split; [exact Hnd|].
  apply (batch_all_fulfilled_any_order default_config (take 2 ex_wallets) ex_contract
           [(1, inl ex_receipt); (0, inl ex_receipt)]).
  - reflexivity.
  - discriminate.
  - repeat constructor.
  - exact Hnd.
  - reflexivity.
  - repeat constructor.
Defined.

(* ===================================================================== *)
(** ** ContractManager                                                    *)
(* ===================================================================== *)

Lemma find_head_filter {A} (p : A -> bool) (l : list A) :
  find p l = head (List.filter p l).
Proof.
  induction l as [|x l IH]; [reflexivity|]. cbn [find List.filter].
  destruct (p x); [reflexivity | exact IH].
Qed.

Lemma filter_length_eq {A} (p : A -> bool) (l : list A) :
  ~ (length (List.filter p l) < length l) -> List.filter p l = l.
Proof.
  induction l as [|x l IH]; [reflexivity|]. cbn [List.filter length].
  pose proof (List.filter_length_le p l) as Hle.
  destruct (p x); cbn [length]; intros H.
  - f_equal. apply IH. lia.
  - lia.
Qed.

Lemma update_first_ext_view {A B} (view : A -> B) (p : A -> bool) (f : A -> A)
    (l : list A) :
  (forall x, view (f x) = view x) -> map view (update_first p f l) = map view l.
Proof.
  intros Hf. induction l as [|x l IH]; [reflexivity|]. cbn [update_first].
  destruct (p x); cbn [map]; [now rewrite Hf | now rewrite IH].
Qed.

Lemma find_none_filter {A} (p : A -> bool) (l : list A) :
  find p l = None -> List.filter p l = [].
Proof.
  rewrite find_head_filter. now destruct (List.filter p l).
Qed.

Section ContractManagerFacts.

Variable isValid : string -> bool.

Local Abbreviation Contract := ContractManager.Contract.
Local Abbreviation address := ContractManager.address.
Local Abbreviation active := ContractManager.active.
Local Abbreviation contracts := ContractManager.contracts.
Local Abbreviation set_active := ContractManager.set_active.
Local Abbreviation set_methods := ContractManager.set_methods.
Local Abbreviation matches a := (fun c : Contract => same_address (address c) a).

Local Abbreviation view := ContractManager.view.

Lemma filter_active_view (l1 l2 : list Contract) :
  map view l1 = map view l2 ->
  map address (List.filter active l1) = map address (List.filter active l2).
Proof.
  revert l2. induction l1 as [|x l1 IH]; intros [|y l2] H; try discriminate;
    [reflexivity|].
  unfold ContractManager.view in H. cbn [map] in H. injection H as Ha Hb H.
  cbn [List.filter]. rewrite Hb. destruct (active y); cbn [map];
    [rewrite Ha; f_equal|]; now apply IH.
Qed.

Lemma single_active_view (l1 l2 : list Contract) :
  map view l1 = map view l2 ->
  ContractManager.single_active l1 -> ContractManager.single_active l2.
Proof.
  intros H. unfold ContractManager.single_active.
  rewrite <- (length_map address (List.filter active l1)),
          <- (length_map address (List.filter active l2)).
  now rewrite (filter_active_view l1 l2 H).
Qed.

Lemma active_address_filter (m : ContractManager.t) :
  ContractManager.getActiveContractAddress m
  = head (map address (List.filter active (contracts m))).
Proof.
  unfold ContractManager.getActiveContractAddress. rewrite find_head_filter.
  now destruct (List.filter active (contracts m)).
Qed.

Lemma filter_active_deactivated (l : list Contract) :
  List.filter active (map (set_active false) l) = [].
Proof. induction l as [|x l IH]; [reflexivity | exact IH]. Qed.

Lemma set_active_twice (b b' : bool) (c : Contract) :
  set_active b (set_active b' c) = set_active b c.
Proof. reflexivity. Qed.

(** All flags cleared, then the first entry that matches flagged. *)
Lemma filter_active_activated (a : string) (l : list Contract) (c : Contract) :
  find (matches a) l = Some c ->
  List.filter active
    (update_first (matches a) (set_active true) (map (set_active false) l))
  = [set_active true c].
Proof.
  induction l as [|x l IH]; [discriminate|]. cbn [find map update_first].
  change (address (set_active false x)) with (address x).
  destruct (same_address (address x) a).
  - intros [= ->]. cbn [List.filter]. cbn [ContractManager.active set_active].
    now rewrite filter_active_deactivated.
  - intros H. cbn [List.filter]. cbn [ContractManager.active set_active].
    now apply IH.
Qed.

Lemma map_address_activated (a : string) (l : list Contract) :
  map address (update_first (matches a) (set_active true) (map (set_active false) l))
  = map address l.
Proof.
  rewrite (update_first_ext_view address) by reflexivity.
  rewrite map_map. reflexivity.
Qed.

Lemma activateContract_found (a : string) (m : ContractManager.t) (c : Contract) :
  isValid a = true ->
  find (matches a) (contracts m) = Some c ->
  let r := ContractManager.activateContract isValid a m in
  fst r = inl (set_active true c) /\
  List.filter active (contracts (snd r)) = [set_active true c] /\
  ContractManager.getActiveContractAddress (snd r) = Some (address c) /\
  ContractManager.getActiveContract (snd r) = Some (address c) /\
  map address (contracts (snd r)) = map address (contracts m) /\
  ContractManager.persisted (snd r).
Proof.
  intros Hv Hf. unfold ContractManager.activateContract. rewrite Hv, Hf.
  cbn [negb fst snd]. cbv zeta.
  split; [reflexivity|].
  assert (Hfa := filter_active_activated a (contracts m) c Hf).
  split; [exact Hfa|]. split.
  { rewrite active_address_filter.
    cbn [ContractManager.contracts ContractManager.logAction
         ContractManager.set_activeContract ContractManager.saveContracts
         ContractManager.set_contracts].
    rewrite Hfa. reflexivity. }
  split; [reflexivity|]. split; [apply map_address_activated | reflexivity].
Qed.

(** Either the call threw and left the manager alone, or it found its
    entry. *)
Lemma activateContract_cases (a : string) (m : ContractManager.t) :
  snd (ContractManager.activateContract isValid a m) = m \/
  exists c, isValid a = true /\ find (matches a) (contracts m) = Some c.
Proof.
  unfold ContractManager.activateContract.
  destruct (isValid a); [|now left].
  destruct (find (matches a) (contracts m)) as [c|]; [right; eauto | now left].
Qed.

Lemma single_active_only (l : list Contract) (c : Contract) :
  ContractManager.single_active l -> In c l -> active c = true ->
  List.filter active l = [c].
Proof.
  unfold ContractManager.single_active. intros Hs Hin Hact.
  assert (Hc : In c (List.filter active l)) by (apply filter_In; auto).
  destruct (List.filter active l) as [|x [|y t]]; cbn [length] in Hs.
  - destruct Hc.
  - destruct Hc as [->|[]]. reflexivity.
  - lia.
Qed.

Lemma filter_active_kept (a : string) (l : list Contract) :
  find (fun c => same_address (address c) a && active c) l = None ->
  List.filter active (List.filter (fun c => negb (same_address (address c) a)) l)
  = List.filter active l.
Proof.
  induction l as [|x l IH]; [reflexivity|]. cbn [find List.filter].
  destruct (same_address (address x) a) eqn:Ep; cbn [andb negb].
  - destruct (active x) eqn:Ea; [discriminate|]. exact IH.
  - cbn [List.filter]. intros H. destruct (active x); [f_equal|]; now apply IH.
Qed.

Lemma coherent_construct (f : ContractManager.ContractFile) :
  ContractManager.single_active (ContractManager.loadContracts f) ->
  ContractManager.coherent (ContractManager.construct f).
Proof.
  intros Hs. unfold ContractManager.construct, ContractManager.initializeActiveContract.
  cbn [ContractManager.contracts].
  destruct (find active (ContractManager.loadContracts f)) as [c|] eqn:Hf.
  - split; [exact Hs|]. unfold ContractManager.instance_agrees,
      ContractManager.getActiveContractAddress. cbn. now rewrite Hf.
  - destruct (ContractManager.loadContracts f) as [|first rest] eqn:Hl.
    + split; [exact Hs | reflexivity].
    + apply find_none_filter in Hf. cbn [List.filter] in Hf.
      destruct (active first) eqn:Ha; [discriminate|].
      split.
      * unfold ContractManager.single_active. cbn. rewrite Hf. cbn. lia.
      * reflexivity.
Qed.

Lemma coherent_add a l ms force now (m : ContractManager.t) :
  ContractManager.coherent m ->
  ContractManager.coherent (snd (ContractManager.addContract isValid a l ms force now m)).
Proof.
  intros [Hs Hi]. unfold ContractManager.addContract.
  destruct (isValid a); [|split; assumption].
  destruct (find (matches a) (contracts m)); [split; assumption|].
  cbn [negb snd]. cbv zeta.
  split.
  - unfold ContractManager.single_active. cbn.
    rewrite List.filter_app. cbn. rewrite app_nil_r. exact Hs.
  - unfold ContractManager.instance_agrees in *.
    rewrite active_address_filter in *. cbn.
    rewrite List.filter_app. cbn. rewrite app_nil_r. exact Hi.
Qed.

Lemma coherent_activate a (m : ContractManager.t) :
  ContractManager.coherent m ->
  ContractManager.coherent (snd (ContractManager.activateContract isValid a m)).
Proof.
  intros Hc. destruct (activateContract_cases a m) as [->|[c [Hv Hf]]]; [exact Hc|].
  destruct (activateContract_found a m c Hv Hf) as (_ & Hfa & Ha & Hi & _).
  split.
  - unfold ContractManager.single_active. rewrite Hfa. cbn. lia.
  - unfold ContractManager.instance_agrees. now rewrite Ha, Hi.
Qed.

(** The manager after [removeContract], field by field. *)
Lemma removeContract_after (a : string) (m : ContractManager.t) :
  isValid a = true ->
  let l := contracts m in
  let l' := List.filter (fun c => negb (same_address (address c) a)) l in
  let wasActive := find (fun c => same_address (address c) a && active c) l in
  let kept := match wasActive, l' with
              | Some _, first :: rest => set_active true first :: rest
              | _, _ => l'
              end in
  ContractManager.removeContract isValid a m
  = if (length l' <? length l)%nat then
      (inl true,
       {| ContractManager.contracts := kept;
          ContractManager.activeContract :=
            match wasActive, l' with
            | Some _, first :: rest => Some (address first)
            | _, [] => None
            | _, _ => ContractManager.activeContract m
            end;
          ContractManager.contractFile := ContractManager.Parsed kept;
          ContractManager.actions :=
            (ContractManager.actions m ++ [ContractManager.contract_removed a])%list |})
    else
      (inl false,
       {| ContractManager.contracts := l';
          ContractManager.activeContract := ContractManager.activeContract m;
          ContractManager.contractFile := ContractManager.contractFile m;
          ContractManager.actions := ContractManager.actions m |}).
Proof.
  intros Hv. unfold ContractManager.removeContract. rewrite Hv. cbn [negb]. cbv zeta.
  unfold ContractManager.logAction, ContractManager.saveContracts,
    ContractManager.set_activeContract, ContractManager.set_contracts.
  cbn [ContractManager.contracts ContractManager.activeContract
       ContractManager.contractFile ContractManager.actions].
  destruct (_ <? _)%nat; [|reflexivity].
  destruct (find _ (contracts m));
    destruct (List.filter _ (contracts m)); reflexivity.
Qed.

Lemma removeContract_invalid (a : string) (m : ContractManager.t) :
  isValid a = false ->
  ContractManager.removeContract isValid a m
  = (inr (Error "Invalid contract address format"), m).
Proof. intros Hv. unfold ContractManager.removeContract. now rewrite Hv. Qed.

Lemma coherent_remove a (m : ContractManager.t) :
  ContractManager.coherent m ->
  ContractManager.coherent (snd (ContractManager.removeContract isValid a m)).
Proof.
  intros [Hs Hi]. destruct (isValid a) eqn:Hv;
    [|rewrite removeContract_invalid by exact Hv; split; assumption].
  rewrite (removeContract_after a m Hv). cbv zeta.
  set (l := contracts m) in *.
  remember (List.filter (fun c => negb (same_address (address c) a)) l) as l' eqn:Dl'.
  unfold ContractManager.coherent, ContractManager.instance_agrees in *.
  rewrite active_address_filter in Hi. rewrite active_address_filter.
  unfold ContractManager.single_active in *.
  destruct (Nat.ltb_spec (length l') (length l)) as [Hlt|Hge];
    cbn [snd ContractManager.contracts ContractManager.getActiveContract
         ContractManager.activeContract].
  - destruct (find (fun c => same_address (address c) a && active c) l)
      as [w|] eqn:Hw.
    + assert (Hnone : List.filter active l' = []).
      { apply find_some in Hw as [Hwin Hwp]. apply andb_true_iff in Hwp as [Hp Ha].
        pose proof (single_active_only l w Hs Hwin Ha) as Hone.
        destruct (List.filter active l') as [|x t] eqn:Hx; [reflexivity|].
        assert (Hxin : In x (List.filter active l')) by (rewrite Hx; now left).
        apply filter_In in Hxin as [Hxl' Hxa]. rewrite Dl' in Hxl'.
        apply filter_In in Hxl' as [Hxl Hxp].
        assert (Hxw : In x (List.filter active l)) by (apply filter_In; auto).
        rewrite Hone in Hxw. destruct Hxw as [<-|[]].
        rewrite Hp in Hxp. discriminate. }
      clear Dl'. destruct l' as [|first rest].
      * split; [cbn; lia | reflexivity].
      * cbn [List.filter] in Hnone. destruct (active first) eqn:Ha; [discriminate|].
        cbn [List.filter ContractManager.active set_active]. rewrite Hnone.
        split; [cbn; lia | reflexivity].
    + pose proof (filter_active_kept a l Hw) as Hk. rewrite <- Dl' in Hk.
      assert (Hkept : match l' with [] => l' | _ :: _ => l' end = l')
        by now destruct l'.
      destruct l' as [|first rest] eqn:El'.
      * split; [cbn; lia | reflexivity].
      * rewrite Hk. split; [exact Hs | exact Hi].
  - assert (El : l' = l) by (subst l'; apply filter_length_eq; lia).
    rewrite El. split; [exact Hs | exact Hi].
Qed.

Lemma coherent_update a ms (m : ContractManager.t) :
  ContractManager.coherent m ->
  ContractManager.coherent (snd (ContractManager.updateContractMethods a ms m)).
Proof.
  intros [Hs Hi]. unfold ContractManager.updateContractMethods.
  destruct (find (matches a) (contracts m)) as [found|] eqn:Hf; [|split; assumption].
  cbn [snd]. cbv zeta.
  assert (Hv : map view (update_first (matches a) (set_methods ms) (contracts m))
               = map view (contracts m))
    by (apply update_first_ext_view; reflexivity).
  pose proof (filter_active_view _ _ Hv) as Hfa.
  assert (Hs' : ContractManager.single_active
                  (update_first (matches a) (set_methods ms) (contracts m))).
  { apply (single_active_view (contracts m)); [symmetry; exact Hv | exact Hs]. }
  unfold ContractManager.coherent, ContractManager.instance_agrees in *.
  rewrite active_address_filter in Hi. rewrite active_address_filter.
  destruct (active found) eqn:Ha;
    cbn [ContractManager.contracts ContractManager.logAction
         ContractManager.saveContracts ContractManager.set_contracts
         ContractManager.set_activeContract
         ContractManager.getActiveContract ContractManager.activeContract] in *;
    (split; [exact Hs'|]); rewrite Hfa.
  - apply find_some in Hf as [Hin _].
    rewrite (single_active_only _ found Hs Hin Ha). reflexivity.
  - exact Hi.
Qed.

(** X14. [activateContract] leaves exactly one contract flagged
    active, whatever the flags were before: for a valid address that
    matches an entry up to letter case, the first such entry is returned,
    it is afterwards the only active one, the address the chains read and
    the contract instance are both its stored address, the list keeps its
    addresses in order, and it has been saved. *)
Theorem activateContract_leaves_one_active (a : string) (m : ContractManager.t)
    (c : Contract) :
  isValid a = true ->
  find (matches a) (contracts m) = Some c ->
  let r := ContractManager.activateContract isValid a m in
  fst r = inl (set_active true c) /\
  List.filter active (contracts (snd r)) = [set_active true c] /\
  ContractManager.getActiveContractAddress (snd r) = Some (address c) /\
  ContractManager.getActiveContract (snd r) = Some (address c) /\
  map address (contracts (snd r)) = map address (contracts m) /\
  ContractManager.persisted (snd r).
Proof. exact (activateContract_found a m c). Qed.

(** X15. The contract the chains send to and the contract instance
    they take the methods from stay the same contract. If the saved file
    flags at most one contract active, then after the constructor and any
    sequence of [addContract], [activateContract], [removeContract] and
    [updateContractMethods] calls, failed ones included, at most one
    contract is flagged active and [getActiveContract] is the instance of
    the address that [getActiveContractAddress] returns (both null when
    none is active). *)
Theorem active_contract_coherent (f : ContractManager.ContractFile)
    (calls : list ContractManager.Call) :
  ContractManager.single_active (ContractManager.loadContracts f) ->
  ContractManager.coherent
    (ContractManager.after_all isValid calls (ContractManager.construct f)).
Proof.
  intros Hs. unfold ContractManager.after_all.
  pose proof (coherent_construct f Hs) as H0. revert H0.
  generalize (ContractManager.construct f) as m.
  induction calls as [|c calls IH]; intros m Hm; [exact Hm|].
  cbn [fold_left]. apply IH.
  destruct c; cbn [ContractManager.after];
    [apply coherent_add | apply coherent_activate | apply coherent_remove
    | apply coherent_update]; exact Hm.
Qed.

(** *** What is on disk *)

Lemma persisted_after (c : ContractManager.Call) (m : ContractManager.t) :
  ContractManager.persisted m ->
  ContractManager.persisted (ContractManager.after isValid c m).
Proof.
  intros Hp. destruct c as [a l ms force now|a|a|a ms]; cbn [ContractManager.after].
  - unfold ContractManager.addContract. destruct (isValid a); [|exact Hp].
    destruct (find _ _); [exact Hp | reflexivity].
  - destruct (activateContract_cases a m) as [->|[c [Hv Hf]]]; [exact Hp|].
    apply (activateContract_found a m c Hv Hf).
  - destruct (isValid a) eqn:Hv;
      [|rewrite removeContract_invalid by exact Hv; exact Hp].
    rewrite (removeContract_after a m Hv). cbv zeta.
    destruct (Nat.ltb_spec
                (length (List.filter (fun c => negb (same_address (address c) a))
                           (contracts m)))
                (length (contracts m))) as [Hlt|Hge]; [reflexivity|].
    unfold ContractManager.persisted in *. cbn.
    rewrite filter_length_eq by lia. exact Hp.
  - unfold ContractManager.updateContractMethods.
    destruct (find _ _) as [found|]; [|exact Hp].
    cbn [snd]. cbv zeta. destruct (active found); reflexivity.
Qed.

Lemma persisted_construct (f : ContractManager.ContractFile) :
  ContractManager.persisted (ContractManager.construct f).
Proof.
  unfold ContractManager.construct, ContractManager.initializeActiveContract.
  cbn [ContractManager.contracts].
  destruct (find active (ContractManager.loadContracts f)); [reflexivity|].
  destruct (ContractManager.loadContracts f) eqn:E; [exact E | reflexivity].
Qed.

(** X16. Every change of the contract list is on disk before the call
    returns: after the constructor and any sequence of calls, a new
    process loads the list this one holds. On loading it keeps the list
    as it is, except when no contract is flagged active and the list is
    not empty (as after a first [addContract]): then the new process
    flags the first contract by itself. *)
Theorem contracts_survive_restart (f : ContractManager.ContractFile)
    (calls : list ContractManager.Call) :
  let m := ContractManager.after_all isValid calls (ContractManager.construct f) in
  ContractManager.persisted m /\
  contracts (ContractManager.construct (ContractManager.contractFile m))
  = match ContractManager.getActiveContractAddress m, contracts m with
    | None, first :: rest => set_active true first :: rest
    | _, _ => contracts m
    end.
Proof.
  cbv zeta.
  assert (Hp : ContractManager.persisted
                 (ContractManager.after_all isValid calls (ContractManager.construct f))).
  { unfold ContractManager.after_all.
    pose proof (persisted_construct f) as H0. revert H0.
    generalize (ContractManager.construct f) as m.
    induction calls as [|c calls IH]; intros m Hm; [exact Hm|].
    cbn [fold_left]. apply IH. now apply persisted_after. }
  split; [exact Hp|].
  revert Hp. generalize (ContractManager.after_all isValid calls
                           (ContractManager.construct f)) as m.
  intros m Hp. unfold ContractManager.persisted in Hp.
  unfold ContractManager.construct, ContractManager.initializeActiveContract,
    ContractManager.getActiveContractAddress.
  cbn [ContractManager.contracts]. rewrite Hp.
  destruct (find active (contracts m)); [reflexivity|].
  destruct (contracts m); reflexivity.
Qed.

(** *** No address twice *)

Lemma NoDup_map_filter {A B} (g : A -> B) (q : A -> bool) (l : list A) :
  NoDup (map g l) -> NoDup (map g (List.filter q l)).
Proof.
  induction l as [|x l IH]; intros H; [exact H|]. cbn [map] in H.
  apply NoDup_cons in H as [Hx Hl]. cbn [List.filter].
  destruct (q x); [|now apply IH]. cbn [map]. apply NoDup_cons.
  split; [|now apply IH]. intros Hin. apply Hx.
  apply list_elem_of_In, in_map_iff in Hin as [y [Hy Hyin]].
  apply filter_In in Hyin as [Hyin _].
  apply list_elem_of_In, in_map_iff. eauto.
Qed.

Local Abbreviation lowered := (fun c : Contract => JS.toLowerCase (address c)).

Lemma distinct_same_addresses (l1 l2 : list Contract) :
  map address l1 = map address l2 ->
  ContractManager.distinct l1 -> ContractManager.distinct l2.
Proof.
  unfold ContractManager.distinct. intros H.
  rewrite <- (map_map address JS.toLowerCase l1),
          <- (map_map address JS.toLowerCase l2), H. auto.
Qed.

Lemma distinct_after (c : ContractManager.Call) (m : ContractManager.t) :
  ContractManager.distinct (contracts m) ->
  ContractManager.distinct (contracts (ContractManager.after isValid c m)).
Proof.
  intros Hd. destruct c as [a l ms force now|a|a|a ms]; cbn [ContractManager.after].
  - unfold ContractManager.addContract. destruct (isValid a); [|exact Hd].
    destruct (find _ _) eqn:Hf; [exact Hd|].
    cbn [negb snd]. cbv zeta. unfold ContractManager.distinct in *.
    cbn [ContractManager.contracts ContractManager.logAction
         ContractManager.saveContracts ContractManager.set_contracts].
    rewrite map_app. cbn [map ContractManager.address].
    apply NoDup_app. split; [exact Hd|].
    split; [|apply NoDup_singleton].
    intros x Hx Hx'. apply list_elem_of_singleton in Hx'. subst x.
    apply list_elem_of_In, in_map_iff in Hx as [y [Hy Hyin]].
    pose proof (find_none _ _ Hf y Hyin) as Hn. cbv beta in Hn.
    unfold same_address in Hn. apply String.eqb_neq in Hn. congruence.
  - destruct (activateContract_cases a m) as [->|[c [Hv Hf]]]; [exact Hd|].
    apply (distinct_same_addresses (contracts m)); [|exact Hd].
    symmetry. apply (activateContract_found a m c Hv Hf).
  - destruct (isValid a) eqn:Hv;
      [|rewrite removeContract_invalid by exact Hv; exact Hd].
    rewrite (removeContract_after a m Hv). cbv zeta.
    unfold ContractManager.distinct in *.
    pose proof (NoDup_map_filter lowered
                  (fun c => negb (same_address (address c) a)) (contracts m) Hd) as Hf.
    destruct (_ <? _)%nat; cbn [snd ContractManager.contracts]; [|exact Hf].
    destruct (find _ (contracts m)); [|now destruct (List.filter _ (contracts m))].
    destruct (List.filter _ (contracts m)) as [|first rest]; [exact Hf|].
    exact Hf.
  - unfold ContractManager.updateContractMethods.
    destruct (find _ _) as [found|]; [|exact Hd].
    cbn [snd]. cbv zeta.
    apply (distinct_same_addresses (contracts m)); [|exact Hd].
    destruct (active found);
      cbn [ContractManager.contracts ContractManager.logAction
           ContractManager.saveContracts ContractManager.set_contracts
           ContractManager.set_activeContract];
      symmetry; apply update_first_ext_view; reflexivity.
Qed.

(** X17. No address is listed twice, not even in another letter case:
    if the saved file lists no address twice up to case, neither does the
    manager after the constructor and any sequence of calls; the
    duplicate check of [addContract] is what this rests on. *)
Theorem contracts_stay_distinct (f : ContractManager.ContractFile)
    (calls : list ContractManager.Call) :
  ContractManager.distinct (ContractManager.loadContracts f) ->
  ContractManager.distinct
    (contracts (ContractManager.after_all isValid calls (ContractManager.construct f))).
Proof.
  intros Hd.
  assert (H0 : ContractManager.distinct (contracts (ContractManager.construct f))).
  { unfold ContractManager.construct, ContractManager.initializeActiveContract.
    cbn [ContractManager.contracts].
    destruct (find active (ContractManager.loadContracts f)); [exact Hd|].
    destruct (ContractManager.loadContracts f); exact Hd. }
  unfold ContractManager.after_all. revert H0.
  generalize (ContractManager.construct f) as m.
  induction calls as [|c calls IH]; intros m Hm; [exact Hm|].
  cbn [fold_left]. apply IH. now apply distinct_after.
Qed.

(** *** Adding, then removing *)

Lemma filter_none_matching (a : string) (l : list Contract) :
  find (matches a) l = None ->
  List.filter (fun c => negb (same_address (address c) a)) l = l.
Proof.
  induction l as [|x l IH]; [reflexivity|]. cbn [find List.filter].
  destruct (same_address (address x) a); [discriminate|].
  intros H. cbn [negb]. f_equal. now apply IH.
Qed.

Lemma find_active_none_matching (a : string) (l : list Contract) :
  find (matches a) l = None ->
  find (fun c => same_address (address c) a && active c) l = None.
Proof.
  induction l as [|x l IH]; [reflexivity|]. cbn [find].
  destruct (same_address (address x) a); [discriminate | exact IH].
Qed.

Lemma find_snoc {A} (p : A -> bool) (l : list A) (x : A) :
  find p l = None -> find p (l ++ [x]) = if p x then Some x else None.
Proof.
  induction l as [|y l IH]; [reflexivity|]. cbn [find app].
  destruct (p y); [discriminate | exact IH].
Qed.

Lemma same_address_refl (a : string) : same_address a a = true.
Proof. apply String.eqb_refl. Qed.

(** X18. [removeContract] undoes [addContract]: after a successful
    [addContract] of an address, removing that address returns [true] and
    leaves the contract list as it was before the addition; the contract
    instance is as before too, provided it agreed with the list. *)
Theorem addContract_then_removeContract (a l : string)
    (ms : option ContractManager.Methods) (force : bool) (now : N)
    (m : ContractManager.t) (c : Contract) :
  fst (ContractManager.addContract isValid a l ms force now m) = inl c ->
  let m1 := snd (ContractManager.addContract isValid a l ms force now m) in
  let r := ContractManager.removeContract isValid a m1 in
  In c (contracts m1) /\
  fst r = inl true /\
  contracts (snd r) = contracts m /\
  (ContractManager.instance_agrees m ->
   ContractManager.getActiveContract (snd r) = ContractManager.getActiveContract m).
Proof.
  unfold ContractManager.addContract.
  destruct (isValid a) eqn:Hv; [|discriminate]. cbn [negb].
  destruct (find (matches a) (contracts m)) eqn:Hf; [discriminate|].
  cbv zeta. cbn [fst snd]. intros [= <-].
  rewrite (removeContract_after a _ Hv). cbv zeta.
  cbn [ContractManager.contracts ContractManager.logAction
       ContractManager.saveContracts ContractManager.set_contracts
       ContractManager.activeContract].
  rewrite List.filter_app, (filter_none_matching a _ Hf).
  cbn [List.filter ContractManager.address]. rewrite same_address_refl. cbn [negb].
  rewrite app_nil_r, length_app. cbn [length].
  replace (length (contracts m) <? length (contracts m) + 1)%nat with true
    by (symmetry; apply Nat.ltb_lt; lia).
  rewrite (find_snoc _ _ _ (find_active_none_matching a _ Hf)).
  cbn [ContractManager.address ContractManager.active]. rewrite andb_false_r.
  split; [apply in_or_app; right; now left|].
  split; [reflexivity|].
  split; [now destruct (contracts m)|].
  intros Hi. unfold ContractManager.instance_agrees,
    ContractManager.getActiveContractAddress in Hi.
  destruct (contracts m); [|reflexivity].
  cbn [ContractManager.getActiveContract ContractManager.activeContract].
  symmetry. exact Hi.
Qed.

End ContractManagerFacts.

Lemma activateContract_witness :
  ex_is_address ex_contract_2 = true /\
  List.filter ContractManager.active
    (ContractManager.contracts
       (snd (ContractManager.activateContract ex_is_address ex_contract_2
               (ContractManager.construct ex_file_two_active))))
  = [ContractManager.set_active true (ex_entry ex_contract_2 true)].
Proof.
  split; [reflexivity|].
  exact (proj1 (proj2 (activateContract_leaves_one_active ex_is_address ex_contract_2
                         (ContractManager.construct ex_file_two_active)
                         (ex_entry ex_contract_2 true) eq_refl eq_refl))).
Defined.

Lemma active_contract_coherent_witness :
  ContractManager.single_active (ContractManager.loadContracts ex_file_one_active) /\
  ContractManager.coherent
    (ContractManager.after_all ex_is_address ex_calls
       (ContractManager.construct ex_file_one_active)).
Proof.
  assert (H : ContractManager.single_active
                (ContractManager.loadContracts ex_file_one_active))
    by (vm_compute; lia).
  split; [exact H|].
  exact (active_contract_coherent ex_is_address ex_file_one_active ex_calls H).
Defined.

(** Without the hypothesis of X15 the two can part: a file that flags
    two contracts, then new methods for the second one. The chains would
    send to the first contract and take the methods of the second. *)
Example two_active_entries_split_the_instance :
  let m := ContractManager.after ex_is_address
             (ContractManager.UpdateContractMethods ex_contract_2 None)
             (ContractManager.construct ex_file_two_active) in
  ContractManager.getActiveContractAddress m = Some ex_contract /\
  ContractManager.getActiveContract m = Some ex_contract_2.
Proof. split; vm_compute; reflexivity. Qed.

Lemma contracts_stay_distinct_witness :
  ContractManager.distinct (ContractManager.loadContracts ex_file_one_active) /\
  ContractManager.distinct
    (ContractManager.contracts
       (ContractManager.after_all ex_is_address ex_calls
          (ContractManager.construct ex_file_one_active))).
Proof.
  assert (H : ContractManager.distinct (ContractManager.loadContracts ex_file_one_active)).
  { unfold ContractManager.distinct. apply (bool_decide_unpack _). vm_compute. exact I. }
  split; [exact H|].
  exact (contracts_stay_distinct ex_is_address ex_file_one_active ex_calls H).
Defined.

Lemma addContract_then_removeContract_witness :
  fst (ContractManager.addContract ex_is_address ex_contract EmptyString None false 1000
         (ContractManager.construct ContractManager.NoFile)) = inl ex_added /\
  ContractManager.contracts
    (snd (ContractManager.removeContract ex_is_address ex_contract
            (snd (ContractManager.addContract ex_is_address ex_contract EmptyString None
                    false 1000 (ContractManager.construct ContractManager.NoFile)))))
  = ContractManager.contracts (ContractManager.construct ContractManager.NoFile).
Proof.
  assert (H : fst (ContractManager.addContract ex_is_address ex_contract EmptyString None
                     false 1000 (ContractManager.construct ContractManager.NoFile))
              = inl ex_added) by (vm_compute; reflexivity).
  split; [exact H|].
  exact (proj1 (proj2 (proj2 (addContract_then_removeContract ex_is_address ex_contract
                                EmptyString None false 1000
                                (ContractManager.construct ContractManager.NoFile)
                                ex_added H)))).
Defined.

(* ===================================================================== *)
(** ** Validator and WalletManager                                        *)
(* ===================================================================== *)

Lemma same_address_eq (a b : string) :
  same_address a b = true <-> JS.toLowerCase a = JS.toLowerCase b.
Proof. apply String.eqb_eq. Qed.

Lemma same_address_congr (a a' x : string) :
  same_address a' a = true -> same_address x a' = same_address x a.
Proof. intros H. apply same_address_eq in H. unfold same_address. now rewrite H. Qed.

Lemma update_first_twice {A} (p : A -> bool) (f : A -> A) (l : list A) :
  (forall x, p (f x) = p x) -> (forall x, f (f x) = x) ->
  update_first p f (update_first p f l) = l.
Proof.
  intros Hp Hf. induction l as [|x l IH]; [reflexivity|]. cbn [update_first].
  destruct (p x) eqn:E; cbn [update_first].
  - now rewrite Hp, E, Hf.
  - now rewrite E, IH.
Qed.

Lemma find_update_first {A} (p : A -> bool) (f : A -> A) (l : list A) :
  (forall x, p (f x) = p x) ->
  find p (update_first p f l) = option_map f (find p l).
Proof.
  intros Hp. induction l as [|x l IH]; [reflexivity|]. cbn [update_first find].
  destruct (p x) eqn:E; cbn [find].
  - now rewrite Hp, E.
  - now rewrite E, IH.
Qed.

Lemma with_prefix_prefixed (key : string) :
  String.prefix "0x" (Validator.with_prefix key) = true.
Proof.
  unfold Validator.with_prefix. destruct (String.prefix "0x" key) eqn:E; [exact E|].
  destruct key as [|c [|d key]]; reflexivity.
Qed.

Lemma with_prefix_idempotent (key : string) :
  Validator.with_prefix (Validator.with_prefix key) = Validator.with_prefix key.
Proof.
  unfold Validator.with_prefix at 1. now rewrite with_prefix_prefixed.
Qed.

Lemma key_format_length (key : string) :
  Validator.key_format key = true -> String.length key = 66.
Proof.
  unfold Validator.key_format. intros H.
  destruct key as [|c key]; [discriminate H|].
  destruct c as [[] [] [] [] [] [] [] []]; try discriminate H.
  destruct key as [|d digits]; [discriminate H|].
  destruct d as [[] [] [] [] [] [] [] []]; try discriminate H.
  apply andb_true_iff in H as [H _]. apply Nat.eqb_eq in H.
  cbn [String.length]. lia.
Qed.

Section WalletManagerFacts.

Variable privateKeyToAccount_v : string -> JS.outcome string JsError.
Variable privateKeyToAccount : string -> JS.outcome string JsError.
Variable encrypt : string -> string -> WalletManager.EncryptedWallet.
Variable decrypt : WalletManager.EncryptedWallet -> JS.outcome string JsError.

Local Abbreviation Stored := WalletManager.Stored.
Local Abbreviation address := WalletManager.address.
Local Abbreviation active := WalletManager.active.
Local Abbreviation wallets := WalletManager.wallets.
Local Abbreviation matches a := (fun w : Stored => same_address (address w) a).
Local Abbreviation isValid := (Validator.isValidPrivateKey privateKeyToAccount_v).
Local Abbreviation addWallet :=
  (WalletManager.addWallet isValid privateKeyToAccount encrypt).
Local Abbreviation getWallet := (WalletManager.getWallet decrypt).
Local Abbreviation toggle := (fun w : Stored => WalletManager.set_active (negb (active w)) w).

Lemma toggle_twice (w : Stored) : toggle (toggle w) = w.
Proof. destruct w as [a e l act lu ad]. cbn. now rewrite negb_involutive. Qed.

(** X19. [toggleWallet] is its own inverse: toggling the same address
    twice leaves the wallet list as it was; the first call reports the
    negated flag of the first wallet that matches up to letter case, the
    second its original flag, and both report null when no wallet
    matches. *)
Theorem toggleWallet_twice (a : string) (m : WalletManager.t) :
  let r1 := WalletManager.toggleWallet a m in
  let r2 := WalletManager.toggleWallet a (snd r1) in
  wallets (snd r2) = wallets m /\
  fst r1 = option_map (fun w => negb (active w)) (find (matches a) (wallets m)) /\
  fst r2 = option_map active (find (matches a) (wallets m)).
Proof.
  cbv zeta. unfold WalletManager.toggleWallet at 2 3 5.
  destruct (find (matches a) (wallets m)) as [found|] eqn:Hf.
  - cbn [fst snd]. cbv zeta. unfold WalletManager.toggleWallet.
    cbn [WalletManager.wallets WalletManager.logAction WalletManager.saveWallets
         WalletManager.set_wallets].
    rewrite (find_update_first (matches a) toggle) by reflexivity.
    rewrite Hf. cbn [option_map fst snd]. cbv zeta.
    cbn [WalletManager.wallets WalletManager.logAction WalletManager.saveWallets
         WalletManager.set_wallets].
    rewrite (update_first_twice (matches a) toggle)
      by (reflexivity || apply toggle_twice).
    split; [reflexivity|]. split; [reflexivity|].
    cbn [WalletManager.active WalletManager.set_active option_map].
    now rewrite negb_involutive.
  - cbn [fst snd]. unfold WalletManager.toggleWallet. rewrite Hf.
    repeat split; reflexivity.
Qed.

Lemma none_matching (a : string) (l : list Stored) :
  JS.toLowerCase a ∉ map (fun w => JS.toLowerCase (address w)) l ->
  List.filter (fun w => negb (same_address (address w) a)) l = l.
Proof.
  induction l as [|x l IH]; [reflexivity|]. cbn [map List.filter].
  intros H. apply not_elem_of_cons in H as [Hx Hl].
  destruct (same_address (address x) a) eqn:E.
  - apply same_address_eq in E. congruence.
  - cbn [negb]. f_equal. now apply IH.
Qed.

Lemma filter_filter_comm {A} (p q : A -> bool) (l : list A) :
  List.filter p (List.filter q l) = List.filter q (List.filter p l).
Proof.
  induction l as [|x l IH]; [reflexivity|]. cbn [List.filter].
  destruct (p x) eqn:Ep, (q x) eqn:Eq; cbn [List.filter];
    rewrite ?Ep, ?Eq, IH; reflexivity.
Qed.

(** X20. A wallet that has been switched off is out of the batch. When
    no address is stored twice up to letter case and [toggleWallet]
    reports [false], the active wallets, over which [/mint] starts its
    chains, are afterwards the earlier ones without the wallets of that
    address; the flags of all others are as before. *)
Theorem toggled_off_wallet_leaves_batch (a : string) (m : WalletManager.t) :
  WalletManager.distinct (wallets m) ->
  fst (WalletManager.toggleWallet a m) = Some false ->
  WalletManager.getActiveWallets (snd (WalletManager.toggleWallet a m))
  = List.filter (fun w => negb (same_address (address w) a))
      (WalletManager.getActiveWallets m).
Proof.
  unfold WalletManager.toggleWallet, WalletManager.getActiveWallets,
    WalletManager.distinct.
  destruct (find (matches a) (wallets m)) as [found|] eqn:Hf; [|discriminate].
  cbn [fst snd]. cbv zeta.
  cbn [WalletManager.wallets WalletManager.logAction WalletManager.saveWallets
       WalletManager.set_wallets].
  intros Hd [= Hact]. apply negb_false_iff in Hact.
  revert Hd Hf. generalize (wallets m) as l.
  induction l as [|x l IH]; [discriminate|]. cbn [map find update_first].
  intros Hd. apply NoDup_cons in Hd as [Hx Hd].
  destruct (same_address (address x) a) eqn:E.
  - intros [= ->]. cbn [List.filter WalletManager.active WalletManager.set_active].
    rewrite Hact. cbn [negb List.filter]. rewrite E. cbn [negb].
    rewrite filter_filter_comm, none_matching; [reflexivity|].
    apply same_address_eq in E. now rewrite <- E.
  - intros Hf. cbn [List.filter]. destruct (active x); cbn [List.filter];
      rewrite ?E; cbn [negb]; [f_equal|]; now apply IH.
Qed.

(** *** Adding, then reading back *)

Lemma find_none_congr (a a' : string) (l : list Stored) :
  same_address a' a = true ->
  find (matches a') l = find (matches a) l.
Proof.
  intros H. induction l as [|x l IH]; [reflexivity|]. cbn [find].
  now rewrite (same_address_congr a a' _ H), IH.
Qed.

Lemma find_last {A} (p : A -> bool) (l : list A) (x : A) :
  find p l = None -> find p (l ++ [x]) = if p x then Some x else None.
Proof.
  induction l as [|y l IH]; [reflexivity|]. cbn [find app].
  destruct (p y); [discriminate | exact IH].
Qed.

(** X21. What [addWallet] stored, [getWallet] gives back. If
    decryption undoes encryption, then after [addWallet] has returned an
    address, [getWallet] for that address in any letter case returns the
    wallet under this address, active, with the key in its prefixed form:
    it starts with [0x] and has 66 characters whether or not the key was
    given with the prefix. The wallet is among the active ones, and
    adding the same key once more throws "Wallet already exists". *)
Theorem addWallet_then_getWallet (key label randomBytes : string) (now : N)
    (m : WalletManager.t) (account account' label' randomBytes' : string) (now' : N) :
  (forall r k, decrypt (encrypt r k) = inl k) ->
  fst (addWallet key label randomBytes now m) = inl account ->
  same_address account' account = true ->
  let m1 := snd (addWallet key label randomBytes now m) in
  getWallet account' m1
    = inl (Some (Build_Wallet account true (Validator.with_prefix key))) /\
  String.length (Validator.with_prefix key) = 66 /\
  String.prefix "0x" (Validator.with_prefix key) = true /\
  (exists w, In w (WalletManager.getActiveWallets m1) /\ address w = account) /\
  fst (addWallet key label' randomBytes' now' m1) = inr (Error "Wallet already exists").
Proof.
  intros Hdec. unfold WalletManager.addWallet at 1 2. cbv zeta.
  destruct (isValid (Validator.with_prefix key)) eqn:Hv; [|discriminate]. cbn [negb].
  destruct (privateKeyToAccount (Validator.with_prefix key)) as [acc|e] eqn:Ha;
    [|discriminate].
  destruct (find (matches acc) (wallets m)) eqn:Hf; [discriminate|].
  cbn [fst snd]. intros [= <-] Hsame. cbv zeta.
  assert (Hfind : forall b x, same_address b acc = true -> address x = acc ->
            find (matches b) (wallets m ++ [x])%list = Some x).
  { intros b x Hb Hx. rewrite find_last.
    - now rewrite Hx, (same_address_congr acc b acc Hb), (proj2 (same_address_eq acc acc)).
    - now rewrite (find_none_congr acc b _ Hb). }
  split.
  { unfold WalletManager.getWallet.
    cbn [WalletManager.wallets WalletManager.logAction WalletManager.saveWallets
         WalletManager.set_wallets].
    erewrite Hfind; [|exact Hsame|reflexivity].
    cbn [WalletManager.encryptedKey WalletManager.address WalletManager.active].
    now rewrite Hdec. }
  split.
  { apply key_format_length. unfold Validator.isValidPrivateKey in Hv.
    rewrite with_prefix_idempotent in Hv.
    destruct (Validator.key_format (Validator.with_prefix key));
      [reflexivity | discriminate]. }
  split; [apply with_prefix_prefixed|].
  split.
  { unfold WalletManager.getActiveWallets.
    cbn [WalletManager.wallets WalletManager.logAction WalletManager.saveWallets
         WalletManager.set_wallets].
    eexists. split.
    - apply filter_In. split; [apply in_or_app; right; left; reflexivity | reflexivity].
    - reflexivity. }
  unfold WalletManager.addWallet. rewrite Hv, Ha. cbn [negb].
  cbn [WalletManager.wallets WalletManager.logAction WalletManager.saveWallets
       WalletManager.set_wallets].
  erewrite Hfind; [|exact (proj2 (same_address_eq acc acc) eq_refl)|reflexivity].
  reflexivity.
Qed.

(** *** Removing *)

Lemma filter_shorter_iff {A} (p : A -> bool) (l : list A) :
  (length (List.filter (fun x => negb (p x)) l) <? length l)%nat = existsb p l.
Proof.
  induction l as [|x l IH]; [reflexivity|]. cbn [List.filter existsb length].
  pose proof (List.filter_length_le (fun x => negb (p x)) l) as Hle.
  destruct (p x); cbn [negb orb length].
  - apply Nat.ltb_lt. lia.
  - rewrite <- IH. destruct (Nat.ltb_spec (length (List.filter (fun x => negb (p x)) l))
                               (length l));
      [apply Nat.ltb_lt | apply Nat.ltb_ge]; lia.
Qed.

Lemma find_filter_other (a b : string) (l : list Stored) :
  same_address b a = false ->
  find (matches b) (List.filter (fun w => negb (same_address (address w) a)) l)
  = find (matches b) l.
Proof.
  intros Hba. induction l as [|x l IH]; [reflexivity|]. cbn [List.filter find].
  destruct (same_address (address x) a) eqn:Ea; cbn [negb find].
  - destruct (same_address (address x) b) eqn:Eb; [|exact IH].
    apply same_address_eq in Ea, Eb. apply not_true_iff_false in Hba.
    exfalso. apply Hba. apply same_address_eq. congruence.
  - now rewrite IH.
Qed.

Lemma find_filter_same (a : string) (l : list Stored) :
  find (matches a) (List.filter (fun w => negb (same_address (address w) a)) l) = None.
Proof.
  induction l as [|x l IH]; [reflexivity|]. cbn [List.filter].
  destruct (same_address (address x) a) eqn:Ea; cbn [negb find]; [exact IH|].
  now rewrite Ea.
Qed.

(** X22. [removeWallet] forgets the wallets of an address and nothing
    else: it returns whether a wallet matched up to letter case;
    afterwards [getWallet] returns null for the address in any letter
    case and, for every other address, what it returned before. *)
Theorem removeWallet_forgets (a a' b : string) (m : WalletManager.t) :
  same_address a' a = true ->
  same_address b a = false ->
  let r := WalletManager.removeWallet a m in
  fst r = existsb (matches a) (wallets m) /\
  getWallet a' (snd r) = inl None /\
  getWallet b (snd r) = getWallet b m.
Proof.
  intros Ha Hb. cbv zeta. unfold WalletManager.removeWallet. cbv zeta.
  cbn [WalletManager.wallets WalletManager.set_wallets].
  rewrite (filter_shorter_iff (matches a)).
  unfold WalletManager.getWallet.
  destruct (existsb (matches a) (wallets m));
    cbn [fst snd WalletManager.wallets WalletManager.logAction WalletManager.saveWallets
         WalletManager.set_wallets];
    rewrite (find_none_congr a a' _ Ha), find_filter_same, (find_filter_other a b _ Hb);
    repeat split; reflexivity.
Qed.

(** *** Over any sequence of calls *)

Local Abbreviation after :=
  (WalletManager.after isValid privateKeyToAccount encrypt).
Local Abbreviation after_all :=
  (WalletManager.after_all isValid privateKeyToAccount encrypt).

Lemma distinct_same_wallet_addresses (l1 l2 : list Stored) :
  map address l1 = map address l2 ->
  WalletManager.distinct l1 -> WalletManager.distinct l2.
Proof.
  unfold WalletManager.distinct. intros H.
  rewrite <- (map_map address JS.toLowerCase l1),
          <- (map_map address JS.toLowerCase l2), H. auto.
Qed.

Lemma NoDup_map_filter_wallets {A B} (g : A -> B) (q : A -> bool) (l : list A) :
  NoDup (map g l) -> NoDup (map g (List.filter q l)).
Proof.
  induction l as [|x l IH]; intros H; [exact H|]. cbn [map] in H.
  apply NoDup_cons in H as [Hx Hl]. cbn [List.filter].
  destruct (q x); [|now apply IH]. cbn [map]. apply NoDup_cons.
  split; [|now apply IH]. intros Hin. apply Hx.
  apply list_elem_of_In, in_map_iff in Hin as [y [Hy Hyin]].
  apply filter_In in Hyin as [Hyin _].
  apply list_elem_of_In, in_map_iff. eauto.
Qed.

Lemma wallets_after (c : WalletManager.Call) (m : WalletManager.t) :
  WalletManager.distinct (wallets m) ->
  WalletManager.loadWallets (WalletManager.walletFile m) = wallets m ->
  WalletManager.distinct (wallets (after c m)) /\
  WalletManager.loadWallets (WalletManager.walletFile (after c m))
  = wallets (after c m).
Proof.
  intros Hd Hp. destruct c as [k l r now|a|a|a ts]; cbn [WalletManager.after].
  - unfold WalletManager.addWallet. cbv zeta.
    destruct (isValid _); [|split; assumption]. cbn [negb].
    destruct (privateKeyToAccount _) as [acc|e]; [|split; assumption].
    destruct (find _ _) eqn:Hf; [split; assumption|].
    cbn [snd WalletManager.wallets WalletManager.logAction WalletManager.saveWallets
         WalletManager.set_wallets WalletManager.walletFile
         WalletManager.loadWallets].
    split; [|reflexivity]. unfold WalletManager.distinct in *.
    rewrite map_app. cbn [map WalletManager.address].
    apply NoDup_app. split; [exact Hd|]. split; [|apply NoDup_singleton].
    intros x Hx Hx'. apply list_elem_of_singleton in Hx'. subst x.
    apply list_elem_of_In, in_map_iff in Hx as [y [Hy Hyin]].
    pose proof (find_none _ _ Hf y Hyin) as Hn. cbv beta in Hn.
    unfold same_address in Hn. apply String.eqb_neq in Hn. congruence.
  - unfold WalletManager.toggleWallet.
    destruct (find _ _); [|split; assumption].
    cbn [snd WalletManager.wallets WalletManager.logAction WalletManager.saveWallets
         WalletManager.set_wallets WalletManager.walletFile
         WalletManager.loadWallets].
    split; [|reflexivity].
    apply (distinct_same_wallet_addresses (wallets m)); [|exact Hd].
    symmetry. apply update_first_ext_view. reflexivity.
  - unfold WalletManager.removeWallet. cbv zeta.
    cbn [WalletManager.wallets WalletManager.set_wallets].
    destruct (Nat.ltb_spec
                (length (List.filter (fun w => negb (same_address (address w) a))
                           (wallets m)))
                (length (wallets m))) as [Hlt|Hge];
      cbn [snd WalletManager.wallets WalletManager.logAction WalletManager.saveWallets
           WalletManager.set_wallets WalletManager.walletFile
           WalletManager.loadWallets].
    + split; [|reflexivity]. now apply NoDup_map_filter_wallets.
    + rewrite filter_length_eq by lia. split; assumption.
  - unfold WalletManager.updateLastUsed.
    destruct (find _ _); [|split; assumption]. cbv zeta.
    cbn [snd WalletManager.wallets WalletManager.logAction WalletManager.saveWallets
         WalletManager.set_wallets WalletManager.walletFile
         WalletManager.loadWallets].
    split; [|reflexivity].
    apply (distinct_same_wallet_addresses (wallets m)); [|exact Hd].
    symmetry. apply update_first_ext_view. reflexivity.
Qed.

(** X23. The wallet list stays free of duplicates and is always on
    disk. If the saved file holds no address twice up to letter case,
    then after the constructor and any sequence of [addWallet],
    [toggleWallet], [removeWallet] and [updateLastUsed] calls, failed
    ones included, no address is stored twice, and a new process loads
    exactly the wallets this one holds. *)
Theorem wallets_distinct_and_saved (f : WalletManager.WalletFile)
    (calls : list WalletManager.Call) :
  WalletManager.distinct (WalletManager.loadWallets f) ->
  let m := after_all calls (WalletManager.construct f) in
  WalletManager.distinct (wallets m) /\
  wallets (WalletManager.construct (WalletManager.walletFile m)) = wallets m.
Proof.
  intros Hd. cbv zeta. unfold WalletManager.after_all.
  change (wallets (WalletManager.construct
            (WalletManager.walletFile
               (fold_left (fun m c => after c m) calls (WalletManager.construct f)))))
    with (WalletManager.loadWallets
            (WalletManager.walletFile
               (fold_left (fun m c => after c m) calls (WalletManager.construct f)))).
  assert (H0 : WalletManager.distinct (wallets (WalletManager.construct f)) /\
               WalletManager.loadWallets
                 (WalletManager.walletFile (WalletManager.construct f))
               = wallets (WalletManager.construct f))
    by (split; [exact Hd | reflexivity]).
  revert H0. generalize (WalletManager.construct f) as m.
  induction calls as [|c calls IH]; intros m Hm; [exact Hm|].
  cbn [fold_left]. apply IH. destruct Hm as [H1 H2]. now apply wallets_after.
Qed.

End WalletManagerFacts.

Lemma toggled_off_wallet_witness :
  WalletManager.distinct (WalletManager.wallets (WalletManager.construct ex_wallet_file)) /\
  fst (WalletManager.toggleWallet "0xb2" (WalletManager.construct ex_wallet_file))
    = Some false /\
  WalletManager.getActiveWallets
    (snd (WalletManager.toggleWallet "0xb2" (WalletManager.construct ex_wallet_file)))
  = [ex_stored ex_A true].
Proof.
  assert (H1 : WalletManager.distinct
                 (WalletManager.wallets (WalletManager.construct ex_wallet_file))).
  { unfold WalletManager.distinct. apply (bool_decide_unpack _). vm_compute. exact I. }
  assert (H2 : fst (WalletManager.toggleWallet "0xb2"
                      (WalletManager.construct ex_wallet_file)) = Some false)
    by (vm_compute; reflexivity).
  split; [exact H1|]. split; [exact H2|].
  rewrite (toggled_off_wallet_leaves_batch "0xb2"
             (WalletManager.construct ex_wallet_file) H1 H2).
  vm_compute. reflexivity.
Defined.

Lemma addWallet_then_getWallet_witness :
  fst (WalletManager.addWallet (Validator.isValidPrivateKey ex_account) ex_account
         ex_encrypt ex_key EmptyString "01" 1001 (WalletManager.construct ex_wallet_file))
    = inl ex_new_account /\
  WalletManager.getWallet ex_decrypt "0xacc04c0883a69102937d6231471b5dbb6204fe51"
    (snd (WalletManager.addWallet (Validator.isValidPrivateKey ex_account) ex_account
            ex_encrypt ex_key EmptyString "01" 1001
            (WalletManager.construct ex_wallet_file)))
  = inl (Some (Build_Wallet ex_new_account true (Validator.with_prefix ex_key))).
Proof.
  assert (H : fst (WalletManager.addWallet (Validator.isValidPrivateKey ex_account)
                     ex_account ex_encrypt ex_key EmptyString "01" 1001
                     (WalletManager.construct ex_wallet_file)) = inl ex_new_account)
    by (vm_compute; reflexivity).
  split; [exact H|].
  exact (proj1 (addWallet_then_getWallet ex_account ex_account ex_encrypt ex_decrypt
                  ex_key EmptyString "01" 1001 (WalletManager.construct ex_wallet_file)
                  ex_new_account "0xacc04c0883a69102937d6231471b5dbb6204fe51"
                  EmptyString "02" 1002 (fun r k => eq_refl) H eq_refl)).
Defined.

Lemma removeWallet_forgets_witness :
  same_address "0xa1" ex_A = true /\ same_address ex_B ex_A = false /\
  fst (WalletManager.removeWallet ex_A (WalletManager.construct ex_wallet_file)) = true /\
  WalletManager.getWallet ex_decrypt "0xa1"
    (snd (WalletManager.removeWallet ex_A (WalletManager.construct ex_wallet_file)))
  = inl None.
Proof.
  split; [reflexivity|]. split; [reflexivity|].
  destruct (removeWallet_forgets ex_decrypt ex_A "0xa1" ex_B
              (WalletManager.construct ex_wallet_file) eq_refl eq_refl) as (H1 & H2 & _).
  split; [rewrite H1; reflexivity | exact H2].
Defined.

Lemma wallets_distinct_and_saved_witness :
  WalletManager.distinct (WalletManager.loadWallets ex_wallet_file) /\
  WalletManager.distinct
    (WalletManager.wallets
       (WalletManager.after_all (Validator.isValidPrivateKey ex_account) ex_account
          ex_encrypt ex_wallet_calls (WalletManager.construct ex_wallet_file))).
Proof.
  assert (H : WalletManager.distinct (WalletManager.loadWallets ex_wallet_file)).
  { unfold WalletManager.distinct. apply (bool_decide_unpack _). vm_compute. exact I. }
  split; [exact H|].
  exact (proj1 (wallets_distinct_and_saved ex_account ex_account ex_encrypt
                  ex_wallet_file ex_wallet_calls H)).
Defined.
